(** * Hypermind peer discovery: bootstrap orchestrator, peer cache,
      peer directory and address-space enumerator

    A shallow embedding of
      - the bootstrap module [discovery/bootstrap.js]: cache load and
        save, cache replay, IPv4 scan and the orchestration of the
        phases;
      - the class [PeerManager], the directory of known peers;
      - the module of configuration constants [config/constants];
    together with a model of the Feistel address enumerator
    [discovery/feistel.js], which [bootstrap.js] imports and whose source
    is not in the tree: it is modelled from the specification.

    The definitions come first (the constants, the enumerator, the
    directory, JavaScript values, the world the program runs in, the
    bootstrap module, concrete inputs); the properties follow. *)

From Stdlib Require Import ZArith Lia List Bool String Ascii QArith.
From Stdlib Require Import DecimalString.
From Equations Require Import Equations.
Import ListNotations.

Local Open Scope Z_scope.
#[local] Set Warnings "-register-all".

(* ===================================================================== *)
(** * Configuration constants                                            *)
(* ===================================================================== *)

Module Constants.

(** JavaScript [a || d] on a number produced by [parseInt]: the default
    is taken when the parse is [NaN] (here [None]) or [0]. *)
Definition or_default (parsed : option Z) (d : Z) : Z :=
  match parsed with
  | Some n => if n =? 0 then d else n
  | None => d
  end.

(** [process.env.X || d] on a string: unset and empty are falsy. *)
Definition str_or_default (v : option string) (d : string) : string :=
  match v with
  | Some s => if String.eqb s EmptyString then d else s
  | None => d
  end.

(** [process.env.BOOTSTRAP_PEER_IP || null]. *)
Definition str_or_null (v : option string) : option string :=
  match v with
  | Some s => if String.eqb s EmptyString then None else Some s
  | None => None
  end.

(** The process environment, with the integer variables as [parseInt]
    reads them ([None] is [NaN] or unset). *)
Record environment := {
  env_MAX_PEERS : option Z;
  env_SCAN_PORT : option Z;
  env_BOOTSTRAP_TIMEOUT : option Z;
  env_PEER_CACHE_ENABLED : option string;
  env_PEER_CACHE_PATH : option string;
  env_PEER_CACHE_MAX_AGE : option Z;
  env_BOOTSTRAP_PEER_IP : option string
}.

(** The constants the directory and the bootstrap module import. *)
Record constants := {
  MAX_PEERS : Z;
  PEER_TIMEOUT : Z;
  SCAN_PORT : Z;
  BOOTSTRAP_TIMEOUT : Z;
  PEER_CACHE_ENABLED : bool;
  PEER_CACHE_PATH : string;
  PEER_CACHE_MAX_AGE : Z;
  BOOTSTRAP_PEER_IP : option string
}.

Definition load (e : environment) : constants := {|
  MAX_PEERS := or_default (env_MAX_PEERS e) 10000;
  PEER_TIMEOUT := 15000;
  SCAN_PORT := or_default (env_SCAN_PORT e) 3000;
  BOOTSTRAP_TIMEOUT := or_default (env_BOOTSTRAP_TIMEOUT e) 10000;
  PEER_CACHE_ENABLED :=
    match env_PEER_CACHE_ENABLED e with
    | Some s => String.eqb s "true"
    | None => false
    end;
  PEER_CACHE_PATH := str_or_default (env_PEER_CACHE_PATH e) "./peers.json";
  PEER_CACHE_MAX_AGE := or_default (env_PEER_CACHE_MAX_AGE e) 86400;
  BOOTSTRAP_PEER_IP := str_or_null (env_BOOTSTRAP_PEER_IP e)
|}.

Definition empty_environment : environment :=
  {| env_MAX_PEERS := None; env_SCAN_PORT := None;
     env_BOOTSTRAP_TIMEOUT := None; env_PEER_CACHE_ENABLED := None;
     env_PEER_CACHE_PATH := None; env_PEER_CACHE_MAX_AGE := None;
     env_BOOTSTRAP_PEER_IP := None |}.

(** The constants of a process started with none of the variables set. *)
Definition defaults : constants := load empty_environment.

End Constants.

(* ===================================================================== *)
(** * Address-space enumerator ([discovery/feistel.js], not in the tree) *)
(* ===================================================================== *)

Module Feistel.

Definition MASK16 : Z := 65535.
Definition SPACE : Z := 4294967296.

(** A 16-bit half block, and a pair of them. *)
Definition half (x : Z) : Prop := 0 <= x < 65536.
Definition halves (p : Z * Z) : Prop := half (fst p) /\ half (snd p).

Section Network.

(** The round function and the number of rounds are not fixed by the
    specification ("at least 3-4 rounds ... keyed by the seed"); the
    model takes both as parameters, so every statement about it holds for
    any choice of them.  [F seed r x] is the value mixed into the other
    half in round [r]. *)
Variable F : Z -> nat -> Z -> Z.
Variable rounds : nat.

(** Modelled from the spec: [feistel.js] is missing.  "A small balanced
    Feistel network operating on 32-bit blocks": the block is split into
    its high and low 16-bit halves. *)
Definition split (x : Z) : Z * Z :=
  (Z.land (Z.shiftr x 16) MASK16, Z.land x MASK16).

(** Modelled from the spec: the two halves put together again. *)
Definition join (p : Z * Z) : Z :=
  Z.lor (Z.shiftl (fst p) 16) (snd p).

(** Modelled from the spec: one round of the network, "keyed by the
    seed".  The right half passes to the left, and the left half is
    mixed with [F] of the right one. *)
Definition round (seed : Z) (r : nat) (p : Z * Z) : Z * Z :=
  let (L, R) := p in
  (R, Z.land (Z.lxor L (F seed r R)) MASK16).

(** The round that undoes [round]. *)
Definition unround (seed : Z) (r : nat) (p : Z * Z) : Z * Z :=
  let (L, R) := p in
  (Z.land (Z.lxor R (F seed r L)) MASK16, L).

Fixpoint run_rounds (seed : Z) (rs : list nat) (p : Z * Z) : Z * Z :=
  match rs with
  | [] => p
  | r :: rs' => run_rounds seed rs' (round seed r p)
  end.

Fixpoint run_unrounds (seed : Z) (rs : list nat) (p : Z * Z) : Z * Z :=
  match rs with
  | [] => p
  | r :: rs' => run_unrounds seed rs' (unround seed r p)
  end.

(** Modelled from the spec: "each next() call encrypts the counter
    through the Feistel rounds", rounds [0] to [rounds - 1] in turn. *)
Definition encrypt (seed x : Z) : Z :=
  join (run_rounds seed (seq 0 rounds) (split x)).

(** The rounds undone from the last to the first. *)
Definition decrypt (seed y : Z) : Z :=
  join (run_unrounds seed (rev (seq 0 rounds)) (split y)).

(** Modelled from the spec: "The enumerator's internal state is a 32-bit
    counter starting at 0". *)
Record generator := { g_seed : Z; g_counter : Z }.

(** Modelled from the spec: the generator of a seed, its counter at 0. *)
Definition createFeistelGenerator (seed : Z) : generator :=
  {| g_seed := seed; g_counter := 0 |}.

(** Modelled from the spec: "each next() call encrypts the counter
    through the Feistel rounds to produce the next candidate address,
    then increments the counter"; the sequence is "finite": after [2^32]
    calls the generator is done and [next] yields no value. *)
Definition next (g : generator) : option Z * generator :=
  if g_counter g <? SPACE
  then (Some (encrypt (g_seed g) (g_counter g)),
        {| g_seed := g_seed g; g_counter := g_counter g + 1 |})
  else (None, g).

(** The generator after [n] calls of [next], and the value the [n]-th
    call (counting from 0) yields. *)
Definition after (seed : Z) (n : nat) : generator :=
  Nat.iter n (fun g => snd (next g)) (createFeistelGenerator seed).

Definition output (seed : Z) (n : nat) : option Z :=
  fst (next (after seed n)).

End Network.

(** Modelled from the spec: "the 32-bit output is rendered as a
    dotted-quad address"; [octet a k] is byte [k] of the address. *)
Definition octet (address : Z) (k : Z) : Z :=
  Z.land (Z.shiftr address (8 * k)) 255.

Definition decimal (n : Z) : string :=
  NilZero.string_of_uint (N.to_uint (Z.to_N n)).

(** Modelled from the spec: the dotted quad, highest byte first. *)
Definition ipv4ToString (address : Z) : string :=
  (decimal (octet address 3) ++ "." ++ decimal (octet address 2) ++ "."
   ++ decimal (octet address 1) ++ "." ++ decimal (octet address 0))%string.

(** A concrete round function, to run the model on examples. *)
Definition mix (seed : Z) (r : nat) (x : Z) : Z :=
  Z.lxor (x * 40503 + seed + Z.of_nat r * 2654435769)
         (Z.shiftr (x * 31 + seed) 7).

End Feistel.

(* ===================================================================== *)
(** * The peer directory (class [PeerManager])                           *)
(* ===================================================================== *)

Module Hex.

(** [Buffer.from(s, 'hex')]: pairs of hexadecimal digits are decoded
    until the first pair that is not valid; a trailing single character
    is dropped. *)
Definition digit (c : ascii) : option N :=
  let n := N_of_ascii c in
  if ((48 <=? n) && (n <=? 57))%N then Some (n - 48)%N
  else if ((97 <=? n) && (n <=? 102))%N then Some (n - 87)%N
  else if ((65 <=? n) && (n <=? 70))%N then Some (n - 55)%N
  else None.

Fixpoint decode (s : string) : list N :=
  match s with
  | String a (String b rest) =>
      match digit a, digit b with
      | Some hi, Some lo => (16 * hi + lo)%N :: decode rest
      | _, _ => []
      end
  | _ => []
  end.

(** [buffer.toString('hex')]: two lower-case hexadecimal digits per
    byte, the high one first. *)
Definition hex_char (n : N) : ascii :=
  if (n <? 10)%N then ascii_of_N (48 + n) else ascii_of_N (87 + n).

Definition encode_byte (b : N) : string :=
  String (hex_char (b / 16)) (String (hex_char (b mod 16)) EmptyString).

Fixpoint encode (bytes : list N) : string :=
  match bytes with
  | [] => EmptyString
  | b :: rest => (encode_byte b ++ encode rest)%string
  end.

(** The contents of a buffer are bytes. *)
Definition bytes (l : list N) : Prop := Forall (fun b => (b < 256)%N) l.

End Hex.

Module Directory.

(** The value stored per peer id.  [addOrUpdatePeer] stores the fields
    [seq], [lastSeen], [key]; [fromJSON] also stores [ip] and [port]
    (absent fields are [None]).  Key material is a byte buffer. *)
Record PeerData := {
  seq : Z;
  lastSeen : Z;
  key : option (list N);
  ip : option string;
  port : option Z
}.

(** The [key] of an element of the array handed to [fromJSON], by what
    [Buffer.from(peer.key, 'hex')] makes of it: a string is decoded as
    hexadecimal; of an array of numbers the bytes are copied; on any
    other truthy value (a number, [true], a plain object) [Buffer.from]
    throws a [TypeError]. *)
Inductive key_field :=
| KeyHex (s : string)
| KeyBytes (bytes : list N)
| KeyInvalid.

(** One element of the array handed to [fromJSON]: an object with the
    fields [toJSON] writes, the numeric ones holding numbers and the
    address a string; every field but the id may be missing, [null] or
    another falsy value ([None]). *)
Record CachedPeer (Id : Type) := {
  c_id : Id;
  c_seq : option Z;
  c_lastSeen : option Z;
  c_ip : option string;
  c_port : option Z;
  c_key : option key_field
}.
Arguments c_id {Id}.
Arguments c_seq {Id}.
Arguments c_lastSeen {Id}.
Arguments c_ip {Id}.
Arguments c_port {Id}.
Arguments c_key {Id}.

Section Manager.

Variable Id : Type.
Variable Id_eq_dec : forall a b : Id, {a = b} + {a <> b}.
Variable MAX_PEERS : Z.
Variable PEER_TIMEOUT : Z.

(** The arithmetic of JavaScript numbers where it is not exact:
    [double_quotient_exceeds ms maxAge] is [ms / 1000 > maxAge] as IEEE
    doubles compute it, for a whole number [ms] and a [maxAge] that is
    not a whole number. *)
Variable double_quotient_exceeds : Z -> Q -> bool.

(** A JavaScript [Map]: entries in insertion order.  [set] on a key that
    is present replaces the value in place, [set] on a new key appends,
    [delete] removes the entry of the key. *)
Definition Map := list (Id * PeerData).

Fixpoint Map_get (id : Id) (m : Map) : option PeerData :=
  match m with
  | [] => None
  | (k, v) :: m' => if Id_eq_dec id k then Some v else Map_get id m'
  end.

Definition Map_has (id : Id) (m : Map) : bool :=
  match Map_get id m with Some _ => true | None => false end.

Fixpoint Map_set (id : Id) (d : PeerData) (m : Map) : Map :=
  match m with
  | [] => [(id, d)]
  | (k, v) :: m' =>
      if Id_eq_dec id k then (k, d) :: m' else (k, v) :: Map_set id d m'
  end.

Definition Map_delete (id : Id) (m : Map) : Map :=
  filter (fun e => if Id_eq_dec id (fst e) then false else true) m.

Definition Map_size (m : Map) : Z := Z.of_nat (List.length m).

Definition keys (m : Map) : list Id := List.map fst m.

Record PeerManager := {
  seenPeers : Map;
  mySeq : Z
}.

(** [constructor()] *)
Definition create : PeerManager := {| seenPeers := []; mySeq := 0 |}.

(** [addOrUpdatePeer(id, seq, key)]; [now] is the reading of
    [Date.now()].  Returns [wasNew] and the updated manager. *)
Definition addOrUpdatePeer (id : Id) (sq : Z) (k : option (list N))
  (now : Z) (pm : PeerManager) : bool * PeerManager :=
  let stored := Map_get id (seenPeers pm) in
  let wasNew := match stored with Some _ => false | None => true end in
  (wasNew,
   {| seenPeers :=
        Map_set id {| seq := sq; lastSeen := now; key := k;
                      ip := None; port := None |} (seenPeers pm);
      mySeq := mySeq pm |}).

(** [canAcceptPeer(id)] *)
Definition canAcceptPeer (id : Id) (pm : PeerManager) : bool :=
  if Map_has id (seenPeers pm) then true
  else Map_size (seenPeers pm) <? MAX_PEERS.

Definition getPeer (id : Id) (pm : PeerManager) : option PeerData :=
  Map_get id (seenPeers pm).

(** [removePeer(id)]: the result of [Map.delete] tells whether the id was
    present. *)
Definition removePeer (id : Id) (pm : PeerManager) : bool * PeerManager :=
  (Map_has id (seenPeers pm),
   {| seenPeers := Map_delete id (seenPeers pm); mySeq := mySeq pm |}).

Definition hasPeer (id : Id) (pm : PeerManager) : bool :=
  Map_has id (seenPeers pm).

Definition size (pm : PeerManager) : Z := Map_size (seenPeers pm).

(** [++this.mySeq].  The counter is a double that starts at 0 and
    changes only here: one is added exactly up to [2^53], and there the
    sum rounds back to [2^53]. *)
Definition max_safe_count : Z := 9007199254740992.

Definition plus_one (n : Z) : Z :=
  if n <? max_safe_count then n + 1 else n.

Definition incrementSeq (pm : PeerManager) : Z * PeerManager :=
  (plus_one (mySeq pm),
   {| seenPeers := seenPeers pm; mySeq := plus_one (mySeq pm) |}).

Definition getSeq (pm : PeerManager) : Z := mySeq pm.

(** The loop [for (const [id, data] of this.seenPeers) { if (stale) {
    this.seenPeers.delete(id); removed++; } }].  A [Map] iterator visits
    every entry that is present when the loop starts and is not deleted
    before it is reached; the body deletes only the entry being visited,
    so the loop visits the entries the map had at the start, in order. *)
Definition evict_step (stale : PeerData -> bool)
  (acc : Map * Z) (e : Id * PeerData) : Map * Z :=
  if stale (snd e) then (Map_delete (fst e) (fst acc), snd acc + 1) else acc.

Definition evict_loop (stale : PeerData -> bool) (m : Map) : Map * Z :=
  fold_left (evict_step stale) m (m, 0).

(** [cleanupStalePeers()]: [now - data.lastSeen > PEER_TIMEOUT]. *)
Definition stale_after_timeout (now : Z) (d : PeerData) : bool :=
  now - lastSeen d >? PEER_TIMEOUT.

Definition cleanupStalePeers (now : Z) (pm : PeerManager)
  : Z * PeerManager :=
  let (m, removed) := evict_loop (stale_after_timeout now) (seenPeers pm) in
  (removed, {| seenPeers := m; mySeq := mySeq pm |}).

(** [prune(maxAge)]: [age = (now - data.lastSeen) / 1000; age > maxAge],
    in the arithmetic of doubles.  [maxAge] is a number, given by its
    value.  When it is a whole number [s] of seconds, the quotient of the
    whole number of milliseconds [now - lastSeen] by 1000 exceeds it
    exactly when [now - lastSeen > 1000 * s], and the doubles decide so
    (the times are below [2^53]); otherwise the rounding of the quotient
    decides, and the test is the one of the doubles. *)
Definition whole_seconds (maxAge : Q) : option Z :=
  if Qnum maxAge mod Zpos (Qden maxAge) =? 0
  then Some (Qnum maxAge / Zpos (Qden maxAge))
  else None.

Definition older_than (maxAge : Q) (now : Z) (d : PeerData) : bool :=
  match whole_seconds maxAge with
  | Some s => now - lastSeen d >? 1000 * s
  | None => double_quotient_exceeds (now - lastSeen d) maxAge
  end.

Definition prune (maxAge : Q) (now : Z) (pm : PeerManager)
  : Z * PeerManager :=
  let (m, removed) := evict_loop (older_than maxAge now) (seenPeers pm) in
  (removed, {| seenPeers := m; mySeq := mySeq pm |}).

(** [x || d] on an optional number. *)
Definition num_or (x : option Z) (d : Z) : Z :=
  match x with
  | Some n => if n =? 0 then d else n
  | None => d
  end.

(** [peer.key ? Buffer.from(peer.key, 'hex') : null]; the empty string
    is falsy.  The result [None] is the [TypeError] of [Buffer.from]. *)
Definition key_of (k : option key_field) : option (option (list N)) :=
  match k with
  | None => Some None
  | Some (KeyHex s) =>
      if String.eqb s EmptyString then Some None
      else Some (Some (Hex.decode s))
  | Some (KeyBytes bytes) => Some (Some bytes)
  | Some KeyInvalid => None
  end.

(** The record [fromJSON] stores for an element that it processes as
    element [i] of the array; [None] when building the record throws. *)
Definition restored (clock : nat -> Z) (i : nat) (peer : CachedPeer Id)
  : option PeerData :=
  match key_of (c_key peer) with
  | Some k =>
      Some {| seq := num_or (c_seq peer) 0;
              lastSeen := num_or (c_lastSeen peer) (clock i);
              key := k;
              ip := c_ip peer;
              port := c_port peer |}
  | None => None
  end.

(** [fromJSON(data)].  [data = None] is a value that is not an array.
    An element [None] is a [null] or [undefined] array element, on which
    [peer.id] throws, and on an element with a key that [Buffer.from]
    rejects the record is not built; either way the call throws and the
    entries set before stay in the map.  [clock i] is the reading
    [Date.now()] gives while element [i] is processed.  The boolean tells
    whether the call returned normally. *)
Fixpoint fromJSON_loop (clock : nat -> Z) (i : nat)
  (data : list (option (CachedPeer Id))) (m : Map) : bool * Map :=
  match data with
  | [] => (true, m)
  | None :: _ => (false, m)
  | Some peer :: rest =>
      match restored clock i peer with
      | Some d => fromJSON_loop clock (S i) rest (Map_set (c_id peer) d m)
      | None => (false, m)
      end
  end.

Definition fromJSON (clock : nat -> Z)
  (data : option (list (option (CachedPeer Id)))) (pm : PeerManager)
  : bool * PeerManager :=
  match data with
  | None => (true, pm)
  | Some l =>
      let (ok, m) := fromJSON_loop clock 0 l (seenPeers pm) in
      (ok, {| seenPeers := m; mySeq := mySeq pm |})
  end.

(** [x || null] on an optional string and on an optional number. *)
Definition str_or_null (x : option string) : option string :=
  match x with
  | Some s => if String.eqb s EmptyString then None else Some s
  | None => None
  end.

Definition nonzero_or_null (x : option Z) : option Z :=
  match x with
  | Some n => if n =? 0 then None else Some n
  | None => None
  end.

(** [toJSON()]: one object per entry, in the order of the map.  A key is
    a buffer, which is truthy also when it is empty. *)
Definition serialize (e : Id * PeerData) : CachedPeer Id :=
  {| c_id := fst e;
     c_seq := Some (seq (snd e));
     c_lastSeen := Some (lastSeen (snd e));
     c_ip := str_or_null (ip (snd e));
     c_port := nonzero_or_null (port (snd e));
     c_key := match key (snd e) with
              | Some buffer => Some (KeyHex (Hex.encode buffer))
              | None => None
              end |}.

Definition toJSON (pm : PeerManager) : list (CachedPeer Id) :=
  List.map serialize (seenPeers pm).

(** A record that [toJSON] followed by [fromJSON] gives back as it is:
    its [lastSeen] is not 0, its key is not the empty buffer, and its
    address and port are not the empty string and 0. *)
Definition portable (d : PeerData) : Prop :=
  lastSeen d <> 0
  /\ match key d with
     | Some buffer => buffer <> [] /\ Hex.bytes buffer
     | None => True
     end
  /\ ip d <> Some EmptyString
  /\ port d <> Some 0.

(** An element whose key [fromJSON] can store: no key, or one that
    [Buffer.from] accepts. *)
Definition key_accepted (peer : CachedPeer Id) : Prop :=
  c_key peer <> Some KeyInvalid.

(** The directory holds at most one record per id. *)
Definition unique_ids (m : Map) : Prop := NoDup (keys m).

(** The entries of [l] that the eviction loop deletes from a map: those
    whose key is the key of a stale entry of [l]. *)
Definition condemned (stale : PeerData -> bool) (l : Map)
  (x : Id * PeerData) : bool :=
  existsb (fun e => stale (snd e)
                    && if Id_eq_dec (fst e) (fst x) then true else false) l.

(** The states a [PeerManager] can be in: those the methods of the class
    produce from a fresh one. *)
Inductive reachable : PeerManager -> Prop :=
| reach_create : reachable create
| reach_addOrUpdatePeer id sq k now pm :
    reachable pm -> reachable (snd (addOrUpdatePeer id sq k now pm))
| reach_removePeer id pm :
    reachable pm -> reachable (snd (removePeer id pm))
| reach_cleanupStalePeers now pm :
    reachable pm -> reachable (snd (cleanupStalePeers now pm))
| reach_prune maxAge now pm :
    reachable pm -> reachable (snd (prune maxAge now pm))
| reach_fromJSON clock data pm :
    reachable pm -> reachable (snd (fromJSON clock data pm))
| reach_incrementSeq pm :
    reachable pm -> reachable (snd (incrementSeq pm)).

End Manager.

End Directory.

(* ===================================================================== *)
(** * JavaScript values handled by [bootstrap.js]                        *)
(* ===================================================================== *)

Module Js.

(** The values [JSON.parse] produces and [JSON.stringify] consumes.
    Numbers are integers (millisecond timestamps, ports, versions). *)
Inductive json : Type :=
| JNull
| JBool (b : bool)
| JNum (n : Z)
| JStr (s : string)
| JArr (items : list json)
| JObj (fields : list (string * json)).

(** A JavaScript value; [None] is [undefined]. *)
Definition value := option json.

Definition truthy (v : json) : bool :=
  match v with
  | JNull => false
  | JBool b => b
  | JNum n => negb (n =? 0)
  | JStr s => negb (String.eqb s EmptyString)
  | JArr _ => true
  | JObj _ => true
  end.

Definition truthy_value (v : value) : bool :=
  match v with
  | Some j => truthy j
  | None => false
  end.

(** Own property of an object; of two bindings of one key the later
    one counts, as in [JSON.parse]. *)
Fixpoint lookup (k : string) (fields : list (string * json)) : value :=
  match fields with
  | [] => None
  | (k', v) :: rest =>
      match lookup k rest with
      | Some v' => Some v'
      | None => if String.eqb k k' then Some v else None
      end
  end.

(** [o.k] for the property names used in [bootstrap.js] ([version],
    [peers], [lastSeen], [ip], [port]), none of which is a property of a
    primitive or of an array.  The result [None] is the [TypeError] of a
    property read on [null] or [undefined]. *)
Definition get_prop (o : value) (k : string) : option value :=
  match o with
  | None => None
  | Some JNull => None
  | Some (JObj fields) => Some (lookup k fields)
  | Some _ => Some None
  end.

(** Object literal [{...o, k: v}]: the key keeps its place when [o] has
    it and is appended otherwise. *)
Fixpoint set_field (k : string) (v : json) (fields : list (string * json))
  : list (string * json) :=
  match fields with
  | [] => [(k, v)]
  | (k', v') :: rest =>
      if String.eqb k k' then (k', v) :: rest
      else (k', v') :: set_field k v rest
  end.

Definition own_fields (o : json) : list (string * json) :=
  match o with
  | JObj fields => fields
  | _ => []
  end.

(** The conversion of an object to a primitive value throws a
    [TypeError] when none of its methods [valueOf] and [toString] gives
    one.  The [valueOf] of an object of a JSON document never does: the
    inherited one returns the object, and an own property of that name is
    no function.  Its [toString] is the inherited one, which gives a
    string, unless the object has an own property [toString], which is
    no function either.  The [toString] of an array converts the
    elements, those that are not [null], to strings. *)
Fixpoint unconvertible (v : json) : bool :=
  match v with
  | JObj fields =>
      match lookup "toString" fields with
      | Some _ => true
      | None => false
      end
  | JArr items => existsb unconvertible items
  | _ => false
  end.

(** The number a value that converts is converted to; [None] is [NaN].
    [s2n] is the conversion of a string ([StringToNumber] of the
    language).  An array converts through its string: the empty array
    and [[null]] give the empty string, a one-element array the string
    of its element, and a longer array a string with a comma, which is
    no number; an object gives ["[object Object]"] and a boolean inside
    an array ["true"] or ["false"], which are no numbers either. *)
Fixpoint number_of (s2n : string -> option Z) (v : json) : option Z :=
  match v with
  | JNull => Some 0
  | JBool b => Some (if b then 1 else 0)
  | JNum n => Some n
  | JStr s => s2n s
  | JArr items =>
      match items with
      | [] => s2n EmptyString
      | [x] =>
          match x with
          | JNull => s2n EmptyString
          | JBool _ => None
          | JObj _ => None
          | _ => number_of s2n x
          end
      | _ :: _ :: _ => None
      end
  | JObj _ => None
  end.

(** [ToNumber]: the outer [None] is the [TypeError] of a value that does
    not convert, the inner one is [NaN]. *)
Definition ToNumber (s2n : string -> option Z) (v : json)
  : option (option Z) :=
  if unconvertible v then None else Some (number_of s2n v).

(** [s.split(c)] for a one-character separator. *)
Fixpoint split_on (sep : ascii) (s : string) : list string :=
  match s with
  | EmptyString => [EmptyString]
  | String c rest =>
      if Ascii.eqb c sep then EmptyString :: split_on sep rest
      else match split_on sep rest with
           | [] => [String c EmptyString]
           | h :: t => String c h :: t
           end
  end.

(** A [StringToNumber] for the strings a dotted quad splits into:
    unsigned decimal numerals, the empty string being 0.  Used to run
    the model; the definitions below take the conversion as a parameter. *)
Definition decimal_to_number (s : string) : option Z :=
  match NilEmpty.uint_of_string s with
  | Some u => Some (Z.of_N (N.of_uint u))
  | None => None
  end.

End Js.

(* ===================================================================== *)
(** * The world [bootstrap.js] runs in                                   *)
(* ===================================================================== *)

Module Runtime.
Import Js.

(** The text of a file: [Json v] is a text [JSON.parse] turns into [v]
    (and what [JSON.stringify v] writes); [Raw s] is a text on which
    [JSON.parse] throws. *)
Inductive text := Raw (s : string) | Json (v : json).

(** A path of the file system: no file, a file that cannot be read, or a
    file with its text. *)
Inductive file := Missing | Unreadable | Content (t : text).

(** The lines written to the console, one constructor per message. *)
Inductive line :=
| InvalidCacheFormat
| PrunedStale (n : Z)
| LoadFailed (message : string)
| SavedPeers (n : Z)
| SaveFailed (message : string)
| NoCachedPeers
| Reconnecting (n : Z)
| TryingCached (ip port : value)
| Reconnected (ip : value)
| AllUnreachable
| ScanStart (port timeout : Z)
| ScanTimeout (attempts : Z)
| FoundPeer (ip : string) (port attempts : Z)
| ScanProgress (attempts elapsed : Z)
| BootstrapStart (seed : Z)
| DebugAttempt (ip : string) (port : Z)
| DebugConnected (ip : string)
| DebugFailed (ip : string)
| UsingCached (ip : value)
| FoundViaScan
| FallbackToDHT.

(** Entries of the instrumentation: which function of the module was
    entered, with its arguments. *)
Inductive call :=
| CallLoadPeerCache
| CallSavePeerCache (peers : list json)
| CallRetryCachedPeers
| CallScanIPv4Space (seed timeout : Z)
| CallBootstrapPeers (seed : Z).

(** What a run leaves behind: the calls, the console lines, the
    connection attempts with their fate, the accesses to the file system
    and the values taken from the generator. *)
Inductive event :=
| Call (c : call)
| Log (l : line)
| Warn (l : line)
| Connect (ip port : value) (timeout : Z) (connected : bool)
| FsExists (path : string)
| FsRead (path : string)
| FsWrite (path : string) (t : text)
| GenNext (address : option Z).

(** What the program cannot decide: the successive readings of
    [Date.now()], the fate of the successive connection attempts, the
    conversion of strings to numbers, and what [net.createConnection]
    makes of a first argument that is a string (a port or the path of a
    pipe) or an object (the options of the socket): the error it throws
    at once, if any. *)
Record runtime := {
  clock : nat -> Z;
  connect : nat -> value -> value -> Z -> bool;
  StringToNumber : string -> option Z;
  socket_argument_error : json -> option string
}.

(** The state a run changes: the files, the fate of a write to each of
    them, how often the clock has been read, how many connections have
    been attempted, and the events so far, the latest first.  A write
    succeeds on the paths that are [fs_writable].  On the others it
    throws: before the file is opened, which leaves the file as it was
    ([fs_torn] is [None]), or after the file was opened and truncated,
    which leaves the part of the text written by then ([Some], the empty
    string when nothing was). *)
Record world := {
  fs : string -> file;
  fs_writable : string -> bool;
  fs_torn : string -> option string;
  clock_reads : nat;
  connections : nat;
  events : list event
}.

(** A computation ends with a value or with an exception, of which the
    message is kept. *)
Inductive outcome (A : Type) :=
| Ok (a : A)
| Throw (message : string).
Arguments Ok {A}.
Arguments Throw {A}.

(** Computations: they read and change the world and return a value or
    throw. *)
Definition M (A : Type) := world -> outcome A * world.

Definition ret {A} (a : A) : M A := fun w => (Ok a, w).

Definition bind {A B} (m : M A) (f : A -> M B) : M B :=
  fun w =>
    match m w with
    | (Ok a, w') => f a w'
    | (Throw e, w') => (Throw e, w')
    end.

Definition throw {A} (message : string) : M A := fun w => (Throw message, w).

(** [try { body } catch (err) { handler(err.message) }] *)
Definition try_catch {A} (body : M A) (handler : string -> M A) : M A :=
  fun w =>
    match body w with
    | (Ok a, w') => (Ok a, w')
    | (Throw e, w') => handler e w'
    end.

Definition emit (e : event) : M unit :=
  fun w =>
    (Ok tt,
     {| fs := fs w; fs_writable := fs_writable w; fs_torn := fs_torn w;
        clock_reads := clock_reads w; connections := connections w;
        events := e :: events w |}).

Definition console_log (l : line) : M unit := emit (Log l).
Definition console_warn (l : line) : M unit := emit (Warn l).

(** A property read that throws on [null] and [undefined]. *)
Definition get (o : value) (k : string) : M value :=
  match get_prop o k with
  | Some v => ret v
  | None => throw "TypeError: Cannot read properties of null"
  end.

Definition Date_now (rt : runtime) : M Z :=
  fun w =>
    (Ok (clock rt (clock_reads w)),
     {| fs := fs w; fs_writable := fs_writable w; fs_torn := fs_torn w;
        clock_reads := S (clock_reads w); connections := connections w;
        events := events w |}).

Definition existsSync (path : string) : M bool :=
  fun w =>
    (Ok (match fs w path with Missing => false | _ => true end),
     {| fs := fs w; fs_writable := fs_writable w; fs_torn := fs_torn w;
        clock_reads := clock_reads w; connections := connections w;
        events := FsExists path :: events w |}).

Definition readFileSync (path : string) : M text :=
  fun w =>
    let w' :=
      {| fs := fs w; fs_writable := fs_writable w; fs_torn := fs_torn w;
         clock_reads := clock_reads w; connections := connections w;
         events := FsRead path :: events w |} in
    match fs w path with
    | Content t => (Ok t, w')
    | Missing => (Throw "ENOENT: no such file or directory", w')
    | Unreadable => (Throw "EACCES: permission denied", w')
    end.

Definition JSON_parse (t : text) : M json :=
  match t with
  | Json v => ret v
  | Raw _ => throw "SyntaxError: Unexpected token"
  end.

Definition JSON_stringify (v : json) : text := Json v.

Definition write_file (path : string) (t : text) (f : string -> file)
  : string -> file :=
  fun p => if String.eqb p path then Content t else f p.

(** [fs.writeFileSync(path, text, 'utf8')]: the file is opened with
    the flag [w], which truncates it, and then written. *)
Definition writeFileSync (path : string) (t : text) : M unit :=
  fun w =>
    if fs_writable w path
    then (Ok tt,
          {| fs := write_file path t (fs w); fs_writable := fs_writable w;
             fs_torn := fs_torn w;
             clock_reads := clock_reads w; connections := connections w;
             events := FsWrite path t :: events w |})
    else
      match fs_torn w path with
      | None => (Throw "EACCES: permission denied", w)
      | Some part =>
          (Throw "ENOSPC: no space left on device",
           {| fs := write_file path (Raw part) (fs w);
              fs_writable := fs_writable w; fs_torn := fs_torn w;
              clock_reads := clock_reads w; connections := connections w;
              events := FsWrite path (Raw part) :: events w |})
      end.

(** What [net.createConnection(port, ip, listener)] throws at once, by
    its first argument.  A number must be a port, a whole number from 0
    to 65535; [undefined], and an array, which is taken for options
    without a port, are a missing argument; [null] and a boolean are of
    no type a port has. *)
Definition createConnection_error (rt : runtime) (port : value)
  : option string :=
  match port with
  | None => Some "ERR_MISSING_ARGS"%string
  | Some JNull => Some "ERR_INVALID_ARG_TYPE"%string
  | Some (JBool _) => Some "ERR_INVALID_ARG_TYPE"%string
  | Some (JNum n) =>
      if (0 <=? n) && (n <=? 65535) then None
      else Some "ERR_SOCKET_BAD_PORT"%string
  | Some (JArr _) => Some "ERR_MISSING_ARGS"%string
  | Some (JStr s) => socket_argument_error rt (JStr s)
  | Some (JObj fields) => socket_argument_error rt (JObj fields)
  end.

(** The promise of [tryConnectToPeer(ip, port, timeout)], for the
    attempt number [k]: it resolves to a socket ([true]) when the
    connection is made, and to [null] ([false]) on timeout or error; it
    rejects when [net.createConnection] throws inside it. *)
Definition connection_outcome (rt : runtime) (k : nat) (ip port : value)
  (timeout : Z) : outcome bool :=
  match createConnection_error rt port with
  | Some message => Throw message
  | None => Ok (connect rt k ip port timeout)
  end.

(** [await tryConnectToPeer(ip, port, timeout)]; a rejection is a throw
    at the [await]. *)
Definition tryConnectToPeer (rt : runtime) (ip port : value) (timeout : Z)
  : M bool :=
  fun w =>
    match connection_outcome rt (connections w) ip port timeout with
    | Throw message => (Throw message, w)
    | Ok r =>
        (Ok r,
         {| fs := fs w; fs_writable := fs_writable w; fs_torn := fs_torn w;
            clock_reads := clock_reads w; connections := S (connections w);
            events := Connect ip port timeout r :: events w |})
    end.

End Runtime.

(* ===================================================================== *)
(** * The bootstrap module ([discovery/bootstrap.js])                    *)
(* ===================================================================== *)

Module Bootstrap.
Import Js Runtime Constants.

Notation "x <- m ;; k" := (bind m (fun x => k))
  (at level 61, m at next level, right associativity).
Notation "m ;;; k" := (bind m (fun _ => k))
  (at level 61, right associativity).

(** Comparisons of a number that may be [NaN] or [undefined] ([None])
    with a constant: all are false on [None]. *)
Definition num_eq (a : option Z) (n : Z) : bool :=
  match a with Some x => x =? n | None => false end.
Definition num_ge (a : option Z) (n : Z) : bool :=
  match a with Some x => x >=? n | None => false end.
Definition num_le (a : option Z) (n : Z) : bool :=
  match a with Some x => x <=? n | None => false end.

(** [parts[i]] of [ip.split('.').map(Number)]. *)
Definition part (parts : list (option Z)) (i : nat) : option Z :=
  match nth_error parts i with
  | Some n => n
  | None => None
  end.

(** The loop of [scanIPv4Space] either leaves with the function's result
    or goes round again with the new counter and generator. *)
Inductive step (gen : Type) :=
| Break (result : json)
| Continue (attempts : Z) (g : gen).
Arguments Break {gen}.
Arguments Continue {gen}.

Definition inspect {A} (a : A) : {b : A | a = b} := exist _ a eq_refl.

Definition maxAttempts : Z := 100000.

(** The turns the loop of [scanIPv4Space] has left, its variant. *)
Definition remaining (attempts : Z) : nat := Z.to_nat (maxAttempts - attempts).
Arguments remaining : simpl never.

Section Program.

Variable rt : runtime.
Variable cfg : constants.

(** The imports from [./feistel]: the generator object, its [next]
    (whose [value] is [undefined], here [None], once the generator is
    done), and the rendering of an address. *)
Variable gen : Type.
Variable createFeistelGenerator : Z -> gen.
Variable generator_next : gen -> option Z * gen.
Variable ipv4ToString : option Z -> string.

(** The callback of [peers.filter]:
    [age = (now - (p.lastSeen || 0)) / 1000; return age < MAX_AGE].
    The subtraction converts its operand to a number, which throws on a
    value that does not convert; a maximum age is a whole number of
    seconds. *)
Definition is_fresh (now : Z) (p : json) : M bool :=
  ls <- get (Some p) "lastSeen" ;;
  let x := if truthy_value ls
           then match ls with Some j => j | None => JNum 0 end
           else JNum 0 in
  match ToNumber (StringToNumber rt) x with
  | None => throw "TypeError: Cannot convert object to primitive value"
  | Some (Some n) =>
      ret (negb (Qle_bool (inject_Z (PEER_CACHE_MAX_AGE cfg))
                          (inject_Z (now - n) / inject_Z 1000)))
  | Some None => ret false
  end.

Fixpoint filter_fresh (now : Z) (peers : list json) : M (list json) :=
  match peers with
  | [] => ret []
  | p :: rest =>
      keep <- is_fresh now p ;;
      rest' <- filter_fresh now rest ;;
      ret (if keep then p :: rest' else rest')
  end.

Definition len (l : list json) : Z := Z.of_nat (List.length l).

(** [loadPeerCache()] *)
Definition loadPeerCache : M (list json) :=
  emit (Call CallLoadPeerCache) ;;;
  if negb (PEER_CACHE_ENABLED cfg) then ret []
  else
    try_catch
      (present <- existsSync (PEER_CACHE_PATH cfg) ;;
       if negb present then ret []
       else
         t <- readFileSync (PEER_CACHE_PATH cfg) ;;
         data <- JSON_parse t ;;
         version <- get (Some data) "version" ;;
         peers <- (if truthy_value version
                   then get (Some data) "peers"
                   else ret (Some data)) ;;
         match peers with
         | Some (JArr items) =>
             now <- Date_now rt ;;
             fresh <- filter_fresh now items ;;
             (if len fresh <? len items
              then console_log (PrunedStale (len items - len fresh))
              else ret tt) ;;;
             ret fresh
         | _ =>
             console_warn InvalidCacheFormat ;;;
             ret []
         end)
      (fun message =>
         console_warn (LoadFailed message) ;;;
         ret []).

(** [savePeerCache(peers)] *)
Definition savePeerCache (peers : list json) : M unit :=
  emit (Call (CallSavePeerCache peers)) ;;;
  if negb (PEER_CACHE_ENABLED cfg) then ret tt
  else
    try_catch
      (timestamp <- Date_now rt ;;
       let data := JObj [("version", JNum 1);
                         ("timestamp", JNum timestamp);
                         ("peers", JArr (firstn 100 peers))]%string in
       writeFileSync (PEER_CACHE_PATH cfg) (JSON_stringify data) ;;;
       console_log (SavedPeers (len peers)))
      (fun message => console_warn (SaveFailed message)).

(** The [for (const peer of cached)] loop of [retryCachedPeers] and the
    statements after it. *)
Fixpoint retry_loop (cached : list json) : M json :=
  match cached with
  | [] =>
      console_log AllUnreachable ;;;
      ret JNull
  | peer :: rest =>
      ip <- get (Some peer) "ip" ;;
      port <- get (Some peer) "port" ;;
      console_log (TryingCached ip port) ;;;
      socket <- tryConnectToPeer rt ip port 500 ;;
      if socket
      then console_log (Reconnected ip) ;;; ret peer
      else retry_loop rest
  end.

(** [retryCachedPeers()] *)
Definition retryCachedPeers : M json :=
  emit (Call CallRetryCachedPeers) ;;;
  cached <- loadPeerCache ;;
  if len cached =? 0
  then console_log NoCachedPeers ;;; ret JNull
  else
    console_log (Reconnecting (len cached)) ;;;
    retry_loop cached.

(** [shouldSkipAddress(ip)] *)
Definition shouldSkipAddress (ip : string) : bool :=
  let parts := List.map (StringToNumber rt) (split_on "."%char ip) in
  if num_eq (part parts 0) 127 then true
  else if num_eq (part parts 0) 10 then true
  else if num_eq (part parts 0) 172 && num_ge (part parts 1) 16
          && num_le (part parts 1) 31 then true
  else if num_eq (part parts 0) 192 && num_eq (part parts 1) 168 then true
  else if num_eq (part parts 0) 169 && num_eq (part parts 1) 254 then true
  else if num_ge (part parts 0) 224 && num_le (part parts 0) 239 then true
  else if num_ge (part parts 0) 240 then true
  else false.

(** One turn of the [while] loop of [scanIPv4Space], entered with
    [attempts < maxAttempts]. *)
Definition scan_body (timeout startTime attempts : Z) (g : gen)
  : M (step gen) :=
  now <- Date_now rt ;;
  if now - startTime >? timeout
  then console_log (ScanTimeout attempts) ;;; ret (Break JNull)
  else
    let (address, g') := generator_next g in
    emit (GenNext address) ;;;
    let ip := ipv4ToString address in
    if shouldSkipAddress ip
    then ret (Continue (attempts + 1) g')
    else
      let attempts' := attempts + 1 in
      if negb (Z.rem attempts' 100 =? 0)
      then ret (Continue attempts' g')
      else
        socket <- tryConnectToPeer rt (Some (JStr ip))
                    (Some (JNum (SCAN_PORT cfg))) 500 ;;
        if socket
        then
          console_log (FoundPeer ip (SCAN_PORT cfg) attempts') ;;;
          ret (Break (JObj [("ip", JStr ip);
                            ("port", JNum (SCAN_PORT cfg))]%string))
        else
          (if Z.rem attempts' 10000 =? 0
           then now' <- Date_now rt ;;
                console_log (ScanProgress attempts' (now' - startTime))
           else ret tt) ;;;
          ret (Continue attempts' g').

(** [while (attempts < maxAttempts) { ... } return null;] *)
Equations? scan_loop (timeout startTime attempts : Z) (g : gen) (w : world)
  : outcome json * world
  by wf (remaining attempts) lt :=
scan_loop timeout startTime attempts g w
  with Z_lt_dec attempts maxAttempts := {
  | right _ => (Ok JNull, w)
  | left _ with inspect (scan_body timeout startTime attempts g w) := {
    | exist _ (Ok (Continue attempts' g'), w') _ =>
        scan_loop timeout startTime attempts' g' w'
    | exist _ (Ok (Break result), w') _ => (Ok result, w')
    | exist _ (Throw message, w') _ => (Throw message, w') } }.
Proof.
  assert (attempts' = attempts + 1); [| unfold remaining; lia].
  revert e. unfold scan_body, bind, Date_now, console_log, emit,
    tryConnectToPeer, ret.
  repeat match goal with
         | |- context [connection_outcome ?a ?b ?c ?d ?t] =>
             destruct (connection_outcome a b c d t) as [[|] |]
         | |- context [if ?c then _ else _] => destruct c
         | |- context [let (_, _) := ?p in _] => destruct p
         end; intro e; inversion e; reflexivity.
Qed.

(** [scanIPv4Space(seed, timeout)] *)
Definition scanIPv4Space (seed timeout : Z) : M json :=
  emit (Call (CallScanIPv4Space seed timeout)) ;;;
  let generator := createFeistelGenerator seed in
  startTime <- Date_now rt ;;
  console_log (ScanStart (SCAN_PORT cfg) timeout) ;;;
  scan_loop timeout startTime 0 generator.

(** The debug phase of [bootstrapPeers]: [Some peer] is the early
    [return], [None] falls through to the phases after it. *)
Definition debug_phase : M (option json) :=
  match BOOTSTRAP_PEER_IP cfg with
  | None => ret None
  | Some address =>
      if String.eqb address EmptyString then ret None
      else
        console_log (DebugAttempt address (SCAN_PORT cfg)) ;;;
        socket <- tryConnectToPeer rt (Some (JStr address))
                    (Some (JNum (SCAN_PORT cfg))) 2000 ;;
        if socket
        then
          console_log (DebugConnected address) ;;;
          ret (Some (JObj [("ip", JStr address);
                           ("port", JNum (SCAN_PORT cfg))]%string))
        else
          console_log (DebugFailed address) ;;;
          ret None
  end.

(** [bootstrapPeers(seed)] *)
Definition bootstrapPeers (seed : Z) : M json :=
  emit (Call (CallBootstrapPeers seed)) ;;;
  console_log (BootstrapStart seed) ;;;
  debug <- debug_phase ;;
  match debug with
  | Some peer => ret peer
  | None =>
      cachedPeer <- retryCachedPeers ;;
      if truthy cachedPeer
      then
        ip <- get (Some cachedPeer) "ip" ;;
        console_log (UsingCached ip) ;;;
        ret cachedPeer
      else
        scannedPeer <- scanIPv4Space seed (BOOTSTRAP_TIMEOUT cfg) ;;
        if truthy scannedPeer
        then
          now <- Date_now rt ;;
          let peer := JObj (set_field "lastSeen" (JNum now)
                              (set_field "id" JNull
                                 (own_fields scannedPeer))) in
          savePeerCache [peer] ;;;
          console_log FoundViaScan ;;;
          ret peer
        else
          console_log FallbackToDHT ;;;
          ret JNull
  end.

(** ** Vocabulary of the statements about [bootstrap.js] *)

(** The test of the [filter] callback on an entry on which it does not
    throw: [(now - (p.lastSeen || 0)) / 1000 < PEER_CACHE_MAX_AGE]. *)
Definition fresh (now : Z) (p : json) : bool :=
  let ls := match p with JObj fields => lookup "lastSeen" fields | _ => None end in
  let x := if truthy_value ls
           then match ls with Some j => j | None => JNum 0 end
           else JNum 0 in
  match number_of (StringToNumber rt) x with
  | Some n =>
      negb (Qle_bool (inject_Z (PEER_CACHE_MAX_AGE cfg))
                     (inject_Z (now - n) / inject_Z 1000))
  | None => false
  end.

(** The document [savePeerCache] writes at time [ts]. *)
Definition snapshot (ts : Z) (peers : list json) : json :=
  JObj [("version", JNum 1); ("timestamp", JNum ts);
        ("peers", JArr (firstn 100 peers))]%string.

(** The peer the scan returns on success, and the peer [bootstrapPeers]
    makes of it. *)
Definition found (ip : string) : json :=
  JObj [("ip", JStr ip); ("port", JNum (SCAN_PORT cfg))]%string.

Definition scanned_peer (ip : string) (now : Z) : json :=
  JObj [("ip", JStr ip); ("port", JNum (SCAN_PORT cfg)); ("id", JNull);
        ("lastSeen", JNum now)]%string.

(** [if (BOOTSTRAP_PEER_IP)] *)
Definition debug_configured : bool :=
  match BOOTSTRAP_PEER_IP cfg with
  | Some address => negb (String.eqb address EmptyString)
  | None => false
  end.

(** The events of the debug phase, latest first. *)
Definition debug_trace (address : string) (connected : bool) : list event :=
  [Log (if connected then DebugConnected address else DebugFailed address);
   Connect (Some (JStr address)) (Some (JNum (SCAN_PORT cfg))) 2000 connected;
   Log (DebugAttempt address (SCAN_PORT cfg))].

(** The two events [bootstrapPeers] starts with, latest first, and the
    world after them. *)
Definition start_trace (seed : Z) : list event :=
  [Log (BootstrapStart seed); Call (CallBootstrapPeers seed)].

Definition started (seed : Z) (w : world) : world :=
  snd (emit (Log (BootstrapStart seed))
         (snd (emit (Call (CallBootstrapPeers seed)) w))).

(** No connection attempt succeeds; no reading of the clock is later
    than [timeout] after [start]. *)
Definition never_connects : Prop :=
  forall k ip port t, connect rt k ip port t = false.

Definition within_deadline (timeout start : Z) : Prop :=
  forall k, clock rt k - start <= timeout.


End Program.

(** The array [loadPeerCache] takes for the cached peers: the document
    itself when it is an array, the [peers] of an object with a truthy
    [version]; the value of [version] is not looked at further. *)
Definition cache_entries (data : json) : option (list json) :=
  match data with
  | JArr items => Some items
  | JObj fields =>
      if truthy_value (lookup "version" fields)
      then match lookup "peers" fields with
           | Some (JArr items) => Some items
           | _ => None
           end
      else None
  | _ => None
  end.

Definition is_null (p : json) : bool :=
  match p with JNull => true | _ => false end.

(** An entry on which the [filter] callback of [loadPeerCache] throws:
    [null], of which no property can be read, or an entry whose truthy
    [lastSeen] does not convert to a number. *)
Definition rejected (p : json) : bool :=
  match p with
  | JNull => true
  | JObj fields =>
      match lookup "lastSeen" fields with
      | Some ls => truthy ls && unconvertible ls
      | None => false
      end
  | _ => false
  end.

(** A port: a whole number from 0 to 65535. *)
Definition valid_port (n : Z) : Prop := 0 <= n <= 65535.

(** A connection that was made. *)
Definition is_success (e : event) : bool :=
  match e with Connect _ _ _ connected => connected | _ => false end.

(** The function of the module an event comes from. *)
Inductive origin :=
| Orchestrator
| DebugPhase
| CachePhase
| ScanPhase
| SavePhase
| Connection.

Definition line_origin (l : line) : origin :=
  match l with
  | InvalidCacheFormat | PrunedStale _ | LoadFailed _ => CachePhase
  | SavedPeers _ | SaveFailed _ => SavePhase
  | NoCachedPeers | Reconnecting _ | TryingCached _ _ | Reconnected _
  | AllUnreachable => CachePhase
  | ScanStart _ _ | ScanTimeout _ | FoundPeer _ _ _ | ScanProgress _ _ =>
      ScanPhase
  | BootstrapStart _ | UsingCached _ | FoundViaScan | FallbackToDHT =>
      Orchestrator
  | DebugAttempt _ _ | DebugConnected _ | DebugFailed _ => DebugPhase
  end.

Definition origin_of (e : event) : origin :=
  match e with
  | Call CallLoadPeerCache | Call CallRetryCachedPeers => CachePhase
  | Call (CallSavePeerCache _) => SavePhase
  | Call (CallScanIPv4Space _ _) => ScanPhase
  | Call (CallBootstrapPeers _) => Orchestrator
  | Log l | Warn l => line_origin l
  | Connect _ _ _ _ => Connection
  | FsExists _ | FsRead _ => CachePhase
  | FsWrite _ _ => SavePhase
  | GenNext _ => ScanPhase
  end.

Definition origin_eqb (a b : origin) : bool :=
  match a, b with
  | Orchestrator, Orchestrator | DebugPhase, DebugPhase
  | CachePhase, CachePhase | ScanPhase, ScanPhase | SavePhase, SavePhase
  | Connection, Connection => true
  | _, _ => false
  end.

(** [from os e]: the event [e] comes from one of the origins [os]. *)
Definition from (os : list origin) (e : event) : bool :=
  existsb (origin_eqb (origin_of e)) os.

Definition is_warning (e : event) : bool :=
  match e with Warn _ => true | _ => false end.

Definition is_found (e : event) : bool :=
  match e with Log (FoundPeer _ _ _) => true | _ => false end.

Definition is_scan_timeout (e : event) : bool :=
  match e with Log (ScanTimeout _) => true | _ => false end.

(** The number of calls of [generator.next()] among some events. *)
Definition gen_calls (l : list event) : Z :=
  Z.of_nat (List.length (filter (fun e => match e with GenNext _ => true | _ => false end) l)).

(** The number of connection attempts among some events. *)
Definition is_connect (e : event) : bool :=
  match e with Connect _ _ _ _ => true | _ => false end.

Definition connects (l : list event) : Z :=
  Z.of_nat (List.length (filter is_connect l)).

(** An access to the file system. *)
Definition is_fs_event (e : event) : bool :=
  match e with
  | FsExists _ | FsRead _ | FsWrite _ _ => true
  | _ => false
  end.

(** An access to the file system that is one to the cache file, made
    with the cache enabled; an event that is no access passes. *)
Definition cache_access (cfg : constants) (e : event) : bool :=
  match e with
  | FsExists p | FsRead p | FsWrite p _ =>
      PEER_CACHE_ENABLED cfg && String.eqb p (PEER_CACHE_PATH cfg)
  | _ => true
  end.

(** A connection attempt as the scan makes them: to an address the
    filter does not skip, on the port [SCAN_PORT], with 500 ms. *)
Definition is_scan_probe (rt : runtime) (cfg : constants) (e : event)
  : bool :=
  match e with
  | Connect (Some (JStr ip)) (Some (JNum port)) timeout _ =>
      negb (shouldSkipAddress rt ip) && (port =? SCAN_PORT cfg)
      && (timeout =? 500)
  | Connect _ _ _ _ => false
  | _ => true
  end.

(** [p.k] of a value that is not [null]. *)
Definition prop (p : json) (k : string) : value :=
  match get_prop (Some p) k with
  | Some v => v
  | None => None
  end.

(** The attempt number [k], made at the cached peer [p] by
    [retryCachedPeers]. *)
Definition replay (rt : runtime) (k : nat) (p : json) : outcome bool :=
  connection_outcome rt k (prop p "ip") (prop p "port") 500.

(** A string without a dot. *)
Fixpoint no_dot (s : string) : bool :=
  match s with
  | EmptyString => true
  | String c rest => negb (Ascii.eqb c "."%char) && no_dot rest
  end.

(** The ranges [shouldSkipAddress] names, on the first two numbers of an
    address: loopback, the three private ranges, link-local, multicast
    and reserved. *)
Definition reserved_range (a b : Z) : Prop :=
  a = 127 \/ a = 10 \/ (a = 172 /\ 16 <= b <= 31)
  \/ (a = 192 /\ b = 168) \/ (a = 169 /\ b = 254) \/ 224 <= a.

End Bootstrap.

(* ===================================================================== *)
(** * Concrete inputs                                                    *)
(* ===================================================================== *)

Module Samples.
Import Js Runtime Constants.

(** The enumerator with the round function [Feistel.mix] and 4 rounds;
    a generator that is done renders as address 0. *)
Definition next := Feistel.next Feistel.mix 4.

Definition render (address : option Z) : string :=
  match address with
  | Some a => Feistel.ipv4ToString a
  | None => Feistel.ipv4ToString 0
  end.

(** A clock that advances by one millisecond per reading. *)
Definition ticking (start : Z) (k : nat) : Z := start + Z.of_nat k.

Definition offline : runtime :=
  {| clock := ticking 1700000000000;
     connect := fun _ _ _ _ => false;
     StringToNumber := decimal_to_number;
     socket_argument_error := fun _ => None |}.

Definition online : runtime :=
  {| clock := ticking 1700000000000;
     connect := fun _ _ _ _ => true;
     StringToNumber := decimal_to_number;
     socket_argument_error := fun _ => None |}.

(** A clock that stands still, so that no deadline ever passes. *)
Definition frozen_offline : runtime :=
  {| clock := fun _ => 0;
     connect := fun _ _ _ _ => false;
     StringToNumber := decimal_to_number;
     socket_argument_error := fun _ => None |}.

Definition caching : constants :=
  {| MAX_PEERS := 10000; PEER_TIMEOUT := 15000; SCAN_PORT := 3000;
     BOOTSTRAP_TIMEOUT := 10000; PEER_CACHE_ENABLED := true;
     PEER_CACHE_PATH := "./peers.json"; PEER_CACHE_MAX_AGE := 86400;
     BOOTSTRAP_PEER_IP := None |}.

Definition debugging : constants :=
  {| MAX_PEERS := 10000; PEER_TIMEOUT := 15000; SCAN_PORT := 3000;
     BOOTSTRAP_TIMEOUT := 10000; PEER_CACHE_ENABLED := true;
     PEER_CACHE_PATH := "./peers.json"; PEER_CACHE_MAX_AGE := 86400;
     BOOTSTRAP_PEER_IP := Some "192.168.1.100"%string |}.

(** [SCAN_PORT=70000]: a number that is no port. *)
Definition misconfigured : constants :=
  {| MAX_PEERS := 10000; PEER_TIMEOUT := 15000; SCAN_PORT := 70000;
     BOOTSTRAP_TIMEOUT := 10000; PEER_CACHE_ENABLED := true;
     PEER_CACHE_PATH := "./peers.json"; PEER_CACHE_MAX_AGE := 86400;
     BOOTSTRAP_PEER_IP := None |}.

Definition disk (f : file) : world :=
  {| fs := fun p => if String.eqb p "./peers.json" then f else Missing;
     fs_writable := fun _ => true;
     fs_torn := fun _ => None;
     clock_reads := 0; connections := 0; events := [] |}.

Definition peer (address : string) (seen : Z) : json :=
  JObj [("ip", JStr address); ("port", JNum 3000); ("id", JNull);
        ("lastSeen", JNum seen)]%string.

Definition p1 : json := peer "203.0.113.7" 1699999990000.


(** A cache file whose format tag is 2, not the 1 [savePeerCache]
    writes. *)
Definition version2 : json :=
  JObj [("version", JNum 2); ("timestamp", JNum 1699999995000);
        ("peers", JArr [p1])]%string.

(** A cache file as [savePeerCache] writes it, with the peer [p1]. *)
Definition version1 : json := Bootstrap.snapshot 1699999995000 [p1].

(** A cache file whose one entry has an address and no port. *)
Definition portless : json :=
  JArr [JObj [("ip", JStr "203.0.113.7");
              ("lastSeen", JNum 1699999990000)]%string].

(** A disk without space: a write fails after the file was opened and
    truncated, with nothing written. *)
Definition full_disk (f : file) : world :=
  {| fs := fun p => if String.eqb p "./peers.json" then f else Missing;
     fs_writable := fun _ => false;
     fs_torn := fun _ => Some EmptyString;
     clock_reads := 0; connections := 0; events := [] |}.

(** [bootstrapPeers], [scanIPv4Space] with the enumerator above. *)
Definition bootstrapPeers (rt : runtime) (cfg : constants) :=
  Bootstrap.bootstrapPeers rt cfg Feistel.generator
    Feistel.createFeistelGenerator next render.

Definition scanIPv4Space (rt : runtime) (cfg : constants) :=
  Bootstrap.scanIPv4Space rt cfg Feistel.generator
    Feistel.createFeistelGenerator next render.

(** The maximum ages below are whole numbers of seconds, for which the
    arithmetic of inexact quotients is not consulted. *)
Definition whole_seconds_only (ms : Z) (maxAge : Q) : bool := false.

(** A directory of three peers seen 5 s, 20 s and 61 s before the time
    100000. *)
Definition entry (seen : Z) : Directory.PeerData :=
  {| Directory.seq := 1; Directory.lastSeen := seen;
     Directory.key := None; Directory.ip := None; Directory.port := None |}.

Definition three_peers : list (string * Directory.PeerData) :=
  [("a"%string, entry 95000); ("b"%string, entry 80000);
   ("c"%string, entry 39000)].

Definition three : Directory.PeerManager string :=
  {| Directory.seenPeers := three_peers; Directory.mySeq := 0 |}.

(** A directory with the single peer ["a"], announced with sequence
    number 10 at time 1000. *)
Definition one_peer : Directory.PeerManager string :=
  snd (Directory.addOrUpdatePeer string string_dec "a"%string 10 None 1000
         (Directory.create string)).

(** A second peer recorded without asking [canAcceptPeer]. *)
Definition two_ungated : Directory.PeerManager string :=
  snd (Directory.addOrUpdatePeer string string_dec "b"%string 1 None 2000
         one_peer).

(** Elements of a cache array: one with a key in hexadecimal, one whose
    key is a number. *)
Definition cached (id : string) (k : Directory.key_field)
  : Directory.CachedPeer string :=
  {| Directory.c_id := id; Directory.c_seq := Some 4;
     Directory.c_lastSeen := None; Directory.c_ip := None;
     Directory.c_port := None; Directory.c_key := Some k |}.

Definition keyed : Directory.CachedPeer string :=
  cached "a" (Directory.KeyHex "0aff").

Definition numeric_key : Directory.CachedPeer string :=
  cached "b" Directory.KeyInvalid.

End Samples.

(* ===================================================================== *)
(** * Properties of the address-space enumerator                         *)
(* ===================================================================== *)

Module FeistelFacts.
Import Feistel.

Lemma half_high_bits x n : half x -> 16 <= n -> Z.testbit x n = false.
Proof.
  intros Hx Hn. unfold half in Hx.
  rewrite <- (Z.mod_small x (2 ^ 16)) by lia.
  apply Z.mod_pow2_bits_high. lia.
Qed.

Lemma mask_bits n : 0 <= n -> Z.testbit MASK16 n = (n <? 16).
Proof.
  intros Hn. change MASK16 with (Z.ones 16).
  destruct (Z.ltb_spec n 16).
  - apply Z.ones_spec_low. lia.
  - apply Z.ones_spec_high. lia.
Qed.

Lemma masked_half x : half (Z.land x MASK16).
Proof.
  unfold half. change MASK16 with (Z.ones 16).
  rewrite Z.land_ones by lia. apply Z.mod_pos_bound. lia.
Qed.

(** Mixing the same value in twice gives the half back. *)
Lemma mask_xor_cancel L f :
  half L -> Z.land (Z.lxor (Z.land (Z.lxor L f) MASK16) f) MASK16 = L.
Proof.
  intros HL. apply Z.bits_inj'. intros n Hn.
  rewrite !Z.land_spec, !Z.lxor_spec, !Z.land_spec, !Z.lxor_spec, mask_bits
    by lia.
  destruct (Z.ltb_spec n 16).
  - destruct (Z.testbit L n), (Z.testbit f n); reflexivity.
  - rewrite (half_high_bits L n) by assumption.
    rewrite !Bool.andb_false_r. reflexivity.
Qed.

Lemma join_split x : 0 <= x < SPACE -> join (split x) = x.
Proof.
  intros Hx. unfold join, split. cbn [fst snd].
  apply Z.bits_inj'. intros n Hn.
  rewrite Z.lor_spec, Z.shiftl_spec, !Z.land_spec by lia.
  rewrite (mask_bits n) by lia.
  destruct (Z.ltb_spec n 16).
  - rewrite (Z.testbit_neg_r _ (n - 16)) by lia. cbn.
    apply Bool.andb_true_r.
  - rewrite Z.shiftr_spec, mask_bits by lia.
    replace (n - 16 + 16) with n by lia.
    rewrite Bool.andb_false_r, Bool.orb_false_r.
    destruct (Z.ltb_spec (n - 16) 16).
    + apply Bool.andb_true_r.
    + rewrite Bool.andb_false_r. symmetry.
      rewrite <- (Z.mod_small x (2 ^ 32)) by (unfold SPACE in Hx; lia).
      apply Z.mod_pow2_bits_high. lia.
Qed.

Lemma split_join L R : half L -> half R -> split (join (L, R)) = (L, R).
Proof.
  intros HL HR. unfold join, split. cbn [fst snd]. f_equal.
  - apply Z.bits_inj'. intros n Hn.
    rewrite Z.land_spec, Z.shiftr_spec, Z.lor_spec, Z.shiftl_spec, mask_bits
      by lia.
    replace (n + 16 - 16) with n by lia.
    rewrite (half_high_bits R (n + 16)) by (assumption || lia).
    rewrite Bool.orb_false_r.
    destruct (Z.ltb_spec n 16).
    + apply Bool.andb_true_r.
    + rewrite (half_high_bits L n) by assumption. reflexivity.
  - apply Z.bits_inj'. intros n Hn.
    rewrite Z.land_spec, Z.lor_spec, Z.shiftl_spec, mask_bits by lia.
    destruct (Z.ltb_spec n 16).
    + rewrite (Z.testbit_neg_r _ (n - 16)) by lia. cbn.
      apply Bool.andb_true_r.
    + rewrite (half_high_bits R n) by assumption.
      rewrite Bool.orb_false_r. apply Bool.andb_false_r.
Qed.

Lemma join_sum L R : half L -> half R -> join (L, R) = L * 65536 + R.
Proof.
  intros HL HR. unfold join. cbn [fst snd].
  assert (Hdisj : Z.land (Z.shiftl L 16) R = 0).
  { apply Z.bits_inj'. intros n Hn.
    rewrite Z.land_spec, Z.shiftl_spec, Z.bits_0 by lia.
    destruct (Z.ltb_spec n 16).
    - rewrite Z.testbit_neg_r by lia. reflexivity.
    - rewrite (half_high_bits R n) by assumption. apply Bool.andb_false_r. }
  rewrite <- Z.lxor_lor, <- Z.add_nocarry_lxor by assumption.
  rewrite Z.shiftl_mul_pow2 by lia. reflexivity.
Qed.

Section Network.

Variable F : Z -> nat -> Z -> Z.
Variable rounds : nat.

Lemma split_halves x : halves (split x).
Proof. split; apply masked_half. Qed.

Lemma join_range p : halves p -> 0 <= join p < SPACE.
Proof.
  destruct p as [L R]. intros [HL HR]. rewrite join_sum by assumption.
  unfold half, SPACE in *. cbn [fst snd] in *. lia.
Qed.

Lemma split_join_halves p : halves p -> split (join p) = p.
Proof. destruct p. intros [? ?]. apply split_join; assumption. Qed.

Lemma round_halves seed r p : halves p -> halves (round F seed r p).
Proof.
  destruct p as [L R]. intros [_ HR].
  split; cbn; [assumption | apply masked_half].
Qed.

Lemma unround_halves seed r p : halves p -> halves (unround F seed r p).
Proof.
  destruct p as [L R]. intros [HL _].
  split; cbn; [apply masked_half | assumption].
Qed.

Lemma unround_round seed r p :
  halves p -> unround F seed r (round F seed r p) = p.
Proof.
  destruct p as [L R]. intros [HL _]. cbn in *.
  rewrite mask_xor_cancel by assumption. reflexivity.
Qed.

Lemma round_unround seed r p :
  halves p -> round F seed r (unround F seed r p) = p.
Proof.
  destruct p as [L R]. intros [_ HR]. cbn in *.
  rewrite mask_xor_cancel by assumption. reflexivity.
Qed.

Lemma run_rounds_halves seed rs :
  forall p, halves p -> halves (run_rounds F seed rs p).
Proof.
  induction rs as [| r rs IH]; intros p Hp; cbn; [assumption |].
  apply IH, round_halves, Hp.
Qed.

Lemma run_unrounds_halves seed rs :
  forall p, halves p -> halves (run_unrounds F seed rs p).
Proof.
  induction rs as [| r rs IH]; intros p Hp; cbn; [assumption |].
  apply IH, unround_halves, Hp.
Qed.

Lemma run_unrounds_app seed rs1 rs2 p :
  run_unrounds F seed (rs1 ++ rs2) p
  = run_unrounds F seed rs2 (run_unrounds F seed rs1 p).
Proof.
  revert p. induction rs1 as [| r rs1 IH]; intros p; cbn;
    [reflexivity | apply IH].
Qed.

(** Undoing the rounds in the opposite order undoes them. *)
Lemma run_unrounds_rounds seed rs :
  forall p, halves p ->
  run_unrounds F seed (rev rs) (run_rounds F seed rs p) = p.
Proof.
  induction rs as [| r rs IH]; intros p Hp; cbn; [reflexivity |].
  rewrite run_unrounds_app, IH by (apply round_halves, Hp).
  cbn. apply unround_round, Hp.
Qed.

Lemma run_rounds_unrounds seed rs :
  forall p, halves p ->
  run_rounds F seed rs (run_unrounds F seed (rev rs) p) = p.
Proof.
  induction rs as [| r rs IH]; intros p Hp; cbn; [reflexivity |].
  rewrite run_unrounds_app. cbn.
  rewrite round_unround by (apply run_unrounds_halves, Hp).
  apply IH, Hp.
Qed.

Lemma encrypt_range seed x : 0 <= encrypt F rounds seed x < SPACE.
Proof. apply join_range, run_rounds_halves, split_halves. Qed.

Lemma decrypt_range seed y : 0 <= decrypt F rounds seed y < SPACE.
Proof. apply join_range, run_unrounds_halves, split_halves. Qed.

Lemma decrypt_encrypt seed x :
  0 <= x < SPACE -> decrypt F rounds seed (encrypt F rounds seed x) = x.
Proof.
  intros Hx. unfold decrypt, encrypt.
  rewrite split_join_halves by (apply run_rounds_halves, split_halves).
  rewrite run_unrounds_rounds by apply split_halves.
  apply join_split, Hx.
Qed.

Lemma encrypt_decrypt seed y :
  0 <= y < SPACE -> encrypt F rounds seed (decrypt F rounds seed y) = y.
Proof.
  intros Hy. unfold decrypt, encrypt.
  rewrite split_join_halves by (apply run_unrounds_halves, split_halves).
  rewrite run_rounds_unrounds by apply split_halves.
  apply join_split, Hy.
Qed.

Lemma after_S seed n :
  after F rounds seed (S n) = snd (next F rounds (after F rounds seed n)).
Proof. reflexivity. Qed.

Lemma after_counter seed n :
  Z.of_nat n <= SPACE ->
  after F rounds seed n = {| g_seed := seed; g_counter := Z.of_nat n |}.
Proof.
  induction n as [| n IH]; intros Hn; [reflexivity |].
  rewrite after_S, IH by lia.
  unfold next. cbn [g_counter g_seed].
  destruct (Z.ltb_spec (Z.of_nat n) SPACE); [| lia].
  cbn [snd]. f_equal. lia.
Qed.

Lemma after_done seed n :
  SPACE <= Z.of_nat n ->
  after F rounds seed n = {| g_seed := seed; g_counter := SPACE |}.
Proof.
  induction n as [| n IH]; intros Hn; [unfold SPACE in Hn; lia |].
  rewrite after_S.
  destruct (Z.lt_ge_cases (Z.of_nat n) SPACE) as [E | E].
  - rewrite after_counter by lia. unfold next. cbn [g_counter g_seed].
    destruct (Z.ltb_spec (Z.of_nat n) SPACE); [| lia].
    cbn [snd]. f_equal. lia.
  - rewrite IH by lia. reflexivity.
Qed.

Lemma output_encrypt seed i :
  0 <= i < SPACE ->
  output F rounds seed (Z.to_nat i) = Some (encrypt F rounds seed i).
Proof.
  intros Hi. unfold output. rewrite after_counter by lia.
  unfold next. cbn [g_counter g_seed]. rewrite Z2Nat.id by lia.
  destruct (Z.ltb_spec i SPACE); [reflexivity | lia].
Qed.

Lemma output_done seed n :
  SPACE <= Z.of_nat n -> output F rounds seed n = None.
Proof.
  intros Hn. unfold output. rewrite after_done by assumption. reflexivity.
Qed.

(** C1.  For every round function, number of rounds and seed: the
    outputs of the enumerator at two counter values [0 <= i < j < 2^32]
    are 32-bit values and differ; every 32-bit value [y] is the output at
    exactly one counter value below [2^32]; and after [2^32] calls the
    enumerator yields nothing more. *)
Theorem enumerator_is_a_bijection seed i j y :
  0 <= i < j -> j < SPACE -> 0 <= y < SPACE ->
  (exists a b,
      output F rounds seed (Z.to_nat i) = Some a
      /\ output F rounds seed (Z.to_nat j) = Some b
      /\ 0 <= a < SPACE /\ 0 <= b < SPACE /\ a <> b)
  /\ (exists k,
        0 <= k < SPACE
        /\ output F rounds seed (Z.to_nat k) = Some y
        /\ forall k', 0 <= k' < SPACE ->
             output F rounds seed (Z.to_nat k') = Some y -> k' = k)
  /\ (forall n, SPACE <= Z.of_nat n -> output F rounds seed n = None).
Proof.
  intros Hij Hj Hy. split; [| split].
  - exists (encrypt F rounds seed i), (encrypt F rounds seed j).
    rewrite !output_encrypt by lia.
    repeat split; try apply encrypt_range.
    intros E. apply (f_equal (decrypt F rounds seed)) in E.
    rewrite !decrypt_encrypt in E by lia. lia.
  - exists (decrypt F rounds seed y).
    pose proof (decrypt_range seed y) as Hr.
    split; [exact Hr | split].
    + rewrite output_encrypt by exact Hr. f_equal.
      apply encrypt_decrypt, Hy.
    + intros k' Hk' E. rewrite output_encrypt in E by exact Hk'.
      injection E as E. rewrite <- E. symmetry.
      apply decrypt_encrypt, Hk'.
  - apply output_done.
Qed.

End Network.

Example ipv4ToString_renders_dotted_quad :
  ipv4ToString 3232235876 = "192.168.1.100"%string.
Proof. reflexivity. Qed.

Example first_addresses_of_seed_7 :
  List.map (encrypt mix 4 7) [0; 1; 2; 3]
  = [3180007592; 1973334296; 2104830834; 667673134].
Proof. vm_compute. reflexivity. Qed.

Lemma enumerator_is_a_bijection_witness :
  (0 <= 0 < 1 /\ 1 < SPACE /\ 0 <= 3180007592 < SPACE)
  /\ (exists a b,
         output mix 4 7 (Z.to_nat 0) = Some a
         /\ output mix 4 7 (Z.to_nat 1) = Some b
         /\ 0 <= a < SPACE /\ 0 <= b < SPACE /\ a <> b)
  /\ (exists k,
        0 <= k < SPACE
        /\ output mix 4 7 (Z.to_nat k) = Some 3180007592
        /\ forall k', 0 <= k' < SPACE ->
             output mix 4 7 (Z.to_nat k') = Some 3180007592 -> k' = k)
  /\ (forall n, SPACE <= Z.of_nat n -> output mix 4 7 n = None).
Proof.
  assert (H : 0 <= 0 < 1 /\ 1 < SPACE /\ 0 <= 3180007592 < SPACE)
    by (unfold SPACE; lia).
  split; [exact H |].
  destruct H as [H1 [H2 H3]].
  exact (enumerator_is_a_bijection mix 4 7 0 1 3180007592 H1 H2 H3).
Defined.

End FeistelFacts.

(* ===================================================================== *)
(** * Properties of the peer directory                                   *)
(* ===================================================================== *)

Module DirectoryFacts.
Import Directory.

#[local] Set Warnings "-notation-for-abbreviation".
#[local] Set Default Proof Using "Type".

Lemma filter_twice {A} (f g : A -> bool) (l : list A) :
  filter g (filter f l) = filter (fun x => f x && g x) l.
Proof.
  induction l as [| a l IH]; cbn; [reflexivity |].
  destruct (f a); cbn; [destruct (g a) |]; congruence.
Qed.

Lemma filter_split_length {A} (f : A -> bool) (l : list A) :
  (List.length (filter (fun x => negb (f x)) l)
   + List.length (filter f l) = List.length l)%nat.
Proof.
  induction l as [| a l IH]; cbn; [reflexivity |].
  destruct (f a); cbn; lia.
Qed.

Section Manager.

Variable Id : Type.
Variable Id_eq_dec : forall a b : Id, {a = b} + {a <> b}.
Variable MAX_PEERS : Z.
Variable PEER_TIMEOUT : Z.
Variable double_quotient_exceeds : Z -> Q -> bool.

Local Notation Map_get := (Map_get Id Id_eq_dec).
Local Notation Map_has := (Map_has Id Id_eq_dec).
Local Notation Map_set := (Map_set Id Id_eq_dec).
Local Notation Map_delete := (Map_delete Id Id_eq_dec).
Local Notation keys := (keys Id).
Local Notation unique_ids := (unique_ids Id).
Local Notation condemned := (condemned Id Id_eq_dec).
Local Notation evict_loop := (evict_loop Id Id_eq_dec).
Local Notation addOrUpdatePeer := (addOrUpdatePeer Id Id_eq_dec).
Local Notation canAcceptPeer := (canAcceptPeer Id Id_eq_dec MAX_PEERS).
Local Notation getPeer := (getPeer Id Id_eq_dec).
Local Notation hasPeer := (hasPeer Id Id_eq_dec).
Local Notation removePeer := (removePeer Id Id_eq_dec).
Local Notation cleanupStalePeers := (cleanupStalePeers Id Id_eq_dec PEER_TIMEOUT).
Local Notation older_than := (older_than double_quotient_exceeds).
Local Notation prune := (prune Id Id_eq_dec double_quotient_exceeds).
Local Notation fromJSON := (fromJSON Id Id_eq_dec).
Local Notation reachable :=
  (reachable Id Id_eq_dec PEER_TIMEOUT double_quotient_exceeds).

(** ** The map *)

Lemma Map_get_set_same id d m : Map_get id (Map_set id d m) = Some d.
Proof.
  induction m as [| [k v] m IH]; cbn.
  - destruct (Id_eq_dec id id); congruence.
  - destruct (Id_eq_dec id k) as [E | E]; cbn.
    + destruct (Id_eq_dec id k); congruence.
    + destruct (Id_eq_dec id k); [contradiction | exact IH].
Qed.

Lemma Map_get_set_other id id' d m :
  id' <> id -> Map_get id' (Map_set id d m) = Map_get id' m.
Proof.
  intros Hne. induction m as [| [k v] m IH]; cbn.
  - destruct (Id_eq_dec id' id); [contradiction | reflexivity].
  - destruct (Id_eq_dec id k) as [E | E]; cbn.
    + subst k. destruct (Id_eq_dec id' id); [contradiction | reflexivity].
    + destruct (Id_eq_dec id' k); [reflexivity | exact IH].
Qed.

Lemma Map_get_none id m : Map_get id m = None <-> ~ In id (keys m).
Proof.
  clear double_quotient_exceeds MAX_PEERS.
  induction m as [| [k v] m IH]; cbn.
  - tauto.
  - destruct (Id_eq_dec id k) as [E | E].
    + subst. split; [discriminate | intros H; exfalso; apply H; now left].
    + rewrite IH.
      split; [intros H [H' | H']; [congruence | exact (H H')] | tauto].
Qed.

Lemma Map_has_in id m : Map_has id m = true <-> In id (keys m).
Proof.
  unfold Directory.Map_has. pose proof (Map_get_none id m) as H.
  destruct (Map_get id m).
  - split; [| reflexivity]. intros _.
    destruct (in_dec Id_eq_dec id (keys m)) as [Hin | Hn]; [exact Hin |].
    apply H in Hn. discriminate.
  - split; [discriminate |]. intros Hin. exfalso. apply (proj1 H); auto.
Qed.

Lemma keys_set_present id d m :
  In id (keys m) -> keys (Map_set id d m) = keys m.
Proof.
  clear double_quotient_exceeds MAX_PEERS.
  induction m as [| [k v] m IH]; cbn; [tauto |].
  intros Hin. destruct (Id_eq_dec id k) as [E | E]; cbn; [reflexivity |].
  f_equal. apply IH. destruct Hin as [H | H]; [congruence | exact H].
Qed.

Lemma keys_set_absent id d m :
  ~ In id (keys m) -> keys (Map_set id d m) = keys m ++ [id].
Proof.
  clear double_quotient_exceeds MAX_PEERS.
  induction m as [| [k v] m IH]; cbn; [reflexivity |].
  intros Hn. destruct (Id_eq_dec id k) as [E | E]; cbn.
  - exfalso. apply Hn. left. congruence.
  - f_equal. apply IH. tauto.
Qed.

Lemma size_keys m : Map_size Id m = Z.of_nat (List.length (keys m)).
Proof. unfold Map_size, Directory.keys. rewrite length_map. reflexivity. Qed.

Lemma keys_filter (f : Id * PeerData -> bool) (m : Map Id) :
  forall x, In x (keys (filter f m)) -> In x (keys m).
Proof.
  unfold Directory.keys. intros x Hx.
  apply in_map_iff in Hx as [e [He Hin]].
  apply filter_In in Hin as [Hin _]. apply in_map_iff. eauto.
Qed.

(** ** The invariant under the operations of the map *)

Lemma unique_set id d m : unique_ids m -> unique_ids (Map_set id d m).
Proof.
  clear double_quotient_exceeds MAX_PEERS.
  unfold Directory.unique_ids. intros Hm.
  destruct (in_dec Id_eq_dec id (keys m)) as [Hin | Hn].
  - rewrite keys_set_present by assumption. exact Hm.
  - rewrite keys_set_absent by assumption.
    apply NoDup_app; [exact Hm | constructor; [tauto | constructor] |].
    intros x Hx [E | []]. subst. contradiction.
Qed.

Lemma unique_filter (f : Id * PeerData -> bool) (m : Map Id) :
  unique_ids m -> unique_ids (filter f m).
Proof.
  unfold Directory.unique_ids.
  induction m as [| e m IH]; cbn; intros Hm; [constructor |].
  inversion Hm as [| ? ? Hn Hm']; subst.
  destruct (f e); cbn; [constructor |]; auto.
  intros Hin. apply Hn. eapply keys_filter, Hin.
Qed.

Lemma unique_at_most_one id m :
  unique_ids m ->
  (List.length
     (filter (fun e => if Id_eq_dec id (fst e) then true else false) m)
   <= 1)%nat.
Proof.
  unfold Directory.unique_ids.
  induction m as [| [k v] m IH]; cbn; intros Hm; [lia |].
  inversion Hm as [| ? ? Hn Hm']; subst.
  destruct (Id_eq_dec id k) as [E | E]; [| auto].
  subst k. cbn.
  assert (Hnone : filter
            (fun e => if Id_eq_dec id (fst e) then true else false) m = []).
  { clear -Hn. induction m as [| [k v] m IH]; cbn in *; [reflexivity |].
    destruct (Id_eq_dec id k) as [E | E].
    - exfalso. apply Hn. left. congruence.
    - apply IH. tauto. }
  rewrite Hnone. cbn. lia.
Qed.

Lemma Map_get_filter (keep : PeerData -> bool) m id :
  unique_ids m ->
  Map_get id (filter (fun e => keep (snd e)) m)
  = match Map_get id m with
    | Some d => if keep d then Some d else None
    | None => None
    end.
Proof.
  unfold Directory.unique_ids.
  induction m as [| [k v] m IH]; cbn; [reflexivity |].
  intros Hm. inversion Hm as [| ? ? Hn Hm']; subst.
  destruct (Id_eq_dec id k) as [E | E].
  - subst k. destruct (keep v) eqn:Hk; cbn.
    + destruct (Id_eq_dec id id); congruence.
    + apply Map_get_none. intros Hin. apply Hn. eapply keys_filter, Hin.
  - destruct (keep v); cbn;
      [destruct (Id_eq_dec id k); [contradiction |] |]; apply IH, Hm'.
Qed.

(** ** The eviction loop *)

(** Whatever the map, the loop over [l] deletes from it the entries whose
    key is the key of a stale entry of [l], and counts the stale entries
    of [l]. *)
Lemma evict_fold stale l :
  forall cur c,
  fold_left (evict_step Id Id_eq_dec stale) l (cur, c)
  = (filter (fun x => negb (condemned stale l x)) cur,
     c + Z.of_nat (List.length (filter (fun e => stale (snd e)) l))).
Proof.
  induction l as [| e l IH]; intros cur c; cbn [fold_left].
  - cbn. f_equal; [| lia].
    induction cur; cbn; congruence.
  - unfold evict_step at 2. cbn [fst snd].
    destruct (stale (snd e)) eqn:Hs.
    + rewrite IH. f_equal.
      * unfold Directory.Map_delete. rewrite filter_twice.
        apply filter_ext. intros x.
        unfold Directory.condemned. cbn [existsb fst snd].
        rewrite Hs. cbn.
        destruct (Id_eq_dec (fst e) (fst x)) as [E | E];
          destruct (Id_eq_dec (fst x) (fst e)); try reflexivity;
          exfalso; congruence.
      * cbn [filter]. rewrite Hs. cbn [List.length]. lia.
    + rewrite IH. f_equal.
      * apply filter_ext. intros x. unfold Directory.condemned.
        cbn. rewrite Hs. reflexivity.
      * cbn [filter]. rewrite Hs. reflexivity.
Qed.

(** With one entry per id, an entry is deleted exactly when it is stale
    itself. *)
Lemma condemned_unique stale m x :
  unique_ids m -> In x m -> condemned stale m x = stale (snd x).
Proof.
  clear double_quotient_exceeds MAX_PEERS.
  unfold Directory.unique_ids, Directory.condemned.
  induction m as [| e m IH]; cbn; [tauto |].
  intros Hm Hin. inversion Hm as [| ? ? Hn Hm']; subst.
  destruct Hin as [E | Hin].
  - subst e. destruct (Id_eq_dec (fst x) (fst x)); [| congruence].
    rewrite Bool.andb_true_r. destruct (stale (snd x)); [reflexivity |].
    cbn. apply Bool.not_true_is_false. intros Hex.
    apply existsb_exists in Hex as [e' [Hin' He']].
    apply Bool.andb_true_iff in He' as [_ He'].
    destruct (Id_eq_dec (fst e') (fst x)) as [E' |]; [| discriminate].
    apply Hn. rewrite <- E'. apply in_map, Hin'.
  - destruct (Id_eq_dec (fst e) (fst x)) as [E |].
    + exfalso. apply Hn. rewrite E. apply in_map, Hin.
    + rewrite Bool.andb_false_r. cbn. apply IH; assumption.
Qed.

Lemma evict_loop_filter stale m :
  unique_ids m ->
  evict_loop stale m
  = (filter (fun e => negb (stale (snd e))) m,
     Z.of_nat (List.length (filter (fun e => stale (snd e)) m))).
Proof.
  intros Hm. unfold Directory.evict_loop. rewrite evict_fold. f_equal.
  assert (H : forall l, (forall x, In x l -> In x m) ->
              filter (fun x => negb (condemned stale m x)) l
              = filter (fun e => negb (stale (snd e))) l).
  { induction l as [| a l IH]; intros Hl; cbn; [reflexivity |].
    rewrite condemned_unique by (auto; apply Hl; now left).
    rewrite IH by (intros; apply Hl; now right). reflexivity. }
  apply H. auto.
Qed.

Lemma evict_loop_unique stale m :
  unique_ids m -> unique_ids (fst (evict_loop stale m)).
Proof.
  intros Hm. unfold Directory.evict_loop. rewrite evict_fold. cbn [fst].
  apply unique_filter, Hm.
Qed.

(** What an eviction with the test [stale] leaves and returns. *)
Lemma evict_exact stale (pm : PeerManager Id) :
  unique_ids (seenPeers Id pm) ->
  let m := fst (evict_loop stale (seenPeers Id pm)) in
  let removed := snd (evict_loop stale (seenPeers Id pm)) in
  m = filter (fun e => negb (stale (snd e))) (seenPeers Id pm)
  /\ removed
     = Z.of_nat (List.length
                   (filter (fun e => stale (snd e)) (seenPeers Id pm)))
  /\ (forall id,
        Map_get id m
        = match Map_get id (seenPeers Id pm) with
          | Some d => if stale d then None else Some d
          | None => None
          end)
  /\ Map_size Id m = Map_size Id (seenPeers Id pm) - removed.
Proof.
  intros Hu. cbv zeta. rewrite evict_loop_filter by assumption.
  cbn [fst snd]. split; [reflexivity |]. split; [reflexivity |]. split.
  - intros id.
    rewrite (Map_get_filter (fun d => negb (stale d))) by assumption.
    destruct (Map_get id (seenPeers Id pm)) as [d |]; [| reflexivity].
    destruct (stale d); reflexivity.
  - unfold Map_size.
    pose proof (filter_split_length (fun e => stale (snd e))
                  (seenPeers Id pm)).
    lia.
Qed.

Lemma fromJSON_loop_unique clock data :
  forall i m,
  unique_ids m ->
  unique_ids (snd (fromJSON_loop Id Id_eq_dec clock i data m)).
Proof.
  induction data as [| [peer |] data IH]; intros i m Hm; cbn; auto.
  destruct (restored Id clock i peer); [| exact Hm].
  apply IH, unique_set, Hm.
Qed.


(** ** The operations of the class keep the invariant *)

Lemma operations_keep_unique (pm : PeerManager Id) :
  unique_ids (seenPeers Id pm) ->
  (forall id sq k now,
     unique_ids (seenPeers Id (snd (addOrUpdatePeer id sq k now pm))))
  /\ (forall id, unique_ids (seenPeers Id (snd (removePeer id pm))))
  /\ (forall now,
        unique_ids (seenPeers Id (snd (cleanupStalePeers now pm))))
  /\ (forall maxAge now,
        unique_ids (seenPeers Id (snd (prune maxAge now pm))))
  /\ (forall clock data,
        unique_ids (seenPeers Id (snd (fromJSON clock data pm)))).
Proof.
  intros Hu. repeat split.
  - intros. cbn. apply unique_set, Hu.
  - intros. cbn. apply unique_filter, Hu.
  - intros now. unfold Directory.cleanupStalePeers.
    pose proof (evict_loop_unique (stale_after_timeout PEER_TIMEOUT now)
                  _ Hu) as H.
    destruct (evict_loop _ _). exact H.
  - intros maxAge now. unfold Directory.prune.
    pose proof (evict_loop_unique (older_than maxAge now) _ Hu) as H.
    destruct (evict_loop _ _). exact H.
  - intros clock [l |]; cbn; [| exact Hu].
    pose proof (fromJSON_loop_unique clock l 0%nat _ Hu) as H.
    destruct (fromJSON_loop _ _ _ _ _ _). exact H.
Qed.

Lemma reachable_unique pm : reachable pm -> unique_ids (seenPeers Id pm).
Proof.
  induction 1 as [| id sq k now pm _ IH | id pm _ IH | now pm _ IH
                  | maxAge now pm _ IH | clock data pm _ IH | pm _ IH].
  - constructor.
  - apply (operations_keep_unique pm IH).
  - apply (operations_keep_unique pm IH).
  - apply (operations_keep_unique pm IH).
  - apply (operations_keep_unique pm IH).
  - apply (operations_keep_unique pm IH).
  - exact IH.
Qed.

(** ** The statements about the directory *)

(** C2, as the code has it.  [canAcceptPeer(id)] is true exactly when
    [id] is in the directory or the number of tracked peers is below
    [MAX_PEERS].  An id that is not in the directory is refused exactly
    when the count has reached or passed the ceiling, which, for a count
    that does not exceed it, is when the count equals it.
    [addOrUpdatePeer] of an id that is in the directory stores the update
    whatever the count: it returns [wasNew = false], the record is the
    new one and the count is unchanged. *)
Theorem canAcceptPeer_admission_control id (pm : PeerManager Id) :
  (canAcceptPeer id pm = true
   <-> hasPeer id pm = true \/ size Id pm < MAX_PEERS)
  /\ (hasPeer id pm = false ->
      (canAcceptPeer id pm = false <-> MAX_PEERS <= size Id pm))
  /\ (hasPeer id pm = false -> size Id pm <= MAX_PEERS ->
      (canAcceptPeer id pm = false <-> size Id pm = MAX_PEERS))
  /\ (hasPeer id pm = true ->
      forall sq k now,
        fst (addOrUpdatePeer id sq k now pm) = false
        /\ getPeer id (snd (addOrUpdatePeer id sq k now pm))
           = Some {| seq := sq; lastSeen := now; key := k;
                     ip := None; port := None |}
        /\ size Id (snd (addOrUpdatePeer id sq k now pm)) = size Id pm).
Proof.
  unfold Directory.canAcceptPeer, Directory.hasPeer, Directory.size.
  repeat split.
  - destruct (Map_has id (seenPeers Id pm)); [now left |].
    intros H. right. apply Z.ltb_lt, H.
  - destruct (Map_has id (seenPeers Id pm)); [reflexivity |].
    intros [H | H]; [discriminate | apply Z.ltb_lt, H].
  - rewrite H. intros Hc. apply Z.ltb_ge, Hc.
  - rewrite H. intros Hc. apply Z.ltb_ge, Hc.
  - rewrite H. intros Hc. apply Z.ltb_ge in Hc. lia.
  - rewrite H. intros Hc. apply Z.ltb_ge. lia.
  - cbn. unfold Directory.Map_has in H.
    destruct (Map_get id (seenPeers Id pm)); [reflexivity | discriminate].
  - cbn. apply Map_get_set_same.
  - cbn. rewrite !size_keys, keys_set_present; [reflexivity |].
    apply Map_has_in, H.
Qed.


(** C7.  Every directory the methods of [PeerManager] produce from a
    fresh one holds at most one record per id.  On a directory with that
    property each of [addOrUpdatePeer], [removePeer],
    [cleanupStalePeers], [prune] and [fromJSON] gives a directory with
    it again; the entries with a given id number at most one; and
    [addOrUpdatePeer] of an id that is present leaves the ids as they
    are, in their order, and puts the new record in the place of the
    old one. *)
Theorem directory_ids_stay_unique (pm : PeerManager Id) :
  (reachable pm -> unique_ids (seenPeers Id pm))
  /\ (unique_ids (seenPeers Id pm) ->
      (forall id sq k now,
         unique_ids (seenPeers Id (snd (addOrUpdatePeer id sq k now pm))))
      /\ (forall id, unique_ids (seenPeers Id (snd (removePeer id pm))))
      /\ (forall now,
            unique_ids (seenPeers Id (snd (cleanupStalePeers now pm))))
      /\ (forall maxAge now,
            unique_ids (seenPeers Id (snd (prune maxAge now pm))))
      /\ (forall clock data,
            unique_ids (seenPeers Id (snd (fromJSON clock data pm))))
      /\ (forall id,
            (List.length
               (filter (fun e => if Id_eq_dec id (fst e) then true else false)
                  (seenPeers Id pm)) <= 1)%nat)
      /\ (forall id sq k now,
            hasPeer id pm = true ->
            keys (seenPeers Id (snd (addOrUpdatePeer id sq k now pm)))
            = keys (seenPeers Id pm)
            /\ getPeer id (snd (addOrUpdatePeer id sq k now pm))
               = Some {| seq := sq; lastSeen := now; key := k;
                         ip := None; port := None |})).
Proof.
  split; [apply reachable_unique |].
  intros Hu.
  destruct (operations_keep_unique pm Hu) as [H1 [H2 [H3 [H4 H5]]]].
  repeat split; auto.
  - intros id. apply unique_at_most_one, Hu.
  - cbn. apply keys_set_present, Map_has_in, H.
  - cbn. apply Map_get_set_same.
Qed.

(** C10.  [addOrUpdatePeer(id, seq, key)] stores, for every [seq] and
    whatever the directory held for [id] (a larger sequence number
    included), the record with the given [seq] and [key] and with
    [lastSeen] set to the current time; the result [wasNew] only tells
    whether the id was absent, the other ids keep their records, and the
    own sequence counter is untouched. *)
Theorem addOrUpdatePeer_overwrites id sq k now (pm : PeerManager Id) :
  getPeer id (snd (addOrUpdatePeer id sq k now pm))
  = Some {| seq := sq; lastSeen := now; key := k;
            ip := None; port := None |}
  /\ fst (addOrUpdatePeer id sq k now pm) = negb (hasPeer id pm)
  /\ (forall id', id' <> id ->
        getPeer id' (snd (addOrUpdatePeer id sq k now pm)) = getPeer id' pm)
  /\ mySeq Id (snd (addOrUpdatePeer id sq k now pm)) = mySeq Id pm.
Proof.
  unfold Directory.getPeer, Directory.hasPeer, Directory.Map_has. cbn.
  repeat split.
  - apply Map_get_set_same.
  - destruct (Map_get id (seenPeers Id pm)); reflexivity.
  - intros id' Hne. apply Map_get_set_other, Hne.
Qed.

End Manager.

(** ** The statements on concrete directories *)

(** C2 as the specification words it fails: a new id is refused also
    when the count is not equal to the capacity.  With a capacity of 1,
    two peers recorded by [addOrUpdatePeer], which does not ask
    [canAcceptPeer], make a count of 2, and a third id is refused. *)
Lemma refused_beyond_capacity :
  reachable string string_dec 15000 Samples.whole_seconds_only
    Samples.two_ungated
  /\ hasPeer string string_dec "c"%string Samples.two_ungated = false
  /\ canAcceptPeer string string_dec 1 "c"%string Samples.two_ungated = false
  /\ size string Samples.two_ungated = 2
  /\ size string Samples.two_ungated <> 1.
Proof.
  split; [| repeat split; discriminate].
  unfold Samples.two_ungated, Samples.one_peer.
  apply reach_addOrUpdatePeer, reach_addOrUpdatePeer, reach_create.
Qed.

Lemma canAcceptPeer_admission_control_witness :
  canAcceptPeer string string_dec 1 "b"%string Samples.one_peer = false
  /\ canAcceptPeer string string_dec 1 "a"%string Samples.one_peer = true
  /\ fst (addOrUpdatePeer string string_dec "a"%string 11 None 2000 Samples.one_peer)
     = false.
Proof.
  pose proof (canAcceptPeer_admission_control string string_dec 1 "b"%string Samples.one_peer)
    as [_ [_ [Hb _]]].
  pose proof (canAcceptPeer_admission_control string string_dec 1 "a"%string Samples.one_peer)
    as [Ha [_ [_ Hu]]].
  split; [| split].
  - apply Hb; [reflexivity | cbn; lia | reflexivity].
  - apply Ha. left. reflexivity.
  - apply (Hu eq_refl 11 None 2000).
Defined.

Example default_constants :
  Constants.MAX_PEERS Constants.defaults = 10000
  /\ Constants.PEER_TIMEOUT Constants.defaults = 15000
  /\ Constants.PEER_CACHE_MAX_AGE Constants.defaults = 86400
  /\ Constants.PEER_CACHE_ENABLED Constants.defaults = false
  /\ Constants.BOOTSTRAP_PEER_IP Constants.defaults = None.
Proof. repeat split. Qed.

Example hex_decode_examples :
  Hex.decode "0aFf10" = [10; 255; 16]%N
  /\ Hex.decode "12zz34" = [18]%N
  /\ Hex.decode "abc" = [171]%N.
Proof. repeat split. Qed.

(** [fromJSON] on two entries for one id and a [null] entry: the second
    entry replaces the first and the call throws at the [null]. *)
Example fromJSON_example :
  let entry sq :=
    Some {| c_id := "a"%string; c_seq := Some sq; c_lastSeen := None;
            c_ip := None; c_port := None;
            c_key := Some (KeyHex "ff") |} in
  let r := fromJSON string string_dec (fun _ => 7)
             (Some [entry 1; entry 2; None; entry 3])
             (create string) in
  fst r = false
  /\ seenPeers string (snd r)
     = [("a"%string,
         {| seq := 2; lastSeen := 7; key := Some [255%N];
            ip := None; port := None |})].
Proof. repeat split. Qed.

Lemma three_unique : unique_ids string Samples.three_peers.
Proof.
  unfold unique_ids, keys. cbn.
  repeat constructor; cbn; intuition discriminate.
Qed.


Lemma directory_ids_stay_unique_witness :
  unique_ids string (seenPeers string Samples.one_peer)
  /\ keys string
       (seenPeers string
          (snd (addOrUpdatePeer string string_dec "a"%string 3 None 2000 Samples.one_peer)))
     = ["a"%string].
Proof.
  pose proof (directory_ids_stay_unique string string_dec 15000
                Samples.whole_seconds_only Samples.one_peer)
    as [Hr Hk].
  assert (Hu : unique_ids string (seenPeers string Samples.one_peer)).
  { apply Hr. unfold Samples.one_peer. apply reach_addOrUpdatePeer, reach_create. }
  split; [exact Hu |].
  destruct (Hk Hu) as [_ [_ [_ [_ [_ [_ Hover]]]]]].
  destruct (Hover "a"%string 3 None 2000 eq_refl) as [Hkeys _].
  rewrite Hkeys. reflexivity.
Defined.

Lemma addOrUpdatePeer_overwrites_witness :
  option_map seq (getPeer string string_dec "a"%string Samples.one_peer) = Some 10
  /\ option_map seq
       (getPeer string string_dec "a"%string
          (snd (addOrUpdatePeer string string_dec "a"%string 3 None 2000 Samples.one_peer)))
     = Some 3
  /\ option_map lastSeen
       (getPeer string string_dec "a"%string
          (snd (addOrUpdatePeer string string_dec "a"%string 3 None 2000 Samples.one_peer)))
     = Some 2000.
Proof.
  pose proof (addOrUpdatePeer_overwrites string string_dec "a"%string 3 None
                2000 Samples.one_peer) as [H _].
  rewrite H. repeat split.
Defined.

End DirectoryFacts.

(* ===================================================================== *)
(** * Properties of the bootstrap module                                 *)
(* ===================================================================== *)

Module BootstrapFacts.
Import Js Runtime Constants Bootstrap.

#[local] Set Warnings "-notation-for-abbreviation".
#[local] Set Default Proof Using "Type".
#[local] Arguments createConnection_error : simpl never.
#[local] Arguments connection_outcome : simpl never.

(** ** Lists of events *)

Lemma forallb_In {A} (f : A -> bool) l x :
  forallb f l = true -> In x l -> f x = true.
Proof. intros H Hin. rewrite forallb_forall in H. apply H, Hin. Qed.

Lemma forallb_app_true {A} (f : A -> bool) l1 l2 :
  forallb f l1 = true -> forallb f l2 = true ->
  forallb f (l1 ++ l2) = true.
Proof. intros H1 H2. rewrite forallb_app, H1, H2. reflexivity. Qed.

Lemma forallb_weaken {A} (f g : A -> bool) l :
  (forall x, f x = true -> g x = true) ->
  forallb f l = true -> forallb g l = true.
Proof.
  intros Hfg. induction l as [| a l IH]; cbn; [reflexivity |].
  intros H. apply andb_true_iff in H as [Ha H].
  rewrite (Hfg a Ha), (IH H). reflexivity.
Qed.

Lemma forallb_rev_true {A} (f : A -> bool) l :
  forallb f l = true -> forallb f (rev l) = true.
Proof.
  intros H. apply forallb_forall. intros x Hin.
  apply in_rev in Hin. eapply forallb_In; eassumption.
Qed.

Lemma existsb_false_In {A} (f : A -> bool) l x :
  existsb f l = false -> In x l -> f x = false.
Proof.
  intros H Hin. destruct (f x) eqn:E; [| reflexivity].
  rewrite <- H. symmetry. apply existsb_exists. eauto.
Qed.

Lemma existsb_filter_false {A} (f g : A -> bool) l :
  existsb f l = false -> existsb f (filter g l) = false.
Proof.
  induction l as [| a l IH]; cbn; [reflexivity |].
  intros H. apply orb_false_iff in H as [Ha H].
  destruct (g a); cbn; rewrite ?Ha; auto.
Qed.

Lemma existsb_forallb_negb {A} (f : A -> bool) l :
  forallb (fun x => negb (f x)) l = true -> existsb f l = false.
Proof.
  induction l as [| a l IH]; cbn; [reflexivity |].
  intros H. apply andb_true_iff in H as [Ha H].
  apply negb_true_iff in Ha. rewrite Ha, (IH H). reflexivity.
Qed.


(** An element with a property none of the elements of [l1] has lies
    beyond [l1]. *)
Lemma beyond_prefix {A} (f : A -> bool) l1 :
  forall l2 pre e post,
  forallb (fun x => negb (f x)) l1 = true -> f e = true ->
  l1 ++ l2 = pre ++ e :: post ->
  exists k, pre = l1 ++ k /\ l2 = k ++ e :: post.
Proof.
  induction l1 as [| a l1 IH]; intros l2 pre e post Hl1 He Heq.
  - exists pre. split; [reflexivity | exact Heq].
  - cbn in Hl1. apply andb_true_iff in Hl1 as [Ha Hl1].
    destruct pre as [| b pre]; cbn in Heq.
    + injection Heq as -> _. rewrite He in Ha. discriminate.
    + injection Heq as -> Heq.
      destruct (IH l2 pre e post Hl1 He Heq) as [k [-> ->]].
      exists k. split; reflexivity.
Qed.

Lemma gen_calls_app l1 l2 : gen_calls (l1 ++ l2) = gen_calls l1 + gen_calls l2.
Proof. unfold gen_calls. rewrite filter_app, length_app. lia. Qed.

Lemma connects_app l1 l2 : connects (l1 ++ l2) = connects l1 + connects l2.
Proof. unfold connects. rewrite filter_app, length_app. lia. Qed.

Lemma connects_nonneg l : 0 <= connects l.
Proof. unfold connects. lia. Qed.

Lemma gen_calls_nonneg l : 0 <= gen_calls l.
Proof. unfold gen_calls. lia. Qed.

(** A connection attempt on a port that is a number throws exactly when
    the number is no port. *)
Lemma numeric_port_outcome rt k ip n t :
  (valid_port n
   /\ connection_outcome rt k ip (Some (JNum n)) t
      = Ok (connect rt k ip (Some (JNum n)) t))
  \/ (~ valid_port n
      /\ connection_outcome rt k ip (Some (JNum n)) t
         = Throw "ERR_SOCKET_BAD_PORT").
Proof.
  unfold valid_port, connection_outcome, createConnection_error.
  destruct (Z.leb_spec 0 n), (Z.leb_spec n 65535); cbn;
    [left | right | right | right]; split; try reflexivity; lia.
Qed.

(** The events a computation adds are found in front of those it
    started with. *)
Ltac prefix_of l base :=
  lazymatch l with
  | base => constr:(@nil event)
  | ?e :: ?l' => let p := prefix_of l' base in constr:(e :: p)
  end.

Ltac grown :=
  cbn [events];
  lazymatch goal with
  | |- ?l = ?n ++ ?base =>
      let p := prefix_of l base in unify n p; reflexivity
  end.

Ltac ran :=
  do 3 eexists; split; [reflexivity |];
  split; [grown |]; repeat split; try reflexivity.

Section Program.

Variable rt : runtime.
Variable cfg : constants.
Variable gen : Type.
Variable createFeistelGenerator : Z -> gen.
Variable generator_next : gen -> option Z * gen.
Variable ipv4ToString : option Z -> string.

Local Notation scan_body :=
  (scan_body rt cfg gen generator_next ipv4ToString).
Local Notation scan_loop :=
  (scan_loop rt cfg gen generator_next ipv4ToString).
Local Notation scanIPv4Space :=
  (scanIPv4Space rt cfg gen createFeistelGenerator generator_next
     ipv4ToString).
Local Notation bootstrapPeers :=
  (bootstrapPeers rt cfg gen createFeistelGenerator generator_next
     ipv4ToString).

(** ** The cache: [loadPeerCache] and [savePeerCache] *)

Lemma is_fresh_accepted now p w :
  rejected p = false ->
  is_fresh rt cfg now p w = (Ok (fresh rt cfg now p), w).
Proof.
  intros Hp. unfold is_fresh, fresh, get, get_prop, bind, ret, throw, ToNumber.
  destruct p as [| b | n | s | items | fields]; try discriminate Hp;
    try reflexivity.
  cbn in Hp |- *.
  destruct (lookup "lastSeen" fields) as [ls |]; [| reflexivity].
  cbn [truthy_value]. destruct (truthy ls); cbn in Hp |- *; [| reflexivity].
  rewrite Hp. destruct (number_of (StringToNumber rt) ls); reflexivity.
Qed.

Lemma is_fresh_rejected now p w :
  rejected p = true ->
  exists message, is_fresh rt cfg now p w = (Throw message, w).
Proof.
  intros Hp. unfold is_fresh, get, get_prop, bind, ret, throw, ToNumber.
  destruct p as [| b | n | s | items | fields]; try discriminate Hp.
  - eexists. reflexivity.
  - cbn in Hp |- *.
    destruct (lookup "lastSeen" fields) as [ls |]; [| discriminate Hp].
    apply andb_true_iff in Hp as [Ht Hu]. cbn [truthy_value].
    rewrite Ht, Hu. eexists. reflexivity.
Qed.

Lemma rejected_null p : rejected p = false -> is_null p = false.
Proof. destruct p; cbn; congruence. Qed.

Lemma accepted_not_null items :
  existsb rejected items = false -> existsb is_null items = false.
Proof.
  induction items as [| p items IH]; cbn; [reflexivity |].
  intros H. apply orb_false_iff in H as [Hp H].
  rewrite (rejected_null p Hp), (IH H). reflexivity.
Qed.

Lemma filter_fresh_ok now items w :
  existsb rejected items = false ->
  filter_fresh rt cfg now items w
  = (Ok (filter (fresh rt cfg now) items), w).
Proof.
  induction items as [| p items IH];
    cbn [existsb filter_fresh filter]; intros H.
  - reflexivity.
  - apply orb_false_iff in H as [Hp H].
    unfold bind at 1. rewrite is_fresh_accepted by assumption.
    unfold bind at 1. rewrite IH by assumption.
    unfold ret. destruct (fresh rt cfg now p); reflexivity.
Qed.

Lemma filter_fresh_throws now items w :
  existsb rejected items = true ->
  exists message, filter_fresh rt cfg now items w = (Throw message, w).
Proof.
  induction items as [| p items IH]; cbn [existsb filter_fresh]; intros H.
  - discriminate.
  - destruct (rejected p) eqn:Hp.
    + destruct (is_fresh_rejected now p w Hp) as [message Hm].
      exists message. unfold bind at 1. rewrite Hm. reflexivity.
    + cbn in H. destruct (IH H) as [message Hm]. exists message.
      unfold bind at 1. rewrite is_fresh_accepted by assumption.
      unfold bind at 1. rewrite Hm. reflexivity.
Qed.


(** What [loadPeerCache] returns, logs and touches, by the state of the
    file. *)
Lemma load_cases w :
  exists peers w' new,
    loadPeerCache rt cfg w = (Ok peers, w')
    /\ events w' = new ++ events w
    /\ fs w' = fs w /\ fs_writable w' = fs_writable w
    /\ fs_torn w' = fs_torn w
    /\ connections w' = connections w
    /\ forallb (from [CachePhase]) new = true
    /\ forallb (cache_access cfg) new = true
    /\ (clock_reads w' <= S (clock_reads w))%nat
    /\ existsb is_null peers = false
    /\ (PEER_CACHE_ENABLED cfg = false -> new = [Call CallLoadPeerCache])
    /\ if PEER_CACHE_ENABLED cfg
       then match fs w (PEER_CACHE_PATH cfg) with
            | Missing => peers = [] /\ existsb is_warning new = false
            | Unreadable => peers = [] /\ existsb is_warning new = true
            | Content (Raw _) => peers = [] /\ existsb is_warning new = true
            | Content (Json data) =>
                match cache_entries data with
                | None => peers = [] /\ existsb is_warning new = true
                | Some items =>
                    if existsb rejected items
                    then peers = [] /\ existsb is_warning new = true
                    else peers = filter (fresh rt cfg
                                           (clock rt (clock_reads w))) items
                         /\ existsb is_warning new = false
                end
            end
       else peers = [] /\ existsb is_warning new = false.
Proof.
  unfold loadPeerCache, bind, emit, try_catch, existsSync, readFileSync,
    console_log, console_warn, get, Date_now.
  destruct (PEER_CACHE_ENABLED cfg) eqn:Hen;
    [| cbn; ran; cbn [clock_reads]; lia].
  assert (Hacc : cache_access cfg (FsExists (PEER_CACHE_PATH cfg)) = true
                 /\ cache_access cfg (FsRead (PEER_CACHE_PATH cfg)) = true).
  { cbn. rewrite Hen, String.eqb_refl. split; reflexivity. }
  destruct Hacc as [Hacc1 Hacc2].
  cbn.
  destruct (fs w (PEER_CACHE_PATH cfg)) as [| | [raw | data]] eqn:Hfs;
    repeat (cbn; rewrite ?Hfs);
    try (ran; cbn [clock_reads forallb]; rewrite ?Hacc1, ?Hacc2;
         try reflexivity; try lia; discriminate).
  assert (Harr : forall items w0 (k : outcome (list json) * world -> Prop),
    (existsb rejected items = true -> forall m, k (Throw m, w0)) ->
    (existsb rejected items = false ->
     k (Ok (filter (fresh rt cfg (clock rt (clock_reads w))) items), w0)) ->
    k (filter_fresh rt cfg (clock rt (clock_reads w)) items w0)).
  { intros items w0 k Ht Ho. destruct (existsb rejected items) eqn:Hn.
    - destruct (filter_fresh_throws (clock rt (clock_reads w)) items w0 Hn)
        as [m ->]. auto.
    - rewrite filter_fresh_ok by assumption. auto. }
  destruct data as [| b | n | s | items | fields]; cbn;
    try (ran; cbn [clock_reads forallb]; rewrite ?Hacc1, ?Hacc2;
         try reflexivity; try lia; discriminate).
  - apply Harr; intros Hn; [intros m |]; cbn; rewrite Hn.
    + ran; cbn [clock_reads forallb]; rewrite ?Hacc1, ?Hacc2;
        try reflexivity; try lia; discriminate.
    + destruct (_ <? _); cbn; ran; cbn [clock_reads forallb];
        rewrite ?Hacc1, ?Hacc2; try reflexivity; try lia;
        try discriminate; apply existsb_filter_false, accepted_not_null, Hn.
  - destruct (truthy_value (lookup "version" fields)); cbn;
      [| ran; cbn [clock_reads forallb]; rewrite ?Hacc1, ?Hacc2;
         try reflexivity; try lia; discriminate].
    destruct (lookup "peers" fields)
      as [[| b | n | s | items | fields'] |]; cbn;
      try (ran; cbn [clock_reads forallb]; rewrite ?Hacc1, ?Hacc2;
           try reflexivity; try lia; discriminate).
    apply Harr; intros Hn; [intros m |]; cbn; rewrite Hn.
    + ran; cbn [clock_reads forallb]; rewrite ?Hacc1, ?Hacc2;
        try reflexivity; try lia; discriminate.
    + destruct (_ <? _); cbn; ran; cbn [clock_reads forallb];
        rewrite ?Hacc1, ?Hacc2; try reflexivity; try lia;
        try discriminate; apply existsb_filter_false, accepted_not_null, Hn.
Qed.

(** What [savePeerCache] does, by the configuration and the fate of the
    write. *)
Lemma save_cases peers w :
  exists w' new,
    savePeerCache rt cfg peers w = (Ok tt, w')
    /\ events w' = new ++ events w
    /\ fs_writable w' = fs_writable w /\ fs_torn w' = fs_torn w
    /\ connections w' = connections w
    /\ clock_reads w'
       = (if PEER_CACHE_ENABLED cfg then S (clock_reads w)
          else clock_reads w)
    /\ forallb (from [SavePhase]) new = true
    /\ forallb (cache_access cfg) new = true
    /\ (forall p, p <> PEER_CACHE_PATH cfg -> fs w' p = fs w p)
    /\ if PEER_CACHE_ENABLED cfg
       then
         if fs_writable w (PEER_CACHE_PATH cfg)
         then fs w' = write_file (PEER_CACHE_PATH cfg)
                        (Json (snapshot (clock rt (clock_reads w)) peers))
                        (fs w)
              /\ new = [Log (SavedPeers (len peers));
                        FsWrite (PEER_CACHE_PATH cfg)
                          (Json (snapshot (clock rt (clock_reads w)) peers));
                        Call (CallSavePeerCache peers)]
         else
           match fs_torn w (PEER_CACHE_PATH cfg) with
           | None =>
               fs w' = fs w
               /\ new = [Warn (SaveFailed "EACCES: permission denied");
                         Call (CallSavePeerCache peers)]
           | Some part =>
               fs w' = write_file (PEER_CACHE_PATH cfg) (Raw part) (fs w)
               /\ new = [Warn (SaveFailed "ENOSPC: no space left on device");
                         FsWrite (PEER_CACHE_PATH cfg) (Raw part);
                         Call (CallSavePeerCache peers)]
           end
       else fs w' = fs w /\ new = [Call (CallSavePeerCache peers)].
Proof.
  assert (Hother : forall t p, p <> PEER_CACHE_PATH cfg ->
            write_file (PEER_CACHE_PATH cfg) t (fs w) p = fs w p).
  { intros t p Hp. unfold write_file. apply String.eqb_neq in Hp.
    rewrite Hp. reflexivity. }
  unfold savePeerCache, bind, emit, try_catch, console_log, console_warn,
    Date_now, writeFileSync, JSON_stringify.
  fold (snapshot (clock rt (clock_reads w)) peers).
  destruct (PEER_CACHE_ENABLED cfg) eqn:Hen; cbn.
  - destruct (fs_writable w (PEER_CACHE_PATH cfg)); cbn;
      [| destruct (fs_torn w (PEER_CACHE_PATH cfg)) as [part |]; cbn];
      do 2 eexists; (split; [reflexivity |]); (split; [grown |]);
      do 5 (split; [reflexivity |]);
      cbn [forallb cache_access]; rewrite ?Hen, ?String.eqb_refl;
      (split; [reflexivity |]); cbn [fs]; split; auto.
  - do 2 eexists; (split; [reflexivity |]); (split; [grown |]);
      repeat split.
Qed.

Lemma write_file_same path t f : write_file path t f path = Content t.
Proof. unfold write_file. rewrite String.eqb_refl. reflexivity. Qed.

(** C5, as the code has it.  [loadPeerCache()] never throws: it always
    returns an array.  With the cache enabled the array is empty and
    nothing is warned when the file is missing; it is empty and a
    warning is logged when the file cannot be read or parsed, when the
    document holds no array of peers (an array itself, or the [peers] of
    an object with a truthy [version]), or when the filter throws on an
    entry of the array, be it [null] or one whose [lastSeen] does not
    convert to a number; otherwise the array holds the entries that are
    fresh, in their order, and nothing is warned.  The value of
    [version] is not compared with the format tag: [cache_entries] reads
    the peers of any truthy version.  With the cache disabled the array
    is empty. *)
Theorem loadPeerCache_never_throws w :
  exists peers w' new,
    loadPeerCache rt cfg w = (Ok peers, w')
    /\ events w' = new ++ events w
    /\ if PEER_CACHE_ENABLED cfg
       then match fs w (PEER_CACHE_PATH cfg) with
            | Missing => peers = [] /\ existsb is_warning new = false
            | Unreadable => peers = [] /\ existsb is_warning new = true
            | Content (Raw _) => peers = [] /\ existsb is_warning new = true
            | Content (Json data) =>
                match cache_entries data with
                | None => peers = [] /\ existsb is_warning new = true
                | Some items =>
                    if existsb rejected items
                    then peers = [] /\ existsb is_warning new = true
                    else peers = filter (fresh rt cfg
                                           (clock rt (clock_reads w))) items
                         /\ existsb is_warning new = false
                end
            end
       else peers = [] /\ existsb is_warning new = false.
Proof.
  destruct (load_cases w)
    as [peers [w' [new [H1 [H2 [_ [_ [_ [_ [_ [_ [_ [_ [_ H]]]]]]]]]]]]]].
  exists peers, w', new. auto.
Qed.


(** ** Cache replay: [retryCachedPeers] *)

Lemma get_prop_non_null p k w :
  is_null p = false -> get (Some p) k w = (Ok (prop p k), w).
Proof.
  intros Hp. unfold get, prop, get_prop, ret.
  destruct p; try discriminate; reflexivity.
Qed.

Lemma len_cons p l : len (p :: l) = len l + 1.
Proof. unfold len. cbn [List.length]. lia. Qed.

(** Only an object has a port to connect to: an attempt on an entry
    that is none throws. *)
Lemma replay_object k p c : replay rt k p = Ok c -> truthy p = true.
Proof.
  unfold replay, prop, connection_outcome.
  destruct p; cbn; try discriminate; reflexivity.
Qed.

Lemma cache_then_connection l :
  forallb (from [CachePhase]) l = true ->
  forallb (from [CachePhase; Connection]) l = true.
Proof.
  apply forallb_weaken. intros e. unfold from. cbn.
  destruct (origin_eqb (origin_of e) CachePhase); [reflexivity | discriminate].
Qed.

(** The loop over the cached peers, the attempts numbered from
    [connections w]: it ends with [null] when every peer was tried in
    vain, with the first peer that answers, or with the error of the
    first attempt that throws; the peers before were tried in vain. *)
Lemma retry_loop_cases cached :
  forall w,
  existsb is_null cached = false ->
  exists o w' new,
    retry_loop rt cached w = (o, w')
    /\ events w' = new ++ events w
    /\ fs w' = fs w /\ fs_writable w' = fs_writable w
    /\ fs_torn w' = fs_torn w
    /\ forallb (from [CachePhase; Connection]) new = true
    /\ forallb (cache_access cfg) new = true
    /\ match o with
       | Ok r =>
           forall ip port t,
             In (Connect ip port t true) new ->
             truthy r = true /\ ip = prop r "ip" /\ port = prop r "port"
       | Throw _ => existsb is_success new = false
       end
    /\ ((o = Ok JNull /\ In (Log AllUnreachable) new
         /\ connects new = len cached
         /\ forall j p, nth_error cached j = Some p ->
                        replay rt (connections w + j) p = Ok false)
        \/ (exists j r,
              o = Ok r /\ nth_error cached j = Some r
              /\ replay rt (connections w + j) r = Ok true
              /\ (forall i q, (i < j)%nat -> nth_error cached i = Some q ->
                              replay rt (connections w + i) q = Ok false)
              /\ connects new = Z.of_nat j + 1
              /\ In (Log (Reconnected (prop r "ip"))) new)
        \/ (exists j p message,
              o = Throw message /\ nth_error cached j = Some p
              /\ replay rt (connections w + j) p = Throw message
              /\ (forall i q, (i < j)%nat -> nth_error cached i = Some q ->
                              replay rt (connections w + i) q = Ok false)
              /\ connects new = Z.of_nat j
              /\ In (Log (TryingCached (prop p "ip") (prop p "port"))) new)).
Proof.
  induction cached as [| peer rest IH]; intros w Hn.
  - cbn. unfold bind, console_log, emit, ret.
    exists (Ok JNull). eexists. exists [Log AllUnreachable].
    split; [reflexivity |]. do 6 (split; [reflexivity |]).
    split; [intros ip port t [E | []]; discriminate E |]. left.
    split; [reflexivity |]. split; [now left |]. split; [reflexivity |].
    intros [| j] p E; discriminate E.
  - cbn [existsb] in Hn. apply orb_false_iff in Hn as [Hp Hn].
    cbn [retry_loop]. rewrite len_cons.
    unfold bind at 1. rewrite (get_prop_non_null peer "ip" w Hp).
    unfold bind at 1. rewrite (get_prop_non_null peer "port" w Hp).
    unfold bind, console_log, emit, tryConnectToPeer, ret.
    cbn [connections].
    destruct (connection_outcome rt (connections w) (prop peer "ip")
                (prop peer "port") 500) as [[|] | message] eqn:Hc.
    + exists (Ok peer). eexists.
      exists [Log (Reconnected (prop peer "ip"));
              Connect (prop peer "ip") (prop peer "port") 500 true;
              Log (TryingCached (prop peer "ip") (prop peer "port"))].
      split; [reflexivity |]. do 6 (split; [reflexivity |]).
      split.
      { intros ip port t [E | [E | [E | []]]]; try discriminate E.
        injection E as <- <- _.
        split; [exact (replay_object _ _ _ Hc) | split; reflexivity]. }
      right. left. exists 0%nat, peer.
      split; [reflexivity |]. split; [reflexivity |].
      unfold replay. rewrite Nat.add_0_r.
      split; [exact Hc |]. split; [intros i q Hi; lia |].
      split; [reflexivity | now left].
    + match goal with |- context [retry_loop rt rest ?w1] =>
        destruct (IH w1 Hn)
          as [o [w' [new [Hrun [Hev [Hfs [Hwr [Htn [Hcl [Hacc [Hs Hr]]]]]]]]]]]
      end.
      cbn [events connections fs fs_writable fs_torn] in Hev, Hfs, Hwr, Htn, Hr.
      set (nb := [Connect (prop peer "ip") (prop peer "port") 500 false;
                  Log (TryingCached (prop peer "ip") (prop peer "port"))])
        in *.
      exists o, w', (new ++ nb).
      split; [exact Hrun |].
      split; [rewrite Hev, <- app_assoc; reflexivity |].
      do 3 (split; [assumption |]).
      split; [apply forallb_app_true; [exact Hcl | reflexivity] |].
      split; [apply forallb_app_true; [exact Hacc | reflexivity] |].
      split.
      { destruct o as [r | m].
        - intros ip port t Hin.
          apply in_app_or in Hin as [Hin | [E | [E | []]]];
            [exact (Hs _ _ _ Hin) | discriminate E | discriminate E].
        - rewrite existsb_app, Hs. reflexivity. }
      rewrite connects_app. change (connects nb) with 1.
      assert (Hshift : forall j q,
                replay rt (S (connections w) + j) q
                = replay rt (connections w + S j) q)
        by (intros; rewrite Nat.add_succ_comm; reflexivity).
      assert (Hfirst : forall i,
                (forall i' q', (i' < i)%nat -> nth_error rest i' = Some q' ->
                               replay rt (S (connections w) + i') q' = Ok false)
                -> forall i' q', (i' < S i)%nat ->
                   nth_error (peer :: rest) i' = Some q' ->
                   replay rt (connections w + i') q' = Ok false).
      { intros i Hb [| i'] q' Hi E; cbn in E.
        - injection E as <-. unfold replay. rewrite Nat.add_0_r. exact Hc.
        - rewrite <- Hshift. apply Hb; [lia | exact E]. }
      destruct Hr as [[-> [Hin [Hcn Hall]]]
                     | [[j [r [-> [Hj [Hcj [Hbefore [Hcn Hin]]]]]]]
                       | [j [p [m [-> [Hj [Hcj [Hbefore [Hcn Hin]]]]]]]]]].
      * left. split; [reflexivity |].
        split; [apply in_or_app; now left |].
        split; [lia |].
        intros [| j] p E; cbn in E.
        -- injection E as <-. unfold replay. rewrite Nat.add_0_r. exact Hc.
        -- rewrite <- Hshift. apply Hall, E.
      * right. left. exists (S j), r. split; [reflexivity |].
        split; [exact Hj |]. rewrite <- Hshift. split; [exact Hcj |].
        split; [apply (Hfirst j Hbefore) |].
        split; [lia |]. apply in_or_app; now left.
      * right. right. exists (S j), p, m. split; [reflexivity |].
        split; [exact Hj |]. rewrite <- Hshift. split; [exact Hcj |].
        split; [apply (Hfirst j Hbefore) |].
        split; [lia |]. apply in_or_app; now left.
    + exists (Throw message). eexists.
      exists [Log (TryingCached (prop peer "ip") (prop peer "port"))].
      split; [reflexivity |]. do 7 (split; [reflexivity |]).
      right. right. exists 0%nat, peer, message.
      split; [reflexivity |]. split; [reflexivity |].
      unfold replay. rewrite Nat.add_0_r.
      split; [exact Hc |]. split; [intros i q Hi; lia |].
      split; [reflexivity | now left].
Qed.

(** [retryCachedPeers]: the peers it tries are those [loadPeerCache]
    returns, in their order. *)
Lemma retry_cases w :
  exists cached w1 o w' new,
    loadPeerCache rt cfg (snd (emit (Call CallRetryCachedPeers) w))
    = (Ok cached, w1)
    /\ retryCachedPeers rt cfg w = (o, w')
    /\ events w' = new ++ events w
    /\ fs w' = fs w /\ fs_writable w' = fs_writable w
    /\ fs_torn w' = fs_torn w
    /\ forallb (from [CachePhase; Connection]) new = true
    /\ forallb (cache_access cfg) new = true
    /\ existsb is_null cached = false
    /\ match o with
       | Ok r =>
           forall ip port t,
             In (Connect ip port t true) new ->
             truthy r = true /\ ip = prop r "ip" /\ port = prop r "port"
       | Throw _ => existsb is_success new = false
       end
    /\ ((o = Ok JNull /\ connects new = len cached
         /\ In (Log (if len cached =? 0 then NoCachedPeers
                     else AllUnreachable)) new
         /\ forall j p, nth_error cached j = Some p ->
                        replay rt (connections w + j) p = Ok false)
        \/ (exists j r,
              o = Ok r /\ nth_error cached j = Some r
              /\ replay rt (connections w + j) r = Ok true
              /\ (forall i q, (i < j)%nat -> nth_error cached i = Some q ->
                              replay rt (connections w + i) q = Ok false)
              /\ connects new = Z.of_nat j + 1
              /\ In (Log (Reconnected (prop r "ip"))) new)
        \/ (exists j p message,
              o = Throw message /\ nth_error cached j = Some p
              /\ replay rt (connections w + j) p = Throw message
              /\ (forall i q, (i < j)%nat -> nth_error cached i = Some q ->
                              replay rt (connections w + i) q = Ok false)
              /\ connects new = Z.of_nat j
              /\ In (Log (TryingCached (prop p "ip") (prop p "port"))) new)).
Proof.
  unfold retryCachedPeers. unfold bind at 1. cbn [emit snd].
  unfold bind at 1.
  match goal with |- context [loadPeerCache rt cfg ?w0] =>
    destruct (load_cases w0)
      as [peers [w1 [n1 [Hrun [Hev [Hfs [Hwr [Htn [Hcn [Hcl [Hacc [_ [Hnn _]]]]]]]]]]]]]
  end.
  rewrite Hrun.
  cbn [events connections fs fs_writable fs_torn] in Hev, Hcn, Hfs, Hwr, Htn.
  assert (Hns1 : forall ip port t c, ~ In (Connect ip port t c) n1).
  { intros ip port t c Hin. apply (forallb_In _ _ _ Hcl) in Hin.
    discriminate Hin. }
  assert (Hq1 : connects n1 = 0).
  { clear -Hcl. induction n1 as [| e n1 IH]; [reflexivity |].
    cbn [forallb] in Hcl. apply andb_true_iff in Hcl as [He Hcl].
    destruct e; try discriminate He; exact (IH Hcl). }
  apply cache_then_connection in Hcl.
  exists peers, w1.
  destruct (Z.eqb_spec (len peers) 0) as [Hlen | Hlen].
  - assert (Hpeers : peers = []).
    { destruct peers; [reflexivity |].
      rewrite len_cons in Hlen. unfold len in Hlen. lia. }
    subst peers.
    unfold bind, console_log, emit, ret.
    exists (Ok JNull). eexists.
    exists ([Log NoCachedPeers] ++ n1 ++ [Call CallRetryCachedPeers]).
    split; [reflexivity |]. split; [reflexivity |].
    split; [cbn; rewrite Hev, <- app_assoc; reflexivity |].
    do 3 (split; [assumption |]).
    split; [cbn [app forallb]; apply forallb_app_true;
            [exact Hcl | reflexivity] |].
    split; [cbn [app forallb cache_access];
            apply forallb_app_true; [exact Hacc | reflexivity] |].
    split; [reflexivity |].
    split.
    { intros ip port t Hin. exfalso.
      apply in_app_or in Hin as [[E | []] | Hin]; [discriminate E |].
      apply in_app_or in Hin as [Hin | [E | []]];
        [exact (Hns1 _ _ _ _ Hin) | discriminate E]. }
    left.
    split; [reflexivity |].
    split; [rewrite !connects_app, Hq1; reflexivity |].
    split; [now left |].
    intros [| j] p E; discriminate E.
  - unfold bind at 1. cbn [console_log emit].
    match goal with |- context [retry_loop rt peers ?w2] =>
      destruct (retry_loop_cases peers w2 Hnn)
        as [o [w' [n2 [Hrun2 [Hev2 [Hfs2 [Hwr2 [Htn2 [Hcl2 [Hacc2
             [Hs Hr]]]]]]]]]]]
    end.
    cbn [events connections fs fs_writable fs_torn] in Hev2, Hfs2, Hwr2, Htn2, Hr.
    rewrite Hcn in Hr.
    set (mid := [Log (Reconnecting (len peers))]
                  ++ n1 ++ [Call CallRetryCachedPeers]).
    assert (Hmid : connects mid = 0).
    { unfold mid. rewrite !connects_app, Hq1. reflexivity. }
    exists o, w', (n2 ++ mid).
    split; [reflexivity |]. split; [exact Hrun2 |].
    split; [unfold mid; rewrite Hev2, Hev, <- !app_assoc; reflexivity |].
    do 3 (split; [congruence |]).
    split; [apply forallb_app_true; [exact Hcl2 |];
            unfold mid; cbn [app forallb];
            apply forallb_app_true; [exact Hcl | reflexivity] |].
    split; [apply forallb_app_true; [exact Hacc2 |];
            unfold mid; cbn [app forallb cache_access];
            apply forallb_app_true; [exact Hacc | reflexivity] |].
    split; [exact Hnn |].
    assert (Hnm : forall ip port t, ~ In (Connect ip port t true) mid).
    { intros ip port t Hin.
      apply in_app_or in Hin as [[E | []] | Hin]; [discriminate E |].
      apply in_app_or in Hin as [Hin | [E | []]];
        [exact (Hns1 _ _ _ _ Hin) | discriminate E]. }
    split.
    { destruct o as [r | m].
      - intros ip port t Hin. apply in_app_or in Hin as [Hin | Hin];
          [exact (Hs _ _ _ Hin) | destruct (Hnm _ _ _ Hin)].
      - rewrite existsb_app, Hs. cbn [orb].
        destruct (existsb is_success mid) eqn:E; [| reflexivity].
        apply existsb_exists in E as [e [Hin He]].
        destruct e; try discriminate He. cbn in He. subst.
        destruct (Hnm _ _ _ Hin). }
    rewrite connects_app, Hmid, Z.add_0_r.
    destruct Hr as [[-> [Hin [Hc Hall]]]
                   | [[j [r [-> [Hj [Hcj [Hbefore [Hc Hin]]]]]]]
                     | [j [p [m [-> [Hj [Hcj [Hbefore [Hc Hin]]]]]]]]]].
    + left. split; [reflexivity |]. split; [exact Hc |].
      split.
      { destruct (Z.eqb_spec (len peers) 0) as [E | _]; [destruct (Hlen E) |].
        apply in_or_app. now left. }
      exact Hall.
    + right. left. exists j, r. repeat split; auto.
      apply in_or_app. now left.
    + right. right. exists j, p, m. repeat split; auto.
      apply in_or_app. now left.
Qed.

(** ** The scan: [scanIPv4Space] *)

(** One turn of the loop: it leaves on the deadline with [null], leaves
    with the peer found, throws with the connection attempt, or goes on
    with the counter raised by one after one call of the generator.  It
    attempts a connection only when the raised counter is a multiple of
    100, and only to an address the filter lets through. *)
Lemma scan_body_cases timeout start a g w :
  exists o w' new,
    scan_body timeout start a g w = (o, w')
    /\ events w' = new ++ events w
    /\ fs w' = fs w /\ fs_writable w' = fs_writable w
    /\ fs_torn w' = fs_torn w
    /\ Z.of_nat (connections w') = Z.of_nat (connections w) + connects new
    /\ forallb (from [ScanPhase; Connection]) new = true
    /\ forallb (is_scan_probe rt cfg) new = true
    /\ (clock rt (clock_reads w) - start > timeout ->
        o = Ok (Break JNull) /\ new = [Log (ScanTimeout a)])
    /\ match o with
       | Ok (Break r) =>
           (r = JNull /\ new = [Log (ScanTimeout a)]
            /\ clock rt (clock_reads w) - start > timeout)
           \/ (exists ip,
                 r = found cfg ip
                 /\ new = [Log (FoundPeer ip (SCAN_PORT cfg) (a + 1));
                           Connect (Some (JStr ip))
                             (Some (JNum (SCAN_PORT cfg))) 500 true;
                           GenNext (fst (generator_next g))]
                 /\ connect rt (connections w) (Some (JStr ip))
                      (Some (JNum (SCAN_PORT cfg))) 500 = true
                 /\ Z.rem (a + 1) 100 = 0)
       | Ok (Continue a' g') =>
           a' = a + 1 /\ gen_calls new = 1
           /\ existsb is_found new = false
           /\ existsb is_scan_timeout new = false
           /\ existsb is_success new = false
           /\ (connects new = 0
               \/ connects new = 1 /\ Z.rem (a + 1) 100 = 0)
       | Throw _ =>
           ~ valid_port (SCAN_PORT cfg)
           /\ gen_calls new = 1 /\ connects new = 0
           /\ existsb is_found new = false
           /\ existsb is_scan_timeout new = false
           /\ existsb is_success new = false
       end.
Proof.
  unfold Bootstrap.scan_body, bind, Date_now, console_log, emit,
    tryConnectToPeer, ret.
  cbn.
  destruct (_ >? timeout) eqn:Hto.
  - ran; try (cbn; lia). left. repeat split. lia.
  - assert (Hnot : clock rt (clock_reads w) - start > timeout ->
                   forall P : Prop, P) by (intros; exfalso; lia).
    destruct (generator_next g) as [address g'] eqn:Hg. cbn.
    destruct (shouldSkipAddress rt (ipv4ToString address)) eqn:Hskip; cbn.
    { ran; try (cbn; lia); intros H; apply (Hnot H). }
    destruct (Z.eqb_spec (Z.rem (a + 1) 100) 0) as [Hrem | Hrem]; cbn.
    2:{ ran; try (cbn; lia); intros H; apply (Hnot H). }
    assert (Hprobe : forall c,
              is_scan_probe rt cfg
                (Connect (Some (JStr (ipv4ToString address)))
                   (Some (JNum (SCAN_PORT cfg))) 500 c) = true).
    { intros c. cbn. rewrite Hskip, Z.eqb_refl. reflexivity. }
    destruct (numeric_port_outcome rt (connections w)
                (Some (JStr (ipv4ToString address))) (SCAN_PORT cfg) 500)
      as [[Hv ->] | [Hv ->]].
    2:{ ran; try (cbn; lia); try (intros H; apply (Hnot H)). exact Hv. }
    destruct (connect rt (connections w) _ _ 500) eqn:Hc; cbn.
    { ran; try (cbn; lia); try (intros H; apply (Hnot H)).
      - cbn [forallb]. rewrite Hprobe. reflexivity.
      - right. eexists. repeat split; assumption. }
    destruct (Z.rem (a + 1) 10000 =? 0); cbn;
      ran; try (cbn; lia); try (intros H; apply (Hnot H));
      cbn [forallb]; rewrite Hprobe; reflexivity.
Qed.

Lemma success_is_absent l ip port t :
  existsb is_success l = false -> ~ In (Connect ip port t true) l.
Proof.
  intros H Hin. apply (existsb_false_In _ _ _ H) in Hin. discriminate Hin.
Qed.

(** The loop from the counter [a]: it ends; it calls the generator at
    most [maxAttempts - a] times and attempts a connection at most as
    often as the counter passes a multiple of 100; a deadline it logs
    carries the counter reached and ends the scan with [null]; it ends
    with [null], with the peer found, whose connection is the only one
    made, or with the error of a connection attempt, which a port that
    is none throws; and a run that neither finds a peer nor meets the
    deadline nor throws calls the generator exactly [maxAttempts - a]
    times. *)
Lemma scan_loop_cases timeout start a g w :
  0 <= a <= maxAttempts ->
  exists o w' new,
    scan_loop timeout start a g w = (o, w')
    /\ events w' = new ++ events w
    /\ fs w' = fs w /\ fs_writable w' = fs_writable w
    /\ fs_torn w' = fs_torn w
    /\ Z.of_nat (connections w') = Z.of_nat (connections w) + connects new
    /\ forallb (from [ScanPhase; Connection]) new = true
    /\ forallb (is_scan_probe rt cfg) new = true
    /\ gen_calls new <= maxAttempts - a
    /\ connects new <= (a + gen_calls new) / 100 - a / 100
    /\ (forall n, In (Log (ScanTimeout n)) new ->
          o = Ok JNull /\ n = a + gen_calls new /\ n < maxAttempts)
    /\ (a < maxAttempts ->
        clock rt (clock_reads w) - start > timeout ->
        o = Ok JNull /\ new = [Log (ScanTimeout a)])
    /\ match o with
       | Ok r =>
           (r = JNull /\ existsb is_found new = false
            /\ existsb is_success new = false)
           \/ exists ip n,
                r = found cfg ip
                /\ In (Log (FoundPeer ip (SCAN_PORT cfg) n)) new
                /\ In (Connect (Some (JStr ip))
                         (Some (JNum (SCAN_PORT cfg))) 500 true) new
                /\ (forall ip' port' n',
                      In (Log (FoundPeer ip' port' n')) new ->
                      ip' = ip /\ port' = SCAN_PORT cfg)
                /\ (forall ip' port' t,
                      In (Connect ip' port' t true) new ->
                      ip' = Some (JStr ip)
                      /\ port' = Some (JNum (SCAN_PORT cfg)))
       | Throw _ =>
           ~ valid_port (SCAN_PORT cfg)
           /\ existsb is_found new = false
           /\ existsb is_success new = false
       end
    /\ (existsb is_found new = false ->
        existsb is_scan_timeout new = false ->
        (exists r, o = Ok r) ->
        gen_calls new = maxAttempts - a)
    /\ (never_connects rt -> within_deadline rt timeout start ->
        existsb is_found new = false
        /\ existsb is_scan_timeout new = false).
Proof.
  clear createFeistelGenerator.
  funelim (scan_loop timeout start a g w); intros Ha.
  - exists (Ok JNull), w, [].
    change (gen_calls []) with 0. change (connects []) with 0.
    rewrite !Z.add_0_r.
    split; [reflexivity |]. split; [reflexivity |].
    do 3 (split; [reflexivity |]). split; [reflexivity |].
    do 2 (split; [reflexivity |]). split; [lia |]. split; [lia |].
    split; [intros n0 []|]. split; [intros; lia |].
    split; [left; repeat split |]. split; [intros; lia |].
    intros _ _. split; reflexivity.
  - destruct (scan_body_cases timeout startTime attempts g w)
      as [o [w1 [new [Hrun [Hev [Hfs [Hwr [Htn [Hcn [Hcl [Hpr [Hdl Hs]]]]]]]]]]]].
    rewrite e in Hrun. injection Hrun as <- <-.
    exists (Ok result), w', new.
    split; [reflexivity |]. do 7 (split; [assumption |]).
    destruct Hs as [[-> [-> Hto]] | [ip [-> [-> [Hc Hrem]]]]].
    + change (gen_calls [Log (ScanTimeout attempts)]) with 0.
      change (connects [Log (ScanTimeout attempts)]) with 0.
      rewrite Z.add_0_r.
      split; [lia |]. split; [lia |]. split.
      { intros n [E | []]. injection E as <-. repeat split; lia. }
      split; [intros _ _; split; reflexivity |].
      split; [left; repeat split |].
      split; [intros _ Hn; discriminate Hn |].
      intros _ Hwd. specialize (Hwd (clock_reads w)). lia.
    + match goal with |- gen_calls ?l <= _ /\ _ =>
        change (gen_calls l) with 1; change (connects l) with 1 end.
      split; [lia |]. split.
      { rewrite Z.rem_mod_nonneg in Hrem by lia.
        Z.to_euclidean_division_equations. lia. }
      split; [intros n [E | [E | [E | []]]]; discriminate E |].
      split.
      { intros _ Hlate. destruct (Hdl Hlate) as [E _]. discriminate E. }
      split.
      { right. exists ip, (attempts + 1). split; [reflexivity |].
        split; [now left |]. split; [right; now left |]. split.
        - intros ip' port' n' [E | [E | [E | []]]]; try discriminate E.
          injection E as -> -> _. split; reflexivity.
        - intros ip' port' t [E | [E | [E | []]]]; try discriminate E.
          injection E as -> -> _. split; reflexivity. }
      split; [intros Hn; discriminate Hn |].
      intros Hnc _. rewrite Hnc in Hc. discriminate.
  - destruct (scan_body_cases timeout startTime attempts g w)
      as [o [w1 [nb [Hrun [Hev [Hfs [Hwr [Htn [Hcn [Hcl [Hpr [Hdl Hs]]]]]]]]]]]].
    rewrite e in Hrun. injection Hrun as <- <-.
    destruct Hs as [-> [Hg [Hnf [Hnt [Hns Hc]]]]].
    destruct (H ltac:(lia))
      as [o [w2 [new [Hrun [Hev2 [Hfs2 [Hwr2 [Htn2 [Hcn2 [Hcl2 [Hpr2
           [Hg2 [Hc2 [Hto2 [_ [Ho2 [Hex Hor]]]]]]]]]]]]]]]]].
    exists o, w2, (new ++ nb). split; [exact Hrun |].
    split; [rewrite Hev2, Hev, app_assoc; reflexivity |].
    do 3 (split; [congruence |]).
    rewrite connects_app, gen_calls_app, Hg.
    split; [lia |].
    split; [apply forallb_app_true; assumption |].
    split; [apply forallb_app_true; assumption |].
    split; [lia |].
    split.
    { pose proof (connects_nonneg new). pose proof (gen_calls_nonneg new).
      destruct Hc as [-> | [-> Hrem]].
      - assert (attempts / 100 <= (attempts + 1) / 100)
          by (apply Z.div_le_mono; lia).
        replace (attempts + (gen_calls new + 1))
          with (attempts + 1 + gen_calls new) by lia. lia.
      - rewrite Z.rem_mod_nonneg in Hrem by lia.
        replace (attempts + (gen_calls new + 1))
          with (attempts + 1 + gen_calls new) by lia.
        assert ((attempts + 1) / 100 = attempts / 100 + 1)
          by (Z.to_euclidean_division_equations; lia).
        lia. }
    split.
    { intros n Hin. apply in_app_or in Hin as [Hin | Hin].
      - destruct (Hto2 n Hin) as [-> [-> Hlt]]. repeat split; lia.
      - apply (existsb_false_In _ _ _ Hnt) in Hin. discriminate Hin. }
    split.
    { intros _ Hlate. destruct (Hdl Hlate) as [E _]. discriminate E. }
    rewrite !existsb_app, Hnf, Hnt, Hns, !orb_false_r.
    split; [| split].
    + destruct o as [r | m]; [| exact Ho2].
      destruct Ho2 as [[-> [Hnf2 Hns2]] | [ip [n [-> [Hin [Hcn' [Hu1 Hu2]]]]]]].
      * left. repeat split; assumption.
      * right. exists ip, n. split; [reflexivity |].
        split; [apply in_or_app; now left |].
        split; [apply in_or_app; now left |]. split.
        -- intros ip' port' n' Hin'. apply in_app_or in Hin' as [Hin' | Hin'].
           ++ eapply Hu1, Hin'.
           ++ apply (existsb_false_In _ _ _ Hnf) in Hin'. discriminate.
        -- intros ip' port' t Hin'. apply in_app_or in Hin' as [Hin' | Hin'].
           ++ eapply Hu2, Hin'.
           ++ destruct (success_is_absent _ _ _ _ Hns Hin').
    + intros H1 H2 Hv. rewrite (Hex H1 H2 Hv). lia.
    + exact Hor.
  - destruct (scan_body_cases timeout startTime attempts g w)
      as [o [w1 [nb [Hrun [Hev [Hfs [Hwr [Htn [Hcn [Hcl [Hpr [Hdl Hs]]]]]]]]]]]].
    rewrite e in Hrun. injection Hrun as <- <-.
    destruct Hs as [Hv [Hg [Hc [Hnf [Hnt Hns]]]]].
    exists (Throw message), w', nb.
    split; [reflexivity |]. do 7 (split; [assumption |]).
    rewrite Hg, Hc.
    split; [lia |].
    split; [assert (attempts / 100 <= (attempts + 1) / 100)
              by (apply Z.div_le_mono; lia); lia |].
    split.
    { intros n Hin. apply (existsb_false_In _ _ _ Hnt) in Hin.
      discriminate Hin. }
    split.
    { intros _ Hlate. destruct (Hdl Hlate) as [E _]. discriminate E. }
    split; [repeat split; assumption |].
    split; [intros _ _ [r E]; discriminate E |].
    intros _ _. split; assumption.
Qed.

Lemma scan_cases seed timeout w :
  exists o w' new,
    scanIPv4Space seed timeout w = (o, w')
    /\ events w' = new ++ events w
    /\ fs w' = fs w /\ fs_writable w' = fs_writable w
    /\ fs_torn w' = fs_torn w
    /\ Z.of_nat (connections w') = Z.of_nat (connections w) + connects new
    /\ forallb (from [ScanPhase; Connection]) new = true
    /\ forallb (is_scan_probe rt cfg) new = true
    /\ gen_calls new <= maxAttempts
    /\ 100 * connects new <= gen_calls new
    /\ (forall n, In (Log (ScanTimeout n)) new ->
          o = Ok JNull /\ n = gen_calls new /\ n < maxAttempts)
    /\ (clock rt (S (clock_reads w)) - clock rt (clock_reads w) > timeout ->
        o = Ok JNull /\ gen_calls new = 0 /\ connects new = 0
        /\ In (Log (ScanTimeout 0)) new)
    /\ match o with
       | Ok r =>
           (r = JNull /\ existsb is_found new = false
            /\ existsb is_success new = false)
           \/ exists ip n,
                r = found cfg ip
                /\ In (Log (FoundPeer ip (SCAN_PORT cfg) n)) new
                /\ In (Connect (Some (JStr ip))
                         (Some (JNum (SCAN_PORT cfg))) 500 true) new
                /\ (forall ip' port' n',
                      In (Log (FoundPeer ip' port' n')) new ->
                      ip' = ip /\ port' = SCAN_PORT cfg)
                /\ (forall ip' port' t,
                      In (Connect ip' port' t true) new ->
                      ip' = Some (JStr ip)
                      /\ port' = Some (JNum (SCAN_PORT cfg)))
       | Throw _ =>
           ~ valid_port (SCAN_PORT cfg)
           /\ existsb is_found new = false
           /\ existsb is_success new = false
       end
    /\ (existsb is_found new = false ->
        existsb is_scan_timeout new = false ->
        (exists r, o = Ok r) ->
        gen_calls new = maxAttempts)
    /\ (never_connects rt ->
        within_deadline rt timeout (clock rt (clock_reads w)) ->
        existsb is_found new = false
        /\ existsb is_scan_timeout new = false)
    /\ exists k, new = k ++ [Call (CallScanIPv4Space seed timeout)].
Proof.
  unfold Bootstrap.scanIPv4Space. unfold bind at 1. cbn [emit].
  unfold bind at 1. cbn [Date_now]. unfold bind at 1.
  cbn [console_log emit].
  match goal with
  | |- context [Bootstrap.scan_loop _ _ _ _ _ ?t ?s ?a ?g ?w1] =>
      destruct (scan_loop_cases t s a g w1 ltac:(unfold maxAttempts; lia))
        as [o [w' [new [Hrun [Hev [Hfs [Hwr [Htn [Hcn [Hcl [Hpr
             [Hg [Hc [Hto [Hdl [Ho [Hex Hor]]]]]]]]]]]]]]]]]
  end.
  cbn [events fs fs_writable fs_torn clock_reads connections] in *.
  set (pre := [Log (ScanStart (SCAN_PORT cfg) timeout);
               Call (CallScanIPv4Space seed timeout)]) in *.
  assert (Hpre : forall f,
             f (Log (ScanStart (SCAN_PORT cfg) timeout)) = false ->
             f (Call (CallScanIPv4Space seed timeout)) = false ->
             existsb f (new ++ pre) = existsb f new).
  { intros f H1 H2. rewrite existsb_app. cbn. rewrite H1, H2.
    apply orb_false_r. }
  assert (Hin_pre : forall e, In e (new ++ pre) ->
             In e new \/ e = Log (ScanStart (SCAN_PORT cfg) timeout)
             \/ e = Call (CallScanIPv4Space seed timeout)).
  { intros e Hin. apply in_app_or in Hin as [Hin | [E | [E | []]]]; auto. }
  assert (Hcalls : gen_calls (new ++ pre) = gen_calls new).
  { rewrite gen_calls_app. change (gen_calls pre) with 0. lia. }
  assert (Hconn : connects (new ++ pre) = connects new).
  { rewrite connects_app. change (connects pre) with 0. lia. }
  exists o, w', (new ++ pre).
  split; [exact Hrun |].
  split; [rewrite Hev, <- app_assoc; reflexivity |].
  do 3 (split; [assumption |]).
  rewrite !Hpre, Hcalls, Hconn by reflexivity.
  split; [exact Hcn |].
  split; [apply forallb_app_true; [exact Hcl | reflexivity] |].
  split; [apply forallb_app_true; [exact Hpr | reflexivity] |].
  split; [lia |].
  split.
  { pose proof (gen_calls_nonneg new). rewrite Z.add_0_l in Hc.
    change (0 / 100) with 0 in Hc.
    Z.to_euclidean_division_equations. lia. }
  split.
  { intros n Hin. apply Hin_pre in Hin as [Hin | [E | E]];
      try discriminate E.
    destruct (Hto n Hin) as [-> [-> Hlt]]. repeat split; lia. }
  split.
  { intros Hlate.
    destruct (Hdl ltac:(unfold maxAttempts; lia) Hlate) as [-> Hnew].
    rewrite Hnew. repeat split. apply in_or_app. left. now left. }
  split; [| split].
  - destruct o as [r | m]; [| exact Ho].
    destruct Ho as [Hnull | [ip [n [-> [Hin [Hcn' [Hu1 Hu2]]]]]]];
      [now left |].
    right. exists ip, n. split; [reflexivity |].
    split; [apply in_or_app; now left |].
    split; [apply in_or_app; now left |]. split.
    + intros ip' port' n' Hin'. apply Hin_pre in Hin' as [Hin' | [E | E]];
        try discriminate E. eapply Hu1, Hin'.
    + intros ip' port' t Hin'. apply Hin_pre in Hin' as [Hin' | [E | E]];
        try discriminate E. eapply Hu2, Hin'.
  - intros H1 H2 Hv. rewrite (Hex H1 H2 Hv). lia.
  - split; [exact Hor |].
    exists (new ++ [Log (ScanStart (SCAN_PORT cfg) timeout)]).
    unfold pre. rewrite <- app_assoc. reflexivity.
Qed.

(** C9.  For every seed, timeout, clock, network and enumerator, the
    run of [scanIPv4Space] ends, and by then it has called
    [generator.next()] at most 100000 times.  It ends by returning, or
    by throwing the error of a connection attempt, which happens only
    when [SCAN_PORT] is no port (a whole number from 0 to 65535).  A
    scan that returns without having found a peer returns [null], and
    when it has not met the deadline either, it has called the generator
    exactly 100000 times.  When [SCAN_PORT] is a port the scan returns,
    so that every run in which no connection succeeds and the clock
    stays within the timeout returns [null] after exactly 100000
    calls. *)
Theorem scanIPv4Space_is_bounded seed timeout w :
  exists o w' new,
    scanIPv4Space seed timeout w = (o, w')
    /\ events w' = new ++ events w
    /\ gen_calls new <= 100000
    /\ (forall r,
          o = Ok r -> existsb is_found new = false ->
          r = JNull
          /\ (existsb is_scan_timeout new = false ->
              gen_calls new = 100000))
    /\ (forall message, o = Throw message -> ~ valid_port (SCAN_PORT cfg))
    /\ (valid_port (SCAN_PORT cfg) ->
        (exists r, o = Ok r)
        /\ (existsb is_found new = false -> o = Ok JNull)
        /\ (existsb is_found new = false ->
            existsb is_scan_timeout new = false ->
            o = Ok JNull /\ gen_calls new = 100000)
        /\ (never_connects rt ->
            within_deadline rt timeout (clock rt (clock_reads w)) ->
            o = Ok JNull /\ gen_calls new = 100000
            /\ existsb is_scan_timeout new = false)).
Proof.
  destruct (scan_cases seed timeout w)
    as [o [w' [new [Hrun [Hev [_ [_ [_ [_ [_ [_ [Hc [_ [_ [_
         [Hr [Hex [Hor _]]]]]]]]]]]]]]]]]].
  change maxAttempts with 100000 in *.
  assert (Hnull : forall r, o = Ok r -> existsb is_found new = false ->
                            r = JNull).
  { intros r -> Hnf.
    destruct Hr as [[-> _] | [ip [n [_ [Hin _]]]]]; [reflexivity |].
    apply (existsb_false_In _ _ _ Hnf) in Hin. discriminate. }
  exists o, w', new.
  split; [exact Hrun |]. split; [exact Hev |]. split; [exact Hc |].
  split.
  { intros r Ho Hnf. split; [exact (Hnull r Ho Hnf) |].
    intros Hnt. apply (Hex Hnf Hnt). exists r. exact Ho. }
  split; [intros message ->; exact (proj1 Hr) |].
  intros Hv.
  assert (Hret : exists r, o = Ok r).
  { destruct o as [r | message]; [exists r; reflexivity |].
    destruct (proj1 Hr Hv). }
  assert (Hn : existsb is_found new = false -> o = Ok JNull).
  { intros Hnf. destruct Hret as [r ->].
    rewrite (Hnull r eq_refl Hnf). reflexivity. }
  split; [exact Hret |]. split; [exact Hn |].
  split.
  - intros H1 H2. split; [exact (Hn H1) | exact (Hex H1 H2 Hret)].
  - intros H1 H2. destruct (Hor H1 H2) as [H3 H4].
    split; [exact (Hn H3) |]. split; [exact (Hex H3 H4 Hret) | exact H4].
Qed.

(** ** The orchestrator: [bootstrapPeers] *)

(** The debug phase: what it returns and the events it adds, by the
    configuration and by the outcome of the one connection attempt. *)
Lemma debug_cases w :
  exists d w1 dbg,
    debug_phase rt cfg w = (d, w1)
    /\ events w1 = dbg ++ events w
    /\ fs w1 = fs w /\ fs_writable w1 = fs_writable w
    /\ fs_torn w1 = fs_torn w
    /\ forallb (from [DebugPhase; Connection]) dbg = true
    /\ (if debug_configured cfg
        then exists address,
               BOOTSTRAP_PEER_IP cfg = Some address
               /\ match connection_outcome rt (connections w)
                          (Some (JStr address))
                          (Some (JNum (SCAN_PORT cfg))) 2000 with
                  | Ok c =>
                      dbg = debug_trace cfg address c
                      /\ d = Ok (if c then Some (found cfg address)
                                 else None)
                  | Throw message =>
                      dbg = [Log (DebugAttempt address (SCAN_PORT cfg))]
                      /\ d = Throw message
                  end
        else dbg = [] /\ d = Ok None)
    /\ match d with
       | Ok (Some peer) =>
           exists address,
             BOOTSTRAP_PEER_IP cfg = Some address
             /\ valid_port (SCAN_PORT cfg)
             /\ connect rt (connections w) (Some (JStr address))
                  (Some (JNum (SCAN_PORT cfg))) 2000 = true
             /\ peer = found cfg address
             /\ dbg = debug_trace cfg address true
       | Ok None =>
           dbg = [] \/ exists address, dbg = debug_trace cfg address false
       | Throw _ =>
           ~ valid_port (SCAN_PORT cfg)
           /\ exists address,
                dbg = [Log (DebugAttempt address (SCAN_PORT cfg))]
       end.
Proof.
  unfold debug_phase, debug_configured.
  destruct (BOOTSTRAP_PEER_IP cfg) as [address |].
  2:{ exists (Ok None), w, []. repeat split. now left. }
  destruct (String.eqb address EmptyString); cbn [negb].
  { exists (Ok None), w, []. repeat split. now left. }
  unfold bind, console_log, emit, tryConnectToPeer, ret. cbn.
  destruct (numeric_port_outcome rt (connections w)
              (Some (JStr address)) (SCAN_PORT cfg) 2000)
    as [[Hv Ho] | [Hv Ho]]; rewrite Ho.
  - destruct (connect rt (connections w) _ _ 2000) eqn:Hc;
      do 3 eexists; (split; [reflexivity |]); (split; [grown |]);
      do 4 (split; [reflexivity |]);
      (split; [exists address; rewrite ?Ho; repeat split |]).
    + exists address. split; [reflexivity |]. split; [exact Hv |].
      split; [exact Hc |]. split; reflexivity.
    + right. exists address. reflexivity.
  - do 3 eexists; (split; [reflexivity |]); (split; [grown |]);
      do 4 (split; [reflexivity |]);
      (split; [exists address; rewrite ?Ho; repeat split |]).
    split; [exact Hv |]. exists address. reflexivity.
Qed.

(** The run of [bootstrapPeers], phase by phase: the world each phase
    ends in, the events it adds, and the outcome of the whole. *)
Lemma bootstrap_cases seed w :
  exists d w1 dbg,
    debug_phase rt cfg (started seed w) = (d, w1)
    /\ events w1 = dbg ++ start_trace seed ++ events w
    /\ fs w1 = fs w /\ fs_writable w1 = fs_writable w
    /\ fs_torn w1 = fs_torn w
    /\ forallb (from [DebugPhase; Connection]) dbg = true
    /\ (if debug_configured cfg
        then exists address,
               BOOTSTRAP_PEER_IP cfg = Some address
               /\ match connection_outcome rt (connections w)
                          (Some (JStr address))
                          (Some (JNum (SCAN_PORT cfg))) 2000 with
                  | Ok c =>
                      dbg = debug_trace cfg address c
                      /\ d = Ok (if c then Some (found cfg address)
                                 else None)
                  | Throw message =>
                      dbg = [Log (DebugAttempt address (SCAN_PORT cfg))]
                      /\ d = Throw message
                  end
        else dbg = [] /\ d = Ok None)
    /\ match d with
       | Ok (Some peer) =>
           exists address,
             BOOTSTRAP_PEER_IP cfg = Some address
             /\ valid_port (SCAN_PORT cfg)
             /\ connect rt (connections w) (Some (JStr address))
                  (Some (JNum (SCAN_PORT cfg))) 2000 = true
             /\ peer = found cfg address
             /\ dbg = debug_trace cfg address true
       | Ok None =>
           dbg = [] \/ exists address, dbg = debug_trace cfg address false
       | Throw _ =>
           ~ valid_port (SCAN_PORT cfg)
           /\ exists address,
                dbg = [Log (DebugAttempt address (SCAN_PORT cfg))]
       end
    /\ match d with
       | Throw message => bootstrapPeers seed w = (Throw message, w1)
       | Ok (Some peer) => bootstrapPeers seed w = (Ok peer, w1)
       | Ok None =>
           exists c w2 cch,
             retryCachedPeers rt cfg w1 = (c, w2)
             /\ events w2 = cch ++ events w1
             /\ fs w2 = fs w /\ fs_writable w2 = fs_writable w
             /\ fs_torn w2 = fs_torn w
             /\ forallb (from [CachePhase; Connection]) cch = true
             /\ forallb (cache_access cfg) cch = true
             /\ match c with
                | Ok r =>
                    forall ip port t,
                      In (Connect ip port t true) cch ->
                      truthy r = true
                      /\ ip = prop r "ip" /\ port = prop r "port"
                | Throw _ => existsb is_success cch = false
                end
             /\ match c with
                | Throw message =>
                    bootstrapPeers seed w = (Throw message, w2)
                | Ok c =>
                    if truthy c
                    then bootstrapPeers seed w
                         = (Ok c,
                            snd (emit (Log (UsingCached (prop c "ip"))) w2))
                    else
                      c = JNull
                      /\ exists s w3 scn,
                        scanIPv4Space seed (BOOTSTRAP_TIMEOUT cfg) w2
                        = (s, w3)
                        /\ events w3 = scn ++ events w2
                        /\ fs w3 = fs w /\ fs_writable w3 = fs_writable w
                        /\ fs_torn w3 = fs_torn w
                        /\ forallb (from [ScanPhase; Connection]) scn = true
                        /\ (exists k,
                              scn = k ++ [Call (CallScanIPv4Space seed
                                                  (BOOTSTRAP_TIMEOUT cfg))])
                        /\ match s with
                           | Throw message =>
                               ~ valid_port (SCAN_PORT cfg)
                               /\ existsb is_found scn = false
                               /\ existsb is_success scn = false
                               /\ bootstrapPeers seed w
                                  = (Throw message, w3)
                           | Ok s =>
                               (s = JNull
                                /\ existsb is_found scn = false
                                /\ existsb is_success scn = false
                                /\ bootstrapPeers seed w
                                   = (Ok JNull,
                                      snd (emit (Log FallbackToDHT) w3)))
                               \/ exists ip n w4 sv,
                                    let peer :=
                                      scanned_peer cfg ip
                                        (clock rt (clock_reads w3)) in
                                    s = found cfg ip
                                    /\ In (Log (FoundPeer ip (SCAN_PORT cfg)
                                                  n)) scn
                                    /\ In (Connect (Some (JStr ip))
                                             (Some (JNum (SCAN_PORT cfg)))
                                             500 true) scn
                                    /\ (forall ip' port' n',
                                          In (Log (FoundPeer ip' port' n'))
                                            scn ->
                                          ip' = ip /\ port' = SCAN_PORT cfg)
                                    /\ (forall ip' port' t,
                                          In (Connect ip' port' t true) scn ->
                                          ip' = Some (JStr ip)
                                          /\ port'
                                             = Some (JNum (SCAN_PORT cfg)))
                                    /\ events w4 = sv ++ events w3
                                    /\ forallb (from [SavePhase]) sv = true
                                    /\ forallb (cache_access cfg) sv = true
                                    /\ In (Call (CallSavePeerCache [peer])) sv
                                    /\ (forall p, p <> PEER_CACHE_PATH cfg ->
                                                  fs w4 p = fs w p)
                                    /\ (PEER_CACHE_ENABLED cfg = false ->
                                        fs w4 = fs w)
                                    /\ (PEER_CACHE_ENABLED cfg = true ->
                                        fs_writable w (PEER_CACHE_PATH cfg)
                                        = true ->
                                        fs w4
                                        = write_file (PEER_CACHE_PATH cfg)
                                            (Json
                                               (snapshot
                                                  (clock rt
                                                     (S (clock_reads w3)))
                                                  [peer]))
                                            (fs w))
                                    /\ bootstrapPeers seed w
                                       = (Ok peer,
                                          snd (emit (Log FoundViaScan) w4))
                           end
                end
       end.
Proof.
  destruct (debug_cases (started seed w))
    as [d [w1 [dbg [Hd [Hev1 [Hfs1 [Hwr1 [Htn1 [Hcld [Hcfg Hdbg]]]]]]]]]].
  exists d, w1, dbg. split; [exact Hd |].
  cbn [started emit snd events fs fs_writable fs_torn connections]
    in Hev1, Hfs1, Hwr1, Htn1, Hcfg, Hdbg.
  split; [exact Hev1 |]. do 4 (split; [assumption |]).
  split; [exact Hcfg |]. split; [exact Hdbg |].
  assert (Hboot : bootstrapPeers seed w =
     match d with
     | Throw message => (Throw message, w1)
     | Ok (Some peer) => (Ok peer, w1)
     | Ok None =>
         (cachedPeer <- retryCachedPeers rt cfg ;;
          if truthy cachedPeer
          then
            ip <- get (Some cachedPeer) "ip" ;;
            console_log (UsingCached ip) ;;;
            ret cachedPeer
          else
            scannedPeer <- scanIPv4Space seed (BOOTSTRAP_TIMEOUT cfg) ;;
            if truthy scannedPeer
            then
              now <- Date_now rt ;;
              savePeerCache rt cfg
                [JObj (set_field "lastSeen" (JNum now)
                         (set_field "id" JNull (own_fields scannedPeer)))] ;;;
              console_log FoundViaScan ;;;
              ret (JObj (set_field "lastSeen" (JNum now)
                           (set_field "id" JNull (own_fields scannedPeer))))
            else console_log FallbackToDHT ;;; ret JNull) w1
     end).
  { unfold Bootstrap.bootstrapPeers. unfold bind at 1. cbn [emit].
    unfold bind at 1. cbn [console_log emit]. unfold bind at 1.
    unfold started in Hd. cbn [emit snd] in Hd. rewrite Hd.
    destruct d as [[peer |] | message]; reflexivity. }
  destruct d as [[peer |] | message]; [exact Hboot | | exact Hboot].
  destruct (retry_cases w1)
    as [cached [w1' [c [w2 [cch [_ [Hc [Hev2 [Hfs2 [Hwr2 [Htn2
         [Hcl2 [Hacc2 [_ [Hsc Hdisj]]]]]]]]]]]]]]].
  exists c, w2, cch. split; [exact Hc |]. split; [exact Hev2 |].
  do 3 (split; [congruence |]). split; [exact Hcl2 |].
  split; [exact Hacc2 |]. split; [exact Hsc |].
  unfold bind at 1 in Hboot. rewrite Hc in Hboot.
  destruct c as [c | message]; [| exact Hboot].
  destruct (truthy c) eqn:Htc.
  - assert (Hnn : is_null c = false)
      by (destruct c; try reflexivity; discriminate).
    rewrite Hboot. unfold bind at 1.
    rewrite (get_prop_non_null c "ip" w2 Hnn). reflexivity.
  - split.
    { destruct Hdisj as [[E _] | [[j [r [E [_ [Hrep _]]]]]
                                 | [j [p [m [E _]]]]]];
        [injection E as ->; reflexivity | | discriminate E].
      injection E as ->. rewrite (replay_object _ _ _ Hrep) in Htc.
      discriminate Htc. }
    destruct (scan_cases seed (BOOTSTRAP_TIMEOUT cfg) w2)
      as [s [w3 [scn [Hs [Hev3 [Hfs3 [Hwr3 [Htn3 [_ [Hcl3 [_ [_ [_ [_ [_
           [Hr [_ [_ Hk]]]]]]]]]]]]]]]]]].
    exists s, w3, scn. split; [exact Hs |]. split; [exact Hev3 |].
    do 3 (split; [congruence |]). split; [exact Hcl3 |].
    split; [exact Hk |].
    unfold bind at 1 in Hboot. rewrite Hs in Hboot.
    destruct s as [s | message].
    2:{ destruct Hr as [Hv [Hnf Hns]]. repeat split; assumption. }
    destruct Hr as [[-> [Hnf Hns]]
                   | [ip [n [-> [Hin [Hcn [Hu1 Hu2]]]]]]].
    + left. repeat split; assumption.
    + right. unfold found in Hboot. cbn [truthy] in Hboot.
      unfold bind at 1 in Hboot. cbn [Date_now] in Hboot.
      cbn [own_fields set_field String.eqb Ascii.eqb Bool.eqb] in Hboot.
      unfold bind at 1 in Hboot.
      match type of Hboot with
      | context [savePeerCache rt cfg ?ps ?w3'] =>
          destruct (save_cases ps w3')
            as [w4 [sv [Hsv [Hev4 [Hwr4 [Htn4 [_ [_ [Hcl4 [Hacc4
                 [Hoth Hcase]]]]]]]]]]]
      end.
      cbn [events fs fs_writable fs_torn clock_reads]
        in Hev4, Hwr4, Hoth, Hcase.
      rewrite Hsv in Hboot.
      exists ip, n, w4, sv. cbv zeta.
      split; [reflexivity |]. do 4 (split; [assumption |]).
      split; [exact Hev4 |]. split; [exact Hcl4 |]. split; [exact Hacc4 |].
      rewrite Hwr3, Hwr2, Hwr1, Hfs3, Hfs2, Hfs1 in Hcase.
      split.
      { clear -Hcase.
        destruct (PEER_CACHE_ENABLED cfg);
          [destruct (fs_writable w (PEER_CACHE_PATH cfg));
             [| destruct (fs_torn w3 (PEER_CACHE_PATH cfg))] |];
          destruct Hcase as [_ ->]; cbn [In];
          first [now left | right; now left | right; right; now left]. }
      split.
      { intros p Hp. rewrite (Hoth p Hp), Hfs3, Hfs2, Hfs1. reflexivity. }
      split.
      { intros Hen. rewrite Hen in Hcase. exact (proj1 Hcase). }
      split; [| exact Hboot].
      intros Hen Hw. rewrite Hen, Hw in Hcase. exact (proj1 Hcase).
Qed.

(** An event among the earlier part of a run is among the run. *)
Lemma existsb_suffix {A} (f : A -> bool) l post e pre :
  l = post ++ e :: pre -> existsb f l = false -> existsb f pre = false.
Proof.
  intros -> H. rewrite existsb_app in H. cbn [existsb] in H.
  apply orb_false_iff in H as [_ H]. apply orb_false_iff in H as [_ H].
  exact H.
Qed.

Lemma no_event_of {A} (f : A -> bool) l pre e post :
  rev l = pre ++ e :: post -> f e = true -> existsb f l = false -> False.
Proof.
  intros Heq He Hl.
  assert (Hin : In e l) by (apply in_rev; rewrite Heq; apply in_elt).
  apply (existsb_false_In _ _ _ Hl) in Hin. congruence.
Qed.

(** The event that follows no event of a kind comes no later than the
    first event of the kind. *)
Lemma beyond_mark {A} (f : A -> bool) (a b post pre : list A) m e :
  a ++ m :: b = post ++ e :: pre ->
  f m = true -> existsb f pre = false -> e = m \/ In e b.
Proof.
  intros Heq Hm Hpre.
  apply app_eq_app in Heq as [l [[-> E] | [-> E]]].
  - destruct l as [| x l]; cbn in E.
    + injection E as -> _. now left.
    + injection E as _ ->. rewrite existsb_app in Hpre. cbn [existsb] in Hpre.
      rewrite Hm, orb_true_r in Hpre. discriminate Hpre.
  - destruct l as [| x l]; cbn in E.
    + injection E as -> _. now left.
    + injection E as _ ->. right. apply in_elt.
Qed.

(** Events of some origins are of no other origin. *)
Lemma class_excludes os os' l :
  (forall o, existsb (origin_eqb o) os = true ->
             existsb (origin_eqb o) os' = false) ->
  forallb (from os) l = true -> existsb (from os') l = false.
Proof.
  intros H Hcl. apply existsb_forallb_negb. revert Hcl.
  apply forallb_weaken. intros e He.
  unfold from in *. rewrite (H _ He). reflexivity.
Qed.

Lemma not_from_weaken os os' l :
  (forall o, existsb (origin_eqb o) os = true ->
             existsb (origin_eqb o) os' = false) ->
  forallb (from os) l = true ->
  forallb (fun e => negb (from os' e)) l = true.
Proof.
  intros H. apply forallb_weaken. intros e He.
  unfold from in *. rewrite (H _ He). reflexivity.
Qed.

Ltac apart := intros o; destruct o; cbn; congruence.

Ltac split_in H :=
  unfold debug_trace, start_trace in H;
  repeat match type of H with
         | In _ (_ ++ _) => apply in_app_or in H; destruct H as [H | H]
         | In _ (_ :: _) => destruct H as [H | H]
         | In _ [] => destruct H
         end.

(** An event of an origin that the events of a list do not have is not
    in the list. *)
Ltac not_from Hclass Hin :=
  apply (forallb_In _ _ _ Hclass) in Hin; cbn in Hin; discriminate Hin.

(** C4, as the code has it.  A connection that succeeds after the scan
    has started is one of the scan, to an address on [SCAN_PORT]: the
    debug phase and the replay of the cache have returned no peer, the
    scan returns the peer at that address, and [bootstrapPeers] returns
    it with [id: null] and [lastSeen] set to the reading of the clock
    made when the scan has returned; [savePeerCache] is called with the
    array of that one peer and (cache enabled, file writable) the cache
    file then holds it, stamped with the next reading of the clock.
    The success of the connection is enough.  [savePeerCache] is called
    in no other run: a connection that succeeds before the scan has
    started, in the debug phase or in the replay of the cache, makes
    [bootstrapPeers] return the peer connected to without any call of
    [savePeerCache] and with the files as they were.  A run ends by
    returning or by throwing the error of a connection attempt. *)
Theorem scan_success_is_cached seed w :
  exists o w' new,
    bootstrapPeers seed w = (o, w')
    /\ events w' = new ++ events w
    /\ (forall post pre ip port t,
          new = post ++ Connect ip port t true :: pre ->
          existsb (from [ScanPhase]) pre = true ->
          exists address w1 w2 w3,
            ip = Some (JStr address) /\ port = Some (JNum (SCAN_PORT cfg))
            /\ debug_phase rt cfg (started seed w) = (Ok None, w1)
            /\ retryCachedPeers rt cfg w1 = (Ok JNull, w2)
            /\ scanIPv4Space seed (BOOTSTRAP_TIMEOUT cfg) w2
               = (Ok (found cfg address), w3)
            /\ let r := scanned_peer cfg address (clock rt (clock_reads w3)) in
               o = Ok r
               /\ In (Call (CallSavePeerCache [r])) new
               /\ (PEER_CACHE_ENABLED cfg = true ->
                   fs_writable w (PEER_CACHE_PATH cfg) = true ->
                   fs w' (PEER_CACHE_PATH cfg)
                   = Content (Json (snapshot (clock rt (S (clock_reads w3)))
                                      [r]))))
    /\ (forall peers,
          In (Call (CallSavePeerCache peers)) new ->
          existsb is_found new = true /\ existsb is_success new = true)
    /\ (forall post pre ip port t,
          new = post ++ Connect ip port t true :: pre ->
          existsb (from [ScanPhase]) pre = false ->
          existsb (from [SavePhase]) new = false /\ fs w' = fs w
          /\ exists r, o = Ok r /\ prop r "ip" = ip /\ prop r "port" = port).
Proof.
  destruct (bootstrap_cases seed w)
    as [d [w1 [dbg [Hd [Hev1 [Hfs1 [Hwr1 [Htn1 [Hcld [_ [Hdbg Hrest]]]]]]]]]]].
  assert (Hdbg_scan : existsb (from [ScanPhase]) (dbg ++ start_trace seed)
                      = false).
  { rewrite existsb_app,
      (class_excludes [DebugPhase; Connection] [ScanPhase] dbg
         ltac:(apart) Hcld). reflexivity. }
  assert (Hdbg_save : existsb (from [SavePhase]) (dbg ++ start_trace seed)
                      = false).
  { rewrite existsb_app,
      (class_excludes [DebugPhase; Connection] [SavePhase] dbg
         ltac:(apart) Hcld). reflexivity. }
  destruct d as [[peer |] | message].
  { (* the debug peer answered *)
    destruct Hdbg as [address [_ [_ [_ [-> ->]]]]].
    exists (Ok (found cfg address)), w1,
      (debug_trace cfg address true ++ start_trace seed).
    split; [exact Hrest |]. split; [rewrite Hev1, app_assoc; reflexivity |].
    split; [| split].
    - intros post pre ip port t Heq Hpre. exfalso.
      apply (existsb_suffix (from [ScanPhase])) in Heq;
        [congruence | exact Hdbg_scan].
    - intros peers Hin. split_in Hin; discriminate Hin.
    - intros post pre ip port t Heq _.
      split; [exact Hdbg_save |]. split; [exact Hfs1 |].
      exists (found cfg address). split; [reflexivity |].
      assert (Hin : In (Connect ip port t true)
                      (debug_trace cfg address true ++ start_trace seed))
        by (rewrite Heq; apply in_elt).
      split_in Hin; try discriminate Hin.
      injection Hin as <- <- _. split; reflexivity. }
  2:{ (* the debug attempt threw *)
    destruct Hdbg as [_ [address ->]].
    eexists (Throw message), w1, (_ ++ start_trace seed).
    split; [exact Hrest |]. split; [rewrite Hev1, app_assoc; reflexivity |].
    split; [| split].
    - intros post pre ip port t Heq Hpre. exfalso.
      apply (existsb_suffix (from [ScanPhase])) in Heq;
        [congruence | exact Hdbg_scan].
    - intros peers Hin. split_in Hin; discriminate Hin.
    - intros post pre ip port t Heq _. exfalso.
      assert (Hin : In (Connect ip port t true)
                      ([Log (DebugAttempt address (SCAN_PORT cfg))]
                         ++ start_trace seed))
        by (rewrite Heq; apply in_elt).
      split_in Hin; discriminate Hin. }
  destruct Hrest
    as [c [w2 [cch [Hc [Hev2 [Hfs2 [Hwr2 [Htn2 [Hclc [_ [Hsc Hrest]]]]]]]]]]].
  assert (Hnd : forall ip port t,
            ~ In (Connect ip port t true) (dbg ++ start_trace seed)).
  { intros ip port t Hin.
    destruct Hdbg as [-> | [address ->]]; split_in Hin; discriminate Hin. }
  assert (Hcch_scan : existsb (from [ScanPhase])
                        (cch ++ dbg ++ start_trace seed) = false).
  { rewrite existsb_app, Hdbg_scan,
      (class_excludes [CachePhase; Connection] [ScanPhase] cch
         ltac:(apart) Hclc). reflexivity. }
  assert (Hcch_save : existsb (from [SavePhase])
                        (cch ++ dbg ++ start_trace seed) = false).
  { rewrite existsb_app, Hdbg_save,
      (class_excludes [CachePhase; Connection] [SavePhase] cch
         ltac:(apart) Hclc). reflexivity. }
  destruct c as [c | message].
  2:{ (* an attempt of the replay threw *)
    exists (Throw message), w2, (cch ++ dbg ++ start_trace seed).
    split; [exact Hrest |].
    split; [rewrite Hev2, Hev1, <- !app_assoc; reflexivity |].
    split; [| split].
    - intros post pre ip port t Heq Hpre. exfalso.
      apply (existsb_suffix (from [ScanPhase])) in Heq;
        [congruence | exact Hcch_scan].
    - intros peers Hin. apply (existsb_false_In _ _ _ Hcch_save) in Hin.
      discriminate Hin.
    - intros post pre ip port t Heq _. exfalso.
      assert (Hin : In (Connect ip port t true)
                      (cch ++ dbg ++ start_trace seed))
        by (rewrite Heq; apply in_elt).
      apply in_app_or in Hin as [Hin | Hin]; [| exact (Hnd _ _ _ Hin)].
      exact (success_is_absent _ _ _ _ Hsc Hin). }
  destruct (truthy c) eqn:Htc.
  { (* a cached peer answered *)
    exists (Ok c), (snd (emit (Log (UsingCached (prop c "ip"))) w2)),
      (Log (UsingCached (prop c "ip")) :: cch ++ dbg ++ start_trace seed).
    split; [exact Hrest |].
    split; [cbn; rewrite Hev2, Hev1, <- !app_assoc; reflexivity |].
    split; [| split].
    - intros post pre ip port t Heq Hpre. exfalso.
      apply (existsb_suffix (from [ScanPhase])) in Heq;
        [congruence | cbn [existsb]; rewrite Hcch_scan; reflexivity].
    - intros peers [E | Hin]; [discriminate E |].
      apply (existsb_false_In _ _ _ Hcch_save) in Hin. discriminate Hin.
    - intros post pre ip port t Heq _.
      split; [cbn [existsb]; rewrite Hcch_save; reflexivity |].
      split; [exact Hfs2 |].
      exists c. split; [reflexivity |].
      assert (Hin : In (Connect ip port t true)
                      (Log (UsingCached (prop c "ip"))
                       :: cch ++ dbg ++ start_trace seed))
        by (rewrite Heq; apply in_elt).
      destruct Hin as [E | Hin]; [discriminate E |].
      apply in_app_or in Hin as [Hin | Hin];
        [| destruct (Hnd _ _ _ Hin)].
      destruct (Hsc _ _ _ Hin) as [_ [-> ->]]. split; reflexivity. }
  (* the replay returned no peer: the scan runs *)
  assert (Hnc : forall ip port t,
            ~ In (Connect ip port t true) (cch ++ dbg ++ start_trace seed)).
  { intros ip port t Hin.
    apply in_app_or in Hin as [Hin | Hin]; [| exact (Hnd _ _ _ Hin)].
    destruct (Hsc _ _ _ Hin) as [Ht _]. congruence. }
  destruct Hrest
    as [-> [s [w3 [scn [Hs [Hev3 [Hfs3 [Hwr3 [Htn3 [Hcls [[k Hk]
         Hrest]]]]]]]]]]].
  assert (Hquiet : forall fin o' w',
            existsb is_success scn = false ->
            forallb (from [Orchestrator]) fin = true ->
            bootstrapPeers seed w = (o', w') ->
            events w' = (fin ++ scn ++ cch ++ dbg ++ start_trace seed)
                          ++ events w ->
            exists o w' new,
              bootstrapPeers seed w = (o, w')
              /\ events w' = new ++ events w
              /\ (forall ip port t, ~ In (Connect ip port t true) new)
              /\ (forall peers, ~ In (Call (CallSavePeerCache peers)) new)).
  { intros fin o' w' Hns Hfin Hboot Hev.
    exists o', w', (fin ++ scn ++ cch ++ dbg ++ start_trace seed).
    split; [exact Hboot |]. split; [exact Hev |]. split.
    - intros ip port t Hin. apply in_app_or in Hin as [Hin | Hin];
        [not_from Hfin Hin |].
      apply in_app_or in Hin as [Hin | Hin];
        [exact (success_is_absent _ _ _ _ Hns Hin) | exact (Hnc _ _ _ Hin)].
    - intros peers Hin. apply in_app_or in Hin as [Hin | Hin];
        [not_from Hfin Hin |].
      apply in_app_or in Hin as [Hin | Hin]; [not_from Hcls Hin |].
      apply (existsb_false_In _ _ _ Hcch_save) in Hin. discriminate Hin. }
  assert (Hnone : (exists o w' new,
              bootstrapPeers seed w = (o, w')
              /\ events w' = new ++ events w
              /\ (forall ip port t, ~ In (Connect ip port t true) new)
              /\ (forall peers, ~ In (Call (CallSavePeerCache peers)) new))
            -> exists o w' new,
                 bootstrapPeers seed w = (o, w')
                 /\ events w' = new ++ events w
                 /\ (forall post pre ip port t,
                       new = post ++ Connect ip port t true :: pre ->
                       existsb (from [ScanPhase]) pre = true ->
                       exists address w1 w2 w3,
                         ip = Some (JStr address)
                         /\ port = Some (JNum (SCAN_PORT cfg))
                         /\ debug_phase rt cfg (started seed w)
                            = (Ok None, w1)
                         /\ retryCachedPeers rt cfg w1 = (Ok JNull, w2)
                         /\ scanIPv4Space seed (BOOTSTRAP_TIMEOUT cfg) w2
                            = (Ok (found cfg address), w3)
                         /\ let r := scanned_peer cfg address
                                       (clock rt (clock_reads w3)) in
                            o = Ok r
                            /\ In (Call (CallSavePeerCache [r])) new
                            /\ (PEER_CACHE_ENABLED cfg = true ->
                                fs_writable w (PEER_CACHE_PATH cfg) = true ->
                                fs w' (PEER_CACHE_PATH cfg)
                                = Content
                                    (Json (snapshot
                                             (clock rt (S (clock_reads w3)))
                                             [r]))))
                 /\ (forall peers,
                       In (Call (CallSavePeerCache peers)) new ->
                       existsb is_found new = true
                       /\ existsb is_success new = true)
                 /\ (forall post pre ip port t,
                       new = post ++ Connect ip port t true :: pre ->
                       existsb (from [ScanPhase]) pre = false ->
                       existsb (from [SavePhase]) new = false
                       /\ fs w' = fs w
                       /\ exists r, o = Ok r /\ prop r "ip" = ip
                                    /\ prop r "port" = port)).
  { intros [o [w' [new [Hboot [Hev [Hnoc Hnos]]]]]].
    exists o, w', new. split; [exact Hboot |]. split; [exact Hev |].
    split; [| split].
    - intros post pre ip port t Heq _. exfalso.
      apply (Hnoc ip port t). rewrite Heq. apply in_elt.
    - intros peers Hin. destruct (Hnos _ Hin).
    - intros post pre ip port t Heq _. exfalso.
      apply (Hnoc ip port t). rewrite Heq. apply in_elt. }
  destruct s as [s | message].
  2:{ (* an attempt of the scan threw *)
    destruct Hrest as [_ [_ [Hns Hboot]]].
    apply Hnone. apply (Hquiet [] _ _ Hns eq_refl Hboot).
    cbn [app]. rewrite Hev3, Hev2, Hev1, <- !app_assoc. reflexivity. }
  destruct Hrest as [[-> [_ [Hns Hboot]]] | [ip [n [w4 [sv H]]]]].
  { (* the scan found nothing *)
    apply Hnone. apply (Hquiet [Log FallbackToDHT] _ _ Hns eq_refl Hboot).
    cbn. rewrite Hev3, Hev2, Hev1, <- !app_assoc. reflexivity. }
  (* the scan found a peer *)
  cbv zeta in H.
  destruct H as [-> [Hin [Hcn [Hu1 [Hu2 [Hev4 [Hclv [_ [Hsaved [_ [_
                  [Hon Hboot]]]]]]]]]]]].
  set (r := scanned_peer cfg ip (clock rt (clock_reads w3))) in *.
  exists (Ok r), (snd (emit (Log FoundViaScan) w4)),
    (Log FoundViaScan :: sv ++ scn ++ cch ++ dbg ++ start_trace seed).
  split; [exact Hboot |].
  split; [cbn; rewrite Hev4, Hev3, Hev2, Hev1, <- !app_assoc; reflexivity |].
  assert (Hwhere : forall ip' port' t,
            In (Connect ip' port' t true)
              (Log FoundViaScan :: sv ++ scn ++ cch ++ dbg
                 ++ start_trace seed) ->
            ip' = Some (JStr ip) /\ port' = Some (JNum (SCAN_PORT cfg))).
  { intros ip' port' t [E | Hin']; [discriminate E |].
    apply in_app_or in Hin' as [Hin' | Hin']; [not_from Hclv Hin' |].
    apply in_app_or in Hin' as [Hin' | Hin'];
      [exact (Hu2 _ _ _ Hin') | destruct (Hnc _ _ _ Hin')]. }
  split; [| split].
  - intros post pre ip' port' t Heq _.
    destruct (Hwhere ip' port' t) as [-> ->];
      [rewrite Heq; apply in_elt |].
    exists ip, w1, w2, w3.
    split; [reflexivity |]. split; [reflexivity |].
    split; [exact Hd |]. split; [exact Hc |]. split; [exact Hs |].
    cbv zeta. split; [reflexivity |].
    split; [right; apply in_or_app; left; exact Hsaved |].
    intros Hen Hw. cbn [emit snd fs]. rewrite (Hon Hen Hw).
    apply write_file_same.
  - intros peers _. cbn [existsb]. rewrite !existsb_app.
    assert (Hf : existsb is_found scn = true)
      by (apply existsb_exists; eexists; split; [exact Hin | reflexivity]).
    assert (Hg : existsb is_success scn = true)
      by (apply existsb_exists; eexists; split; [exact Hcn | reflexivity]).
    rewrite Hf, Hg. cbn. rewrite !orb_true_r. split; reflexivity.
  - intros post pre ip' port' t Heq Hpre. exfalso.
    assert (Heq' : (Log FoundViaScan :: sv ++ k)
                     ++ Call (CallScanIPv4Space seed (BOOTSTRAP_TIMEOUT cfg))
                     :: (cch ++ dbg ++ start_trace seed)
                   = post ++ Connect ip' port' t true :: pre).
    { rewrite <- Heq, Hk. cbn. rewrite <- !app_assoc. reflexivity. }
    apply (beyond_mark (from [ScanPhase])) in Heq' as [E | Hin'];
      [discriminate E | exact (Hnc _ _ _ Hin') | reflexivity | exact Hpre].
Qed.

(** C8.  With a debug peer configured and reachable (the port is a
    port and the connection succeeds), [bootstrapPeers] returns that
    peer, and the events of the run are those of the start and of the
    debug phase alone: no event of the cache phase, of the scan or of
    [savePeerCache], and the files are untouched.  In every run, an
    event of the cache phase comes after the complete debug phase, which
    has returned no peer, and an event of the scan comes after the
    complete cache phase as well, which has returned [null]; no event of
    a later phase lies among the events of the earlier ones.  A phase
    whose connection attempt throws ends the run with that error, and
    no later phase is started. *)
Theorem phases_run_in_order seed w :
  exists o w' new,
    bootstrapPeers seed w = (o, w')
    /\ events w' = new ++ events w
    /\ (forall address,
          BOOTSTRAP_PEER_IP cfg = Some address ->
          address <> EmptyString ->
          valid_port (SCAN_PORT cfg) ->
          connect rt (connections w) (Some (JStr address))
            (Some (JNum (SCAN_PORT cfg))) 2000 = true ->
          o = Ok (found cfg address)
          /\ new = debug_trace cfg address true ++ start_trace seed
          /\ existsb (from [CachePhase; ScanPhase; SavePhase]) new = false
          /\ fs w' = fs w)
    /\ (forall pre e post,
          rev new = pre ++ e :: post -> from [CachePhase] e = true ->
          exists w1 dbg k,
            debug_phase rt cfg (started seed w) = (Ok None, w1)
            /\ events w1 = dbg ++ events (started seed w)
            /\ existsb (from [CachePhase; ScanPhase]) dbg = false
            /\ pre = rev (start_trace seed) ++ rev dbg ++ k)
    /\ (forall pre e post,
          rev new = pre ++ e :: post -> from [ScanPhase] e = true ->
          exists w1 dbg w2 cch k,
            debug_phase rt cfg (started seed w) = (Ok None, w1)
            /\ events w1 = dbg ++ events (started seed w)
            /\ retryCachedPeers rt cfg w1 = (Ok JNull, w2)
            /\ events w2 = cch ++ events w1
            /\ existsb (from [ScanPhase]) (cch ++ dbg) = false
            /\ pre = rev (start_trace seed) ++ rev dbg ++ rev cch ++ k)
    /\ (forall message w1,
          debug_phase rt cfg (started seed w) = (Throw message, w1) ->
          o = Throw message
          /\ existsb (from [CachePhase; ScanPhase; SavePhase]) new = false)
    /\ (forall w1 message w2,
          debug_phase rt cfg (started seed w) = (Ok None, w1) ->
          retryCachedPeers rt cfg w1 = (Throw message, w2) ->
          o = Throw message
          /\ existsb (from [ScanPhase; SavePhase]) new = false).
Proof.
  destruct (bootstrap_cases seed w)
    as [d [w1 [dbg [Hd [Hev1 [Hfs1 [Hwr1 [Htn1 [Hcld [Hcfg
         [Hout Hrest]]]]]]]]]]].
  assert (Hreach : forall address,
            BOOTSTRAP_PEER_IP cfg = Some address ->
            address <> EmptyString ->
            valid_port (SCAN_PORT cfg) ->
            connect rt (connections w) (Some (JStr address))
              (Some (JNum (SCAN_PORT cfg))) 2000 = true ->
            d = Ok (Some (found cfg address))
            /\ dbg = debug_trace cfg address true).
  { intros address Hip Hne Hv Hc. unfold debug_configured in Hcfg.
    rewrite Hip in Hcfg. apply String.eqb_neq in Hne. rewrite Hne in Hcfg.
    cbn [negb] in Hcfg. destruct Hcfg as [address' [E H]].
    injection E as <-.
    destruct (numeric_port_outcome rt (connections w)
                (Some (JStr address)) (SCAN_PORT cfg) 2000)
      as [[_ Ho] | [Hnv _]]; [| destruct (Hnv Hv)].
    rewrite Ho, Hc in H. destruct H as [-> ->]. split; reflexivity. }
  assert (Hstart : forall os,
            existsb (origin_eqb Orchestrator) os = false ->
            forallb (fun e => negb (from os e)) (rev (start_trace seed))
            = true).
  { intros os Hos. cbn. unfold from. cbn. rewrite Hos. reflexivity. }
  assert (Hdc : forallb (fun e => negb (from [CachePhase] e)) (rev dbg)
                = true).
  { apply forallb_rev_true. revert Hcld. apply not_from_weaken. apart. }
  assert (Hds : forallb (fun e => negb (from [ScanPhase] e)) (rev dbg)
                = true).
  { apply forallb_rev_true. revert Hcld. apply not_from_weaken. apart. }
  assert (Hdcs : existsb (from [CachePhase; ScanPhase]) dbg = false).
  { revert Hcld. apply class_excludes. apart. }
  assert (Hdall : existsb (from [CachePhase; ScanPhase; SavePhase])
                    (dbg ++ start_trace seed) = false).
  { rewrite existsb_app,
      (class_excludes [DebugPhase; Connection]
         [CachePhase; ScanPhase; SavePhase] dbg ltac:(apart) Hcld).
    reflexivity. }
  assert (Hdnone : forall os,
            existsb (from [CachePhase; ScanPhase; SavePhase])
              (dbg ++ start_trace seed) = false ->
            (forall o, existsb (origin_eqb o) os = true ->
                       existsb (origin_eqb o)
                         [CachePhase; ScanPhase; SavePhase] = true) ->
            existsb (from os) (dbg ++ start_trace seed) = false).
  { intros os Hall Hos. apply existsb_forallb_negb.
    apply forallb_forall. intros e Hin.
    apply (existsb_false_In _ _ _ Hall) in Hin.
    unfold from in *. destruct (existsb (origin_eqb (origin_of e)) os) eqn:E;
      [| reflexivity].
    rewrite (Hos _ E) in Hin. discriminate Hin. }
  assert (Hev0 : events w1 = dbg ++ events (started seed w)) by exact Hev1.
  destruct d as [[peer |] | message].
  { (* the debug peer answered *)
    destruct Hout as [address [Hip [_ [_ [-> ->]]]]].
    exists (Ok (found cfg address)), w1,
      (debug_trace cfg address true ++ start_trace seed).
    split; [exact Hrest |]. split; [rewrite Hev1, app_assoc; reflexivity |].
    split; [| split; [| split; [| split]]].
    - intros address' Hip' _ _ _. rewrite Hip in Hip'. injection Hip' as <-.
      repeat split. exact Hfs1.
    - intros pre e post Heq He. exfalso.
      apply (no_event_of _ _ _ _ _ Heq He). reflexivity.
    - intros pre e post Heq He. exfalso.
      apply (no_event_of _ _ _ _ _ Heq He). reflexivity.
    - intros message w1' H. rewrite Hd in H. discriminate H.
    - intros w1' message w2 H. rewrite Hd in H. discriminate H. }
  2:{ (* the debug attempt threw *)
    destruct Hout as [Hnv [address ->]].
    eexists (Throw message), w1, (_ ++ start_trace seed).
    split; [exact Hrest |]. split; [rewrite Hev1, app_assoc; reflexivity |].
    split; [| split; [| split; [| split]]].
    - intros address' _ _ Hv _. destruct (Hnv Hv).
    - intros pre e post Heq He. exfalso.
      apply (no_event_of _ _ _ _ _ Heq He). reflexivity.
    - intros pre e post Heq He. exfalso.
      apply (no_event_of _ _ _ _ _ Heq He). reflexivity.
    - intros message' w1' H. rewrite Hd in H. injection H as <- _.
      split; reflexivity.
    - intros w1' message' w2 H. rewrite Hd in H. discriminate H. }
  assert (Hunreach : forall address,
            BOOTSTRAP_PEER_IP cfg = Some address ->
            address <> EmptyString ->
            valid_port (SCAN_PORT cfg) ->
            connect rt (connections w) (Some (JStr address))
              (Some (JNum (SCAN_PORT cfg))) 2000 = true -> False).
  { intros address H1 H2 H3 H4.
    destruct (Hreach address H1 H2 H3 H4) as [E _]. discriminate E. }
  assert (Hnothrow : forall message w1',
            debug_phase rt cfg (started seed w) = (Throw message, w1') ->
            False).
  { intros message w1' H. rewrite Hd in H. discriminate H. }
  destruct Hrest
    as [c [w2 [cch [Hc [Hev2 [Hfs2 [Hwr2 [Htn2 [Hclc [_ [_ Hrest]]]]]]]]]]].
  assert (Hcs : forallb (fun e => negb (from [ScanPhase] e)) (rev cch)
                = true).
  { apply forallb_rev_true. revert Hclc. apply not_from_weaken. apart. }
  assert (Hcds : existsb (from [ScanPhase]) (cch ++ dbg) = false).
  { rewrite existsb_app,
      (class_excludes [CachePhase; Connection] [ScanPhase] cch
         ltac:(apart) Hclc),
      (class_excludes [DebugPhase; Connection] [ScanPhase] dbg
         ltac:(apart) Hcld).
    reflexivity. }
  (* every run that gets here has the same conclusion on the cache *)
  assert (Hcache : forall fin pre e post,
            rev (fin ++ cch ++ dbg ++ start_trace seed) = pre ++ e :: post ->
            from [CachePhase] e = true ->
            exists w1' dbg' k,
              debug_phase rt cfg (started seed w) = (Ok None, w1')
              /\ events w1' = dbg' ++ events (started seed w)
              /\ existsb (from [CachePhase; ScanPhase]) dbg' = false
              /\ pre = rev (start_trace seed) ++ rev dbg' ++ k).
  { intros fin pre e post Heq He.
    rewrite !rev_app_distr, <- !app_assoc in Heq.
    rewrite (app_assoc (rev (start_trace seed))) in Heq.
    apply (beyond_prefix (from [CachePhase])) in Heq as [k [-> _]];
      [| apply forallb_app_true; [apply Hstart; reflexivity | exact Hdc]
       | exact He].
    exists w1, dbg, k. rewrite <- app_assoc. auto. }
  destruct c as [c | message].
  2:{ (* an attempt of the replay threw *)
    exists (Throw message), w2, ([] ++ cch ++ dbg ++ start_trace seed).
    split; [exact Hrest |].
    split; [cbn [app]; rewrite Hev2, Hev1, <- !app_assoc; reflexivity |].
    split; [| split; [| split; [| split]]].
    - intros address H1 H2 H3 H4. destruct (Hunreach address H1 H2 H3 H4).
    - apply Hcache.
    - intros pre e post Heq He. exfalso.
      apply (no_event_of _ _ _ _ _ Heq He). cbn [app].
      rewrite app_assoc, existsb_app, Hcds. reflexivity.
    - intros message' w1' H. destruct (Hnothrow _ _ H).
    - intros w1' message' w2' H1 H2. rewrite Hd in H1.
      injection H1 as <-. rewrite Hc in H2. injection H2 as <- _.
      split; [reflexivity |]. cbn [app]. rewrite existsb_app.
      rewrite (class_excludes [CachePhase; Connection]
                 [ScanPhase; SavePhase] cch ltac:(apart) Hclc).
      apply Hdnone; [exact Hdall |].
      intros o; destruct o; cbn; congruence. }
  assert (Hcatch : forall w1' message w2',
            debug_phase rt cfg (started seed w) = (Ok None, w1') ->
            retryCachedPeers rt cfg w1' = (Throw message, w2') -> False).
  { intros w1' message w2' H1 H2. rewrite Hd in H1. injection H1 as <-.
    rewrite Hc in H2. discriminate H2. }
  destruct (truthy c) eqn:Htc.
  { (* a cached peer answered *)
    exists (Ok c), (snd (emit (Log (UsingCached (prop c "ip"))) w2)),
      ([Log (UsingCached (prop c "ip"))] ++ cch ++ dbg ++ start_trace seed).
    split; [exact Hrest |].
    split; [cbn; rewrite Hev2, Hev1, <- !app_assoc; reflexivity |].
    split; [| split; [| split; [| split]]].
    - intros address H1 H2 H3 H4. destruct (Hunreach address H1 H2 H3 H4).
    - apply Hcache.
    - intros pre e post Heq He. exfalso.
      apply (no_event_of _ _ _ _ _ Heq He). cbn [app existsb].
      rewrite app_assoc, existsb_app, Hcds. reflexivity.
    - intros message' w1' H. destruct (Hnothrow _ _ H).
    - intros w1' message' w2' H1 H2. destruct (Hcatch _ _ _ H1 H2). }
  destruct Hrest
    as [-> [s [w3 [scn [Hs [Hev3 [_ [_ [_ [_ [_ Hrest]]]]]]]]]]].
  assert (Hscan : forall fin pre e post,
            rev (fin ++ cch ++ dbg ++ start_trace seed) = pre ++ e :: post ->
            from [ScanPhase] e = true ->
            exists w1' dbg' w2' cch' k,
              debug_phase rt cfg (started seed w) = (Ok None, w1')
              /\ events w1' = dbg' ++ events (started seed w)
              /\ retryCachedPeers rt cfg w1' = (Ok JNull, w2')
              /\ events w2' = cch' ++ events w1'
              /\ existsb (from [ScanPhase]) (cch' ++ dbg') = false
              /\ pre = rev (start_trace seed) ++ rev dbg' ++ rev cch' ++ k).
  { intros fin pre e post Heq He.
    rewrite !rev_app_distr, <- !app_assoc in Heq.
    rewrite (app_assoc (rev dbg)), (app_assoc (rev (start_trace seed))) in Heq.
    apply (beyond_prefix (from [ScanPhase])) in Heq as [k [-> _]];
      [| apply forallb_app_true;
           [apply Hstart; reflexivity
           | apply forallb_app_true; [exact Hds | exact Hcs]]
       | exact He].
    exists w1, dbg, w2, cch, k. rewrite <- !app_assoc.
    repeat split; auto. }
  assert (Hall : forall fin o' w',
            bootstrapPeers seed w = (o', w') ->
            events w' = (fin ++ cch ++ dbg ++ start_trace seed) ++ events w ->
            exists o w' new,
              bootstrapPeers seed w = (o, w')
              /\ events w' = new ++ events w
              /\ (forall address,
                    BOOTSTRAP_PEER_IP cfg = Some address ->
                    address <> EmptyString ->
                    valid_port (SCAN_PORT cfg) ->
                    connect rt (connections w) (Some (JStr address))
                      (Some (JNum (SCAN_PORT cfg))) 2000 = true ->
                    o = Ok (found cfg address)
                    /\ new = debug_trace cfg address true ++ start_trace seed
                    /\ existsb (from [CachePhase; ScanPhase; SavePhase]) new
                       = false
                    /\ fs w' = fs w)
              /\ (forall pre e post,
                    rev new = pre ++ e :: post -> from [CachePhase] e = true ->
                    exists w1 dbg k,
                      debug_phase rt cfg (started seed w) = (Ok None, w1)
                      /\ events w1 = dbg ++ events (started seed w)
                      /\ existsb (from [CachePhase; ScanPhase]) dbg = false
                      /\ pre = rev (start_trace seed) ++ rev dbg ++ k)
              /\ (forall pre e post,
                    rev new = pre ++ e :: post -> from [ScanPhase] e = true ->
                    exists w1 dbg w2 cch k,
                      debug_phase rt cfg (started seed w) = (Ok None, w1)
                      /\ events w1 = dbg ++ events (started seed w)
                      /\ retryCachedPeers rt cfg w1 = (Ok JNull, w2)
                      /\ events w2 = cch ++ events w1
                      /\ existsb (from [ScanPhase]) (cch ++ dbg) = false
                      /\ pre = rev (start_trace seed) ++ rev dbg
                                 ++ rev cch ++ k)
              /\ (forall message w1,
                    debug_phase rt cfg (started seed w)
                    = (Throw message, w1) ->
                    o = Throw message
                    /\ existsb (from [CachePhase; ScanPhase; SavePhase]) new
                       = false)
              /\ (forall w1 message w2,
                    debug_phase rt cfg (started seed w) = (Ok None, w1) ->
                    retryCachedPeers rt cfg w1 = (Throw message, w2) ->
                    o = Throw message
                    /\ existsb (from [ScanPhase; SavePhase]) new = false)).
  { intros fin o' w' Hboot Hev.
    exists o', w', (fin ++ cch ++ dbg ++ start_trace seed).
    split; [exact Hboot |]. split; [exact Hev |].
    split; [| split; [| split; [| split]]].
    - intros address H1 H2 H3 H4. destruct (Hunreach address H1 H2 H3 H4).
    - apply Hcache.
    - apply Hscan.
    - intros message' w1' H. destruct (Hnothrow _ _ H).
    - intros w1' message' w2' H1 H2. destruct (Hcatch _ _ _ H1 H2). }
  destruct s as [s | message].
  { destruct Hrest as [[-> [_ [_ Hboot]]] | [ip [n [w4 [sv H]]]]].
    - apply (Hall (Log FallbackToDHT :: scn) _ _ Hboot).
      cbn. rewrite Hev3, Hev2, Hev1, <- !app_assoc. reflexivity.
    - cbv zeta in H.
      destruct H as [_ [_ [_ [_ [_ [Hev4 [_ [_ [_ [_ [_ [_ Hboot]]]]]]]]]]]].
      apply (Hall (Log FoundViaScan :: sv ++ scn) _ _ Hboot).
      cbn. rewrite Hev4, Hev3, Hev2, Hev1, <- !app_assoc. reflexivity. }
  destruct Hrest as [_ [_ [_ Hboot]]].
  apply (Hall scn _ _ Hboot).
  rewrite Hev3, Hev2, Hev1, <- !app_assoc. reflexivity.
Qed.

End Program.

(** ** The statements on concrete runs *)

(** C5 as the specification words it fails: a cache file whose [version]
    is 2, not the tag 1 that [savePeerCache] writes, is not discarded.
    [loadPeerCache] returns its peer and logs no warning. *)
Lemma version_mismatch_is_loaded :
  let run := loadPeerCache Samples.offline Samples.caching
               (Samples.disk (Content (Json Samples.version2))) in
  lookup "version" (own_fields Samples.version2) = Some (JNum 2)
  /\ fst run = Ok [Samples.p1]
  /\ existsb is_warning (events (snd run)) = false.
Proof. vm_compute. repeat split. Qed.


(** C4 as the specification words it fails: a peer reached in the debug
    phase, and a peer reached by replaying the cache, are returned
    without a call of [savePeerCache]; after the debug run there is
    still no cache file. *)
Lemma debug_and_replay_do_not_save :
  (let run := Samples.bootstrapPeers Samples.online Samples.debugging 7
                (Samples.disk Missing) in
   fst run = Ok (found Samples.debugging "192.168.1.100")
   /\ existsb
        (fun e => match e with Connect _ _ _ c => c | _ => false end)
        (events (snd run)) = true
   /\ existsb (from [SavePhase]) (events (snd run)) = false
   /\ fs (snd run) "./peers.json" = Missing)
  /\ (let run := Samples.bootstrapPeers Samples.online Samples.caching 7
                   (Samples.disk (Content (Json Samples.version1))) in
      fst run = Ok Samples.p1
      /\ existsb (from [SavePhase]) (events (snd run)) = false).
Proof. vm_compute. repeat split. Qed.

Lemma scan_success_is_cached_witness :
  let run := Samples.bootstrapPeers Samples.online Samples.caching 7
               (Samples.disk Missing) in
  exists address now,
    let r := scanned_peer Samples.caching address now in
    fst run = Ok r
    /\ In (Call (CallSavePeerCache [r])) (events (snd run))
    /\ fs (snd run) "./peers.json" = Content (Json (snapshot (now + 1) [r])).
Proof.
  cbv zeta.
  destruct (scan_success_is_cached Samples.online Samples.caching
              Feistel.generator Feistel.createFeistelGenerator
              Samples.next Samples.render 7 (Samples.disk Missing))
    as [o [w' [new [Hrun [Hev [Hscan _]]]]]].
  fold (Samples.bootstrapPeers Samples.online Samples.caching) in Hrun.
  set (evs := events (snd (Samples.bootstrapPeers Samples.online
                             Samples.caching 7 (Samples.disk Missing)))).
  assert (Hsplit : evs
            = firstn 5 evs
                ++ Connect
                     (match nth 5 evs (GenNext None) with
                      | Connect ip _ _ _ => ip
                      | _ => None
                      end)
                     (Some (JNum 3000)) 500 true
                :: skipn 6 evs) by (vm_compute; reflexivity).
  assert (Hpre : existsb (from [ScanPhase]) (skipn 6 evs) = true)
    by (vm_compute; reflexivity).
  subst evs. rewrite Hrun in *. cbn [fst snd] in *.
  cbn [events Samples.disk] in Hev. rewrite app_nil_r in Hev.
  rewrite Hev in Hsplit, Hpre |- *.
  destruct (Hscan _ _ _ _ _ Hsplit Hpre)
    as [address [w1 [w2 [w3 [_ [_ [_ [_ [_ [-> [Hsave Hfile]]]]]]]]]]].
  exists address, (clock Samples.online (clock_reads w3)).
  split; [reflexivity |]. split; [exact Hsave |].
  pose proof (Hfile eq_refl eq_refl) as Hf.
  cbn [PEER_CACHE_PATH Samples.caching] in Hf. rewrite Hf.
  cbn [clock Samples.online]. unfold Samples.ticking.
  do 3 f_equal. lia.
Defined.

Lemma phases_run_in_order_witness :
  let run := Samples.bootstrapPeers Samples.online Samples.debugging 7
               (Samples.disk Missing) in
  fst run = Ok (found Samples.debugging "192.168.1.100")
  /\ existsb (from [CachePhase; ScanPhase; SavePhase]) (events (snd run))
     = false.
Proof.
  cbv zeta.
  destruct (phases_run_in_order Samples.online Samples.debugging
              Feistel.generator Feistel.createFeistelGenerator
              Samples.next Samples.render 7 (Samples.disk Missing))
    as [o [w' [new [Hrun [Hev [Hdebug _]]]]]].
  fold (Samples.bootstrapPeers Samples.online Samples.debugging) in Hrun.
  rewrite Hrun. cbn [fst snd].
  cbn [events Samples.disk] in Hev. rewrite app_nil_r in Hev.
  destruct (Hdebug "192.168.1.100"%string) as [-> [_ [Hnone _]]].
  - reflexivity.
  - discriminate.
  - unfold valid_port. cbn. lia.
  - reflexivity.
  - rewrite Hev. split; [reflexivity | exact Hnone].
Defined.

Lemma scanIPv4Space_is_bounded_witness :
  exists w' new,
    Samples.scanIPv4Space Samples.frozen_offline Samples.caching 7 10000
      (Samples.disk Missing) = (Ok JNull, w')
    /\ events w' = new
    /\ gen_calls new = 100000.
Proof.
  destruct (scanIPv4Space_is_bounded Samples.frozen_offline Samples.caching
              Feistel.generator Feistel.createFeistelGenerator
              Samples.next Samples.render 7 10000 (Samples.disk Missing))
    as [o [w' [new [Hrun [Hev [_ [_ [_ Hport]]]]]]]].
  destruct Hport as [_ [_ [_ Hfull]]]; [unfold valid_port; cbn; lia |].
  destruct Hfull as [-> [Hcalls _]].
  - intros k ip port t. reflexivity.
  - intros k. cbn. lia.
  - exists w', new. cbn [events Samples.disk] in Hev.
    rewrite app_nil_r in Hev. auto.
Defined.

(** With [SCAN_PORT=70000] the first connection attempt of the scan
    throws, after 100 candidates. *)
Example scan_on_no_port_throws :
  let run := Samples.scanIPv4Space Samples.offline Samples.misconfigured 7
               10000 (Samples.disk Missing) in
  fst run = Throw "ERR_SOCKET_BAD_PORT"
  /\ gen_calls (events (snd run)) = 100
  /\ connects (events (snd run)) = 0.
Proof. vm_compute. repeat split. Qed.

(** The addresses the scan skips. *)
Example shouldSkipAddress_examples :
  List.map (shouldSkipAddress Samples.offline)
    ["127.0.0.1"; "10.1.2.3"; "172.16.0.1"; "172.32.0.1"; "192.168.1.1";
     "169.254.1.1"; "224.0.0.1"; "255.1.1.1"; "8.8.8.8"]%string
  = [true; true; true; false; true; true; true; true; false].
Proof. vm_compute. reflexivity. Qed.

End BootstrapFacts.

(* ===================================================================== *)
(** * More on the peer directory                                         *)
(* ===================================================================== *)

Module DirectoryMore.
Import Directory DirectoryFacts.

#[local] Set Warnings "-notation-for-abbreviation".
#[local] Set Default Proof Using "Type".

(** ** Keys in hexadecimal *)

Lemma string_app_assoc (a b c : string) :
  ((a ++ b) ++ c = a ++ (b ++ c))%string.
Proof. induction a as [| x a IH]; cbn; [reflexivity | now rewrite IH]. Qed.

Lemma string_app_nil_r (a : string) : (a ++ "")%string = a.
Proof. induction a as [| x a IH]; cbn; [reflexivity | now rewrite IH]. Qed.

Lemma digit_hex_char n : (n < 16)%N -> Hex.digit (Hex.hex_char n) = Some n.
Proof.
  intros Hn.
  destruct n as [| p]; [reflexivity |].
  do 4 (try destruct p as [p | p |]); try reflexivity; lia.
Qed.

Lemma decode_encode_byte b rest :
  (b < 256)%N ->
  Hex.decode (Hex.encode_byte b ++ rest) = b :: Hex.decode rest.
Proof.
  intros Hb. unfold Hex.encode_byte. cbn [String.append Hex.decode].
  rewrite !digit_hex_char.
  - f_equal. symmetry. apply N.div_mod. lia.
  - apply N.mod_lt. lia.
  - apply N.Div0.div_lt_upper_bound. lia.
Qed.

Lemma decode_encode buffer rest :
  Hex.bytes buffer ->
  Hex.decode (Hex.encode buffer ++ rest) = buffer ++ Hex.decode rest.
Proof.
  induction 1 as [| b buffer Hb _ IH]; cbn [Hex.encode]; [reflexivity |].
  rewrite string_app_assoc, decode_encode_byte by exact Hb.
  rewrite IH. reflexivity.
Qed.

Section Manager.

Variable Id : Type.
Variable Id_eq_dec : forall a b : Id, {a = b} + {a <> b}.
Variable MAX_PEERS : Z.
Variable PEER_TIMEOUT : Z.
Variable double_quotient_exceeds : Z -> Q -> bool.

Local Notation Map_get := (Map_get Id Id_eq_dec).
Local Notation Map_has := (Map_has Id Id_eq_dec).
Local Notation Map_set := (Map_set Id Id_eq_dec).
Local Notation Map_delete := (Map_delete Id Id_eq_dec).
Local Notation keys := (keys Id).
Local Notation unique_ids := (unique_ids Id).
Local Notation evict_loop := (evict_loop Id Id_eq_dec).
Local Notation addOrUpdatePeer := (addOrUpdatePeer Id Id_eq_dec).
Local Notation canAcceptPeer := (canAcceptPeer Id Id_eq_dec MAX_PEERS).
Local Notation getPeer := (getPeer Id Id_eq_dec).
Local Notation hasPeer := (hasPeer Id Id_eq_dec).
Local Notation removePeer := (removePeer Id Id_eq_dec).
Local Notation cleanupStalePeers :=
  (cleanupStalePeers Id Id_eq_dec PEER_TIMEOUT).
Local Notation older_than := (older_than double_quotient_exceeds).
Local Notation prune := (prune Id Id_eq_dec double_quotient_exceeds).
Local Notation reachable :=
  (reachable Id Id_eq_dec PEER_TIMEOUT double_quotient_exceeds).
Local Notation key_accepted := (key_accepted Id).
Local Notation fromJSON := (fromJSON Id Id_eq_dec).
Local Notation fromJSON_loop := (fromJSON_loop Id Id_eq_dec).
Local Notation toJSON := (toJSON Id).
Local Notation size := (size Id).
Local Notation seenPeers := (seenPeers Id).
Local Notation getSeq := (getSeq Id).
Local Notation incrementSeq := (incrementSeq Id).
Local Notation restored := (restored Id).

(** ** [removePeer] *)

Lemma Map_get_delete_same id m : Map_get id (Map_delete id m) = None.
Proof.
  apply Map_get_none. intros Hin. unfold Directory.keys in Hin.
  apply in_map_iff in Hin as [e [He Hin]].
  apply filter_In in Hin as [_ Hf]. subst id.
  destruct (Id_eq_dec (fst e) (fst e)); [discriminate | congruence].
Qed.

Lemma Map_get_delete_other id id' m :
  id' <> id -> Map_get id' (Map_delete id m) = Map_get id' m.
Proof.
  intros Hne. induction m as [| [k v] m IH]; cbn; [reflexivity |].
  destruct (Id_eq_dec id k) as [E | E]; cbn.
  - subst k. destruct (Id_eq_dec id' id); [contradiction | exact IH].
  - destruct (Id_eq_dec id' k); [reflexivity | exact IH].
Qed.

Lemma delete_absent id m : ~ In id (keys m) -> Map_delete id m = m.
Proof.
  clear double_quotient_exceeds MAX_PEERS.
  induction m as [| [k v] m IH]; cbn; [reflexivity |].
  intros Hn. destruct (Id_eq_dec id k) as [E | E].
  - exfalso. apply Hn. left. congruence.
  - f_equal. apply IH. tauto.
Qed.

Lemma delete_present_length id m :
  unique_ids m -> In id (keys m) ->
  S (List.length (Map_delete id m)) = List.length m.
Proof.
  clear double_quotient_exceeds MAX_PEERS.
  unfold Directory.unique_ids.
  induction m as [| [k v] m IH]; cbn; [tauto |].
  intros Hu Hin. inversion Hu as [| ? ? Hn Hu']; subst.
  destruct (Id_eq_dec id k) as [E | E].
  - subst k. fold (Map_delete id m). rewrite delete_absent by exact Hn.
    reflexivity.
  - cbn. f_equal. apply IH; [exact Hu' |].
    destruct Hin as [H | H]; [congruence | exact H].
Qed.

(** X1.  [removePeer(id)] returns whether the id was in the directory.
    Afterwards the id is absent and every other id has the record it
    had.  With one record per id, the count drops by one when the id was
    there, and the directory is unchanged when it was not. *)
Theorem removePeer_removes_one id (pm : PeerManager Id) :
  unique_ids (seenPeers pm) ->
  fst (removePeer id pm) = hasPeer id pm
  /\ hasPeer id (snd (removePeer id pm)) = false
  /\ (forall id', id' <> id ->
        getPeer id' (snd (removePeer id pm)) = getPeer id' pm)
  /\ size (snd (removePeer id pm))
     = size pm - (if hasPeer id pm then 1 else 0)
  /\ (hasPeer id pm = false -> snd (removePeer id pm) = pm).
Proof.
  intros Hu. unfold Directory.removePeer, Directory.hasPeer,
    Directory.getPeer, Directory.size. cbn [fst snd Directory.seenPeers].
  split; [reflexivity |]. split; [| split; [| split]].
  - unfold Directory.Map_has. rewrite Map_get_delete_same. reflexivity.
  - intros id' Hne. apply Map_get_delete_other, Hne.
  - unfold Map_size. destruct (Map_has id (seenPeers pm)) eqn:Hh.
    + apply Map_has_in in Hh.
      pose proof (delete_present_length id _ Hu Hh). lia.
    + assert (Hn : ~ In id (keys (seenPeers pm))).
      { intros Hin. apply (proj2 (Map_has_in Id Id_eq_dec id _)) in Hin. congruence. }
      rewrite delete_absent by exact Hn. lia.
  - intros Hh. assert (Hn : ~ In id (keys (seenPeers pm))).
    { intros Hin. apply (proj2 (Map_has_in Id Id_eq_dec id _)) in Hin. congruence. }
    rewrite delete_absent by exact Hn. destruct pm; reflexivity.
Qed.

(** X2.  [addOrUpdatePeer] of an id that is not in the directory returns
    [wasNew = true], appends the id after the ids already there and
    raises the count by one.  It does not look at [MAX_PEERS] itself:
    when [canAcceptPeer(id)] held before the call the count stays within
    [MAX_PEERS], and when it did not the count exceeds it. *)
Theorem gated_upsert_respects_capacity id sq k now (pm : PeerManager Id) :
  hasPeer id pm = false ->
  fst (addOrUpdatePeer id sq k now pm) = true
  /\ keys (seenPeers (snd (addOrUpdatePeer id sq k now pm)))
     = keys (seenPeers pm) ++ [id]
  /\ size (snd (addOrUpdatePeer id sq k now pm)) = size pm + 1
  /\ (canAcceptPeer id pm = true ->
      size (snd (addOrUpdatePeer id sq k now pm)) <= MAX_PEERS)
  /\ (canAcceptPeer id pm = false ->
      MAX_PEERS < size (snd (addOrUpdatePeer id sq k now pm))).
Proof.
  intros Hh.
  assert (Hn : ~ In id (keys (seenPeers pm))).
  { intros Hin. apply (proj2 (Map_has_in Id Id_eq_dec id _)) in Hin.
    unfold Directory.hasPeer in Hh. congruence. }
  assert (Hsize : size (snd (addOrUpdatePeer id sq k now pm)) = size pm + 1).
  { unfold Directory.size. cbn. rewrite !size_keys, keys_set_absent by exact Hn.
    rewrite length_app. cbn. lia. }
  unfold Directory.hasPeer, Directory.Map_has in Hh.
  split; [| split; [| split; [| split]]].
  - cbn. destruct (Map_get id (seenPeers pm)); [discriminate | reflexivity].
  - cbn. apply keys_set_absent, Hn.
  - exact Hsize.
  - rewrite Hsize. unfold Directory.canAcceptPeer, Directory.Map_has.
    destruct (Map_get id (seenPeers pm)); [discriminate |].
    intros Hc. apply Z.ltb_lt in Hc. unfold Directory.size. lia.
  - rewrite Hsize. unfold Directory.canAcceptPeer, Directory.Map_has.
    destruct (Map_get id (seenPeers pm)); [discriminate |].
    intros Hc. apply Z.ltb_ge in Hc. unfold Directory.size. lia.
Qed.

(** ** The own sequence number *)

Lemma plus_one_range n :
  0 <= n <= max_safe_count -> 0 <= plus_one n <= max_safe_count.
Proof.
  unfold plus_one, max_safe_count. destruct (Z.ltb_spec n 9007199254740992); lia.
Qed.

Lemma after_calls (pm : PeerManager Id) n :
  0 <= getSeq pm <= max_safe_count ->
  getSeq (Nat.iter n (fun p => snd (incrementSeq p)) pm)
  = Z.min (getSeq pm + Z.of_nat n) max_safe_count.
Proof.
  intros Hr. induction n as [| n IH];
    [simpl Nat.iter; unfold max_safe_count in *; lia |].
  rewrite Nat.iter_succ. unfold Directory.incrementSeq at 1.
  unfold Directory.getSeq in *. cbn [snd mySeq]. rewrite IH.
  unfold plus_one, max_safe_count in *.
  destruct (Z.ltb_spec (Z.min (mySeq Id pm + Z.of_nat n) 9007199254740992)
              9007199254740992); lia.
Qed.

Lemma others_keep_seq (pm : PeerManager Id) :
  (forall id sq k now,
     getSeq (snd (addOrUpdatePeer id sq k now pm)) = getSeq pm)
  /\ (forall id, getSeq (snd (removePeer id pm)) = getSeq pm)
  /\ (forall now, getSeq (snd (cleanupStalePeers now pm)) = getSeq pm)
  /\ (forall maxAge now, getSeq (snd (prune maxAge now pm)) = getSeq pm)
  /\ (forall clock data, getSeq (snd (fromJSON clock data pm)) = getSeq pm).
Proof.
  repeat split.
  - intros now. unfold Directory.cleanupStalePeers.
    destruct (evict_loop _ _). reflexivity.
  - intros maxAge now. unfold Directory.prune.
    destruct (Directory.evict_loop _ _ _ _). reflexivity.
  - intros clock [l |]; cbn; [| reflexivity].
    destruct (fromJSON_loop _ _ _ _). reflexivity.
Qed.

Lemma reachable_seq_range (pm : PeerManager Id) :
  reachable pm -> 0 <= getSeq pm <= max_safe_count.
Proof.
  induction 1 as [| id sq k now pm _ IH | id pm _ IH | now pm _ IH
                  | maxAge now pm _ IH | clock data pm _ IH | pm _ IH].
  - unfold Directory.getSeq, max_safe_count. cbn. lia.
  - rewrite (proj1 (others_keep_seq pm)). exact IH.
  - rewrite (proj1 (proj2 (others_keep_seq pm))). exact IH.
  - rewrite (proj1 (proj2 (proj2 (others_keep_seq pm)))). exact IH.
  - rewrite (proj1 (proj2 (proj2 (proj2 (others_keep_seq pm))))). exact IH.
  - rewrite (proj2 (proj2 (proj2 (proj2 (others_keep_seq pm))))). exact IH.
  - unfold Directory.getSeq, Directory.incrementSeq in *. cbn [snd mySeq].
    apply plus_one_range, IH.
Qed.

(** X3.  In every state the methods of [PeerManager] produce from a
    fresh one, the own sequence number lies between 0 and [2^53].
    After [n] calls of [incrementSeq()] it has grown by [n], up to
    [2^53], where it stays; each call returns the number it stores, and
    the peers are not touched.  No other method changes the own sequence
    number. *)
Theorem own_sequence_number_counts_calls (pm : PeerManager Id) n :
  reachable pm ->
  let after k := Nat.iter k (fun p => snd (incrementSeq p)) pm in
  0 <= getSeq pm <= max_safe_count
  /\ getSeq (after n) = Z.min (getSeq pm + Z.of_nat n) max_safe_count
  /\ fst (incrementSeq (after n)) = getSeq (after (S n))
  /\ seenPeers (after n) = seenPeers pm
  /\ (forall id sq k now,
        getSeq (snd (addOrUpdatePeer id sq k now pm)) = getSeq pm)
  /\ (forall id, getSeq (snd (removePeer id pm)) = getSeq pm)
  /\ (forall now, getSeq (snd (cleanupStalePeers now pm)) = getSeq pm)
  /\ (forall maxAge now, getSeq (snd (prune maxAge now pm)) = getSeq pm)
  /\ (forall clock data, getSeq (snd (fromJSON clock data pm)) = getSeq pm).
Proof.
  intros Hr. cbv zeta.
  pose proof (reachable_seq_range pm Hr) as Hrange.
  split; [exact Hrange |].
  split; [apply after_calls, Hrange |].
  split; [rewrite Nat.iter_succ; reflexivity |].
  split; [| apply others_keep_seq].
  induction n as [| n IH]; [reflexivity |].
  rewrite Nat.iter_succ. unfold Directory.incrementSeq at 1.
  cbn [snd Directory.seenPeers]. exact IH.
Qed.

(** ** Sweeps *)


(** X4.  A peer recorded by [addOrUpdatePeer] at time [t] is still in the
    directory, with the record just stored, after [cleanupStalePeers()]
    at time [now] exactly when [now - t] does not exceed [PEER_TIMEOUT];
    otherwise the sweep has removed it. *)
Theorem heard_peer_survives_the_sweep id sq k t now (pm : PeerManager Id) :
  unique_ids (seenPeers pm) ->
  getPeer id
    (snd (cleanupStalePeers now (snd (addOrUpdatePeer id sq k t pm))))
  = if now - t >? PEER_TIMEOUT
    then None
    else Some {| seq := sq; lastSeen := t; key := k;
                 ip := None; port := None |}.
Proof.
  intros Hu.
  pose proof (unique_set Id Id_eq_dec id
                {| seq := sq; lastSeen := t; key := k;
                   ip := None; port := None |} _ Hu) as Hu'.
  pose proof (evict_exact Id Id_eq_dec (stale_after_timeout PEER_TIMEOUT now)
                (snd (addOrUpdatePeer id sq k t pm)) Hu') as H.
  cbv zeta in H. destruct H as [_ [_ [H _]]].
  unfold Directory.cleanupStalePeers, Directory.getPeer.
  unfold Directory.addOrUpdatePeer in *.
  cbn [fst snd Directory.seenPeers] in *.
  destruct (evict_loop _ _) as [m removed].
  cbn [fst snd Directory.seenPeers] in *.
  rewrite H, Map_get_set_same. reflexivity.
Qed.

Lemma sweep_twice (now1 now2 : Z) (m : Map Id) :
  now1 <= now2 ->
  let stale1 := stale_after_timeout PEER_TIMEOUT now1 in
  let stale2 := stale_after_timeout PEER_TIMEOUT now2 in
  filter (fun e => negb (stale2 (snd e)))
    (filter (fun e => negb (stale1 (snd e))) m)
  = filter (fun e => negb (stale2 (snd e))) m
  /\ (List.length (filter (fun e => stale1 (snd e)) m)
      + List.length (filter (fun e => stale2 (snd e))
                       (filter (fun e => negb (stale1 (snd e))) m))
      = List.length (filter (fun e => stale2 (snd e)) m))%nat.
Proof.
  intros Hle. cbv zeta.
  assert (Himp : forall d, stale_after_timeout PEER_TIMEOUT now1 d = true ->
                 stale_after_timeout PEER_TIMEOUT now2 d = true).
  { unfold stale_after_timeout. intros d H.
    apply Z.gtb_lt in H. apply Z.gtb_lt. lia. }
  induction m as [| e m [IH1 IH2]]; [split; reflexivity |].
  destruct (stale_after_timeout PEER_TIMEOUT now1 (snd e)) eqn:H1;
    destruct (stale_after_timeout PEER_TIMEOUT now2 (snd e)) eqn:H2;
    try (rewrite (Himp _ H1) in H2; discriminate H2);
    repeat (cbn [filter negb List.length]; rewrite ?H1, ?H2);
    (split; [rewrite IH1; reflexivity | lia]).
Qed.

(** X5.  Two calls of [cleanupStalePeers()], the second not earlier than
    the first, leave the directory the second alone would leave, and
    their counts of removed peers add up to the count of that one sweep.
    A second sweep at the same time removes nothing. *)
Theorem later_sweep_absorbs_earlier now1 now2 (pm : PeerManager Id) :
  unique_ids (seenPeers pm) -> now1 <= now2 ->
  let first := cleanupStalePeers now1 pm in
  let second := cleanupStalePeers now2 (snd first) in
  snd second = snd (cleanupStalePeers now2 pm)
  /\ fst first + fst second = fst (cleanupStalePeers now2 pm)
  /\ cleanupStalePeers now1 (snd first) = (0, snd first).
Proof.
  intros Hu Hle. cbv zeta.
  assert (Hrun : forall now (p : PeerManager Id),
            unique_ids (seenPeers p) ->
            cleanupStalePeers now p
            = (Z.of_nat (List.length
                           (filter (fun e => stale_after_timeout PEER_TIMEOUT
                                               now (snd e)) (seenPeers p))),
               {| Directory.seenPeers :=
                    filter (fun e => negb (stale_after_timeout PEER_TIMEOUT
                                             now (snd e))) (seenPeers p);
                  mySeq := mySeq Id p |})).
  { intros now p Hp. unfold Directory.cleanupStalePeers.
    rewrite (evict_loop_filter Id Id_eq_dec) by exact Hp. reflexivity. }
  rewrite (Hrun now1 pm Hu), (Hrun now2 pm Hu). cbn [fst snd].
  assert (Hu1 : unique_ids
                  (filter (fun e => negb (stale_after_timeout PEER_TIMEOUT
                                            now1 (snd e))) (seenPeers pm)))
    by (apply unique_filter, Hu).
  rewrite !Hrun by exact Hu1. cbn [fst snd Directory.seenPeers mySeq].
  destruct (sweep_twice now1 now2 (seenPeers pm) Hle) as [Hf Hc].
  destruct (sweep_twice now1 now1 (seenPeers pm) (Z.le_refl _)) as [Hf' Hc'].
  cbv zeta in *. split; [| split].
  - rewrite Hf. reflexivity.
  - lia.
  - rewrite Hf'. f_equal. lia.
Qed.


(** ** [toJSON] and [fromJSON] *)

Lemma set_absent id d m :
  ~ In id (keys m) -> Map_set id d m = m ++ [(id, d)].
Proof.
  clear double_quotient_exceeds MAX_PEERS.
  induction m as [| [k v] m IH]; cbn; [reflexivity |].
  intros Hn. destruct (Id_eq_dec id k) as [E | E].
  - exfalso. apply Hn. left. congruence.
  - f_equal. apply IH. tauto.
Qed.

Lemma encode_nonempty buffer :
  buffer <> [] -> String.eqb (Hex.encode buffer) EmptyString = false.
Proof. destruct buffer; [congruence | reflexivity]. Qed.

Lemma restored_serialize clock i (e : Id * PeerData) :
  portable (snd e) ->
  restored clock i (serialize Id e) = Some (snd e).
Proof.
  destruct e as [id [sq ls k a p]]. unfold portable, Directory.restored, serialize.
  cbn. intros [Hls [Hk [Ha Hp]]].
  assert (Hkey : key_of match k with
                        | Some buffer => Some (KeyHex (Hex.encode buffer))
                        | None => None
                        end = Some k).
  { destruct k as [buffer |]; [| reflexivity].
    destruct Hk as [Hne Hb]. cbn. rewrite encode_nonempty by exact Hne.
    do 2 f_equal. rewrite <- (string_app_nil_r (Hex.encode buffer)).
    rewrite decode_encode by exact Hb. cbn. apply app_nil_r. }
  rewrite Hkey. do 2 f_equal.
  - destruct (Z.eqb_spec sq 0); congruence.
  - destruct (Z.eqb_spec ls 0); congruence.
  - destruct a as [a |]; [| reflexivity]. cbn.
    destruct (String.eqb_spec a EmptyString); congruence.
  - destruct p as [p |]; [| reflexivity]. cbn.
    destruct (Z.eqb_spec p 0); congruence.
Qed.

Lemma fromJSON_loop_serialized clock l :
  forall i acc,
  unique_ids (acc ++ l) ->
  Forall (fun e => portable (snd e)) l ->
  fromJSON_loop clock i (List.map (fun e => Some (serialize Id e)) l) acc
  = (true, acc ++ l).
Proof.
  induction l as [| e l IH]; intros i acc Hu Hp; cbn [List.map Directory.fromJSON_loop].
  - rewrite app_nil_r. reflexivity.
  - inversion Hp as [| ? ? He Hl]; subst.
    rewrite restored_serialize by exact He.
    assert (Hn : ~ In (fst e) (keys acc)).
    { unfold Directory.unique_ids, Directory.keys in *.
      rewrite map_app in Hu. cbn in Hu.
      apply NoDup_remove_2 in Hu. intros Hin. apply Hu.
      apply in_or_app. now left. }
    change (c_id (serialize Id e)) with (fst e).
    rewrite set_absent by exact Hn.
    rewrite IH; [| rewrite <- app_assoc; destruct e; exact Hu | exact Hl].
    rewrite <- app_assoc. destruct e; reflexivity.
Qed.

(** X7.  [fromJSON(toJSON())] into a fresh manager returns normally and
    rebuilds the directory, records and order, when every record is
    portable: [lastSeen] not 0, the key not the empty buffer, address
    and port not the empty string and 0.  (A field that is missing and a
    field that is [null] are one in [PeerData].)  The own sequence
    number is not part of the exchange: it is 0 in the fresh manager.
    [toJSON] lists the ids in the order of the directory. *)
Theorem toJSON_fromJSON_round_trip clock (pm : PeerManager Id) :
  unique_ids (seenPeers pm) ->
  Forall (fun e => portable (snd e)) (seenPeers pm) ->
  let back := fromJSON clock (Some (List.map Some (toJSON pm)))
                (create Id) in
  fst back = true
  /\ seenPeers (snd back) = seenPeers pm
  /\ getSeq (snd back) = 0
  /\ List.map c_id (toJSON pm) = keys (seenPeers pm).
Proof.
  intros Hu Hp. cbv zeta.
  unfold Directory.fromJSON, Directory.toJSON, Directory.create.
  cbn [Directory.seenPeers Directory.mySeq]. rewrite map_map.
  rewrite (fromJSON_loop_serialized clock (seenPeers pm) 0%nat []);
    [| exact Hu | exact Hp].
  cbn. repeat split. rewrite map_map. reflexivity.
Qed.

Lemma restored_accepted clock i (peer : CachedPeer Id) :
  key_accepted peer <-> exists d, restored clock i peer = Some d.
Proof.
  unfold Directory.key_accepted, Directory.restored, key_of.
  destruct (c_key peer) as [[s | bytes |] |];
    try destruct (String.eqb s EmptyString);
    (split; [intros _; eexists; reflexivity | intros _; discriminate])
    || (split; [intros H; now destruct H | intros [d H]; discriminate H]).
Qed.

(** The entries of an array up to the first that makes [fromJSON] throw
    are all applied. *)
Lemma fromJSON_loop_app clock l1 rest :
  Forall key_accepted l1 ->
  forall i m,
  fromJSON_loop clock i (List.map Some l1 ++ rest) m
  = fromJSON_loop clock (i + List.length l1) rest
      (snd (fromJSON_loop clock i (List.map Some l1) m)).
Proof.
  induction 1 as [| p l1 Hp _ IH]; intros i m;
    cbn [List.map app Directory.fromJSON_loop List.length].
  - rewrite Nat.add_0_r. reflexivity.
  - apply (restored_accepted clock i) in Hp as [d ->].
    rewrite IH. f_equal. lia.
Qed.

Lemma fromJSON_loop_keeps clock data :
  forall i m id,
  In id (keys m) -> In id (keys (snd (fromJSON_loop clock i data m))).
Proof.
  induction data as [| [p |] data IH]; intros i m id Hin; cbn; auto.
  destruct (restored clock i p) as [d |]; [| exact Hin].
  apply IH.
  destruct (in_dec Id_eq_dec (c_id p) (keys m)) as [Hp | Hp].
  - rewrite keys_set_present by exact Hp. exact Hin.
  - rewrite keys_set_absent by exact Hp. apply in_or_app. now left.
Qed.

Lemma fromJSON_loop_returns clock l :
  forall i m,
  fst (fromJSON_loop clock i (List.map Some l) m) = true
  <-> Forall key_accepted l.
Proof.
  induction l as [| p l IH]; intros i m; cbn [List.map Directory.fromJSON_loop].
  - split; [constructor | reflexivity].
  - destruct (restored clock i p) as [d |] eqn:Hd.
    + rewrite IH. split.
      * intros H. constructor; [| exact H].
        apply (restored_accepted clock i). eauto.
      * intros H. inversion H. assumption.
    + split; [discriminate |]. intros H. inversion H as [| ? ? Hp _].
      apply (restored_accepted clock i) in Hp as [d Hp]. congruence.
Qed.

(** X8.  On an array whose elements are [null] or objects that hold
    numbers for [seq], [lastSeen] and [port] where they hold any:
    [fromJSON] never removes an id.  It applies the entries in their
    order, so that the record of an id is the one of its last entry,
    with the time of that entry's turn where [lastSeen] is missing.  It
    throws at the first entry that is [null] or has a key that
    [Buffer.from] rejects (a number, say), and the entries before it
    stay applied; it returns normally exactly when there is no such
    entry. *)
Theorem fromJSON_applies_entries_in_order clock l1 l2 p
  (pm : PeerManager Id) :
  Forall key_accepted l1 ->
  (forall id data,
     hasPeer id pm = true ->
     hasPeer id (snd (fromJSON clock data pm)) = true)
  /\ (forall d,
        restored clock (List.length l1) p = Some d ->
        getPeer (c_id p)
          (snd (fromJSON clock (Some (List.map Some (l1 ++ [p]))) pm))
        = Some d)
  /\ fromJSON clock (Some (List.map Some l1 ++ None :: l2)) pm
     = (false, snd (fromJSON clock (Some (List.map Some l1)) pm))
  /\ (~ key_accepted p ->
      fromJSON clock (Some (List.map Some l1 ++ Some p :: l2)) pm
      = (false, snd (fromJSON clock (Some (List.map Some l1)) pm)))
  /\ (forall l,
        fst (fromJSON clock (Some (List.map Some l)) pm) = true
        <-> Forall key_accepted l).
Proof.
  intros Hl1.
  split; [| split; [| split; [| split]]].
  - intros id [l |] Hh; [| exact Hh]. unfold Directory.hasPeer in *.
    apply Map_has_in in Hh. apply Map_has_in. cbn.
    pose proof (fromJSON_loop_keeps clock l 0%nat _ id Hh) as H.
    destruct (fromJSON_loop _ _ _ _). exact H.
  - intros d Hd. unfold Directory.fromJSON, Directory.getPeer.
    rewrite map_app, fromJSON_loop_app by exact Hl1.
    cbn [List.map Directory.fromJSON_loop Nat.add]. rewrite Hd.
    cbn [fst snd Directory.seenPeers]. apply Map_get_set_same.
  - unfold Directory.fromJSON. rewrite fromJSON_loop_app by exact Hl1.
    cbn [Directory.fromJSON_loop].
    destruct (fromJSON_loop clock 0 (List.map Some l1) (seenPeers pm)).
    reflexivity.
  - intros Hp. unfold Directory.fromJSON.
    rewrite fromJSON_loop_app by exact Hl1.
    cbn [Directory.fromJSON_loop Nat.add].
    destruct (restored clock (List.length l1) p) as [d |] eqn:Hd.
    + exfalso. apply Hp. apply (restored_accepted clock (List.length l1)).
      eauto.
    + destruct (fromJSON_loop clock 0 (List.map Some l1) (seenPeers pm)).
      reflexivity.
  - intros l. unfold Directory.fromJSON.
    pose proof (fromJSON_loop_returns clock l 0%nat (seenPeers pm)) as H.
    destruct (fromJSON_loop _ _ _ _). exact H.
Qed.

End Manager.

(** ** The statements on concrete directories *)

Lemma removePeer_removes_one_witness :
  fst (removePeer string string_dec "b"%string Samples.three) = true
  /\ size string (snd (removePeer string string_dec "b"%string Samples.three))
     = 2.
Proof.
  destruct (removePeer_removes_one string string_dec "b"%string
              Samples.three three_unique) as [H1 [_ [_ [H4 _]]]].
  rewrite H1, H4. split; reflexivity.
Defined.

Lemma gated_upsert_respects_capacity_witness :
  canAcceptPeer string string_dec 3 "d"%string Samples.three = false
  /\ 3 < size string
           (snd (addOrUpdatePeer string string_dec "d"%string 1 None 100000
                   Samples.three)).
Proof.
  destruct (gated_upsert_respects_capacity string string_dec 3 "d"%string 1
              None 100000 Samples.three eq_refl) as [_ [_ [_ [_ H]]]].
  split; [reflexivity | apply H; reflexivity].
Defined.

Lemma heard_peer_survives_the_sweep_witness :
  option_map lastSeen
    (getPeer string string_dec "a"%string
       (snd (cleanupStalePeers string string_dec 15000 100000
               (snd (addOrUpdatePeer string string_dec "a"%string 2 None
                       99000 Samples.three)))))
  = Some 99000.
Proof.
  rewrite (heard_peer_survives_the_sweep string string_dec 15000 "a"%string 2
             None 99000 100000 Samples.three three_unique).
  reflexivity.
Defined.

Lemma later_sweep_absorbs_earlier_witness :
  snd (cleanupStalePeers string string_dec 15000 110000
         (snd (cleanupStalePeers string string_dec 15000 100000
                 Samples.three)))
  = snd (cleanupStalePeers string string_dec 15000 110000 Samples.three).
Proof.
  destruct (later_sweep_absorbs_earlier string string_dec 15000 100000 110000
              Samples.three three_unique ltac:(lia)) as [H _].
  exact H.
Defined.

Lemma toJSON_fromJSON_round_trip_witness :
  seenPeers string
    (snd (fromJSON string string_dec (fun _ => 0)
            (Some (List.map Some (toJSON string Samples.three)))
            (create string)))
  = Samples.three_peers.
Proof.
  destruct (toJSON_fromJSON_round_trip string string_dec (fun _ => 0)
              Samples.three three_unique) as [_ [H _]].
  - repeat (constructor;
            [unfold portable; cbn; repeat split; discriminate |]).
    constructor.
  - exact H.
Defined.

Lemma own_sequence_number_counts_calls_witness :
  getSeq string
    (Nat.iter 3 (fun p => snd (incrementSeq string p)) Samples.one_peer)
  = 3.
Proof.
  destruct (own_sequence_number_counts_calls string string_dec 15000
              Samples.whole_seconds_only Samples.one_peer 3)
    as [_ [H _]].
  - unfold Samples.one_peer. apply reach_addOrUpdatePeer, reach_create.
  - rewrite H. reflexivity.
Defined.

Lemma fromJSON_applies_entries_in_order_witness :
  let r := fromJSON string string_dec (fun _ => 7)
             (Some [Some Samples.keyed; Some Samples.numeric_key])
             (create string) in
  fst r = false
  /\ keys string (seenPeers string (snd r)) = ["a"%string]
  /\ option_map key (getPeer string string_dec "a"%string (snd r))
     = Some (Some [10; 255]%N).
Proof.
  cbv zeta.
  destruct (fromJSON_applies_entries_in_order string string_dec (fun _ => 7)
              [Samples.keyed] [] Samples.numeric_key (create string))
    as [_ [_ [_ [H _]]]].
  - repeat constructor. discriminate.
  - cbn [List.map app] in H. rewrite H.
    + repeat split.
    + intros Hk. apply Hk. reflexivity.
Defined.

End DirectoryMore.

(* ===================================================================== *)
(** * More on the bootstrap module                                       *)
(* ===================================================================== *)

Module BootstrapMore.
Import Js Runtime Constants Bootstrap BootstrapFacts.

#[local] Set Warnings "-notation-for-abbreviation".
#[local] Set Default Proof Using "Type".

(** ** The constants *)

(** X9.  Whatever the environment holds, the numeric settings read with
    [parseInt(...) || default] are never 0, and the settings read with
    [... || default] are never the empty string: a value of 0 or an empty
    value gives the default, so that [BOOTSTRAP_TIMEOUT=0] means 10000.
    The cache is enabled by the exact value [true] of
    [PEER_CACHE_ENABLED] and by nothing else. *)
Theorem constants_are_never_zero (e : environment) :
  MAX_PEERS (load e) <> 0
  /\ SCAN_PORT (load e) <> 0
  /\ BOOTSTRAP_TIMEOUT (load e) <> 0
  /\ PEER_CACHE_MAX_AGE (load e) <> 0
  /\ PEER_CACHE_PATH (load e) <> EmptyString
  /\ BOOTSTRAP_PEER_IP (load e) <> Some EmptyString
  /\ (env_BOOTSTRAP_TIMEOUT e = Some 0 -> BOOTSTRAP_TIMEOUT (load e) = 10000)
  /\ (PEER_CACHE_ENABLED (load e) = true
      <-> env_PEER_CACHE_ENABLED e = Some "true"%string).
Proof.
  assert (Hnz : forall x d, d <> 0 -> or_default x d <> 0).
  { intros [n |] d Hd; cbn; [| exact Hd].
    destruct (Z.eqb_spec n 0); assumption. }
  repeat split; cbn; try (apply Hnz; lia).
  - unfold str_or_default. destruct (env_PEER_CACHE_PATH e) as [s |];
      [| discriminate].
    destruct (String.eqb_spec s EmptyString); [discriminate | assumption].
  - unfold str_or_null. destruct (env_BOOTSTRAP_PEER_IP e) as [s |];
      [| discriminate].
    destruct (String.eqb_spec s EmptyString); [discriminate |].
    congruence.
  - intros ->. reflexivity.
  - destruct (env_PEER_CACHE_ENABLED e) as [s |]; [| discriminate].
    intros H. apply String.eqb_eq in H. congruence.
  - intros ->. reflexivity.
Qed.

(** ** The skip filter *)

Lemma split_on_first s0 rest :
  no_dot s0 = true ->
  split_on "." (s0 ++ String "." rest) = s0 :: split_on "." rest.
Proof.
  induction s0 as [| c s0 IH]; cbn; [reflexivity |].
  intros H. apply andb_true_iff in H as [Hc H].
  apply negb_true_iff in Hc. rewrite Hc, (IH H). reflexivity.
Qed.

Lemma split_on_no_dot s : no_dot s = true -> split_on "." s = [s].
Proof.
  induction s as [| c s IH]; cbn; [reflexivity |].
  intros H. apply andb_true_iff in H as [Hc H].
  apply negb_true_iff in Hc. rewrite Hc, (IH H). reflexivity.
Qed.

Ltac decide_ranges :=
  unfold num_eq, num_ge, num_le, reserved_range;
  repeat match goal with
         | |- context [?x =? ?y] => destruct (Z.eqb_spec x y)
         | |- context [?x >=? ?y] =>
             rewrite (Z.geb_leb x y); destruct (Z.leb_spec y x)
         | |- context [?x <=? ?y] => destruct (Z.leb_spec x y)
         end;
  cbn; split; intros; try discriminate; try reflexivity; try lia.

(** X10.  On an address whose first two dot-separated parts are the
    numbers [a] and [b], [shouldSkipAddress] is true exactly on the
    ranges it names: 127/8, 10/8, 172.16/12, 192.168/16, 169.254/16 and
    everything from 224 upwards.  Only the first two parts are looked
    at, and with a single part only the ranges of the first number
    count. *)
Theorem shouldSkipAddress_ranges (rt : runtime) s0 s1 rest a b :
  no_dot s0 = true -> no_dot s1 = true ->
  StringToNumber rt s0 = Some a -> StringToNumber rt s1 = Some b ->
  (shouldSkipAddress rt (s0 ++ String "." (s1 ++ String "." rest)) = true
   <-> reserved_range a b)
  /\ (shouldSkipAddress rt (s0 ++ String "." s1) = true
      <-> reserved_range a b)
  /\ (shouldSkipAddress rt s0 = true <-> a = 127 \/ a = 10 \/ 224 <= a).
Proof.
  intros H0 H1 Ha Hb. unfold shouldSkipAddress. split; [| split].
  - rewrite split_on_first, split_on_first by assumption.
    cbn [List.map part nth_error]. rewrite Ha, Hb. decide_ranges.
  - rewrite split_on_first, split_on_no_dot by assumption.
    cbn [List.map part nth_error]. rewrite Ha, Hb. decide_ranges.
  - rewrite split_on_no_dot by assumption.
    cbn [List.map part nth_error]. rewrite Ha. decide_ranges.
Qed.

Ltac in_cases H :=
  unfold debug_trace, start_trace in H;
  repeat match type of H with
         | In _ (_ ++ _) => apply in_app_or in H; destruct H as [H | H]
         | In _ (_ :: _) => destruct H as [H | H]
         | In _ [] => destruct H
         end.

Ltac other_origin Hclass Hin :=
  apply (forallb_In _ _ _ Hclass) in Hin; cbn in Hin; discriminate Hin.

Ltac disjoint := intros o; destruct o; cbn; congruence.

Section Program.

Variable rt : runtime.
Variable cfg : constants.
Variable gen : Type.
Variable createFeistelGenerator : Z -> gen.
Variable generator_next : gen -> option Z * gen.
Variable ipv4ToString : option Z -> string.

Local Notation scanIPv4Space :=
  (scanIPv4Space rt cfg gen createFeistelGenerator generator_next
     ipv4ToString).
Local Notation bootstrapPeers :=
  (bootstrapPeers rt cfg gen createFeistelGenerator generator_next
     ipv4ToString).

(** ** The cache file: what is read, what is kept, what is written *)





(** The events of the cache phase include no connection, no call of the
    generator and no write. *)
Lemma cache_phase_quiet l :
  forallb (from [CachePhase]) l = true ->
  connects l = 0 /\ gen_calls l = 0
  /\ forall path t, ~ In (FsWrite path t) l.
Proof.
  intros Hcl. split; [| split].
  - induction l as [| e l IH]; [reflexivity |].
    cbn [forallb] in Hcl. apply andb_true_iff in Hcl as [He Hcl].
    destruct e; try discriminate He; exact (IH Hcl).
  - induction l as [| e l IH]; [reflexivity |].
    cbn [forallb] in Hcl. apply andb_true_iff in Hcl as [He Hcl].
    destruct e; try discriminate He; exact (IH Hcl).
  - intros path t Hin. other_origin Hcl Hin.
Qed.

(** Events that come neither from the cache phase nor from
    [savePeerCache] are no accesses to the file system. *)
Lemma no_fs_access os l :
  existsb (origin_eqb CachePhase) os = false ->
  existsb (origin_eqb SavePhase) os = false ->
  forallb (from os) l = true -> forallb (cache_access cfg) l = true.
Proof.
  intros H1 H2. apply forallb_weaken. intros e. unfold from.
  destruct e; cbn [origin_of cache_access]; try reflexivity;
    intros He; rewrite ?H1, ?H2 in He; discriminate He.
Qed.

Lemma class_without_found os l :
  existsb (origin_eqb ScanPhase) os = false ->
  forallb (from os) l = true -> existsb is_found l = false.
Proof.
  intros Hos Hcl. apply existsb_forallb_negb. revert Hcl.
  apply forallb_weaken. intros e He.
  destruct e as [| [] | | | | | |]; try reflexivity.
  unfold from in He. cbn in He. rewrite Hos in He. discriminate He.
Qed.


(** ** The orchestrator: what a run touches and what it returns *)

Lemma bootstrap_summary seed w :
  exists o w' new,
    bootstrapPeers seed w = (o, w')
    /\ events w' = new ++ events w
    /\ forallb (cache_access cfg) new = true
    /\ (forall p, p <> PEER_CACHE_PATH cfg -> fs w' p = fs w p)
    /\ (PEER_CACHE_ENABLED cfg = false -> fs w' = fs w)
    /\ (In (Log FallbackToDHT) new <-> o = Ok JNull)
    /\ match o with
       | Throw _ =>
           fs w' = fs w /\ existsb is_success new = false
           /\ existsb (from [SavePhase]) new = false
       | Ok r =>
           (r = JNull /\ existsb is_found new = false
            /\ existsb is_success new = false
            /\ existsb (from [SavePhase]) new = false /\ fs w' = fs w)
           \/ truthy r = true
       end.
Proof.
  destruct (bootstrap_cases rt cfg gen createFeistelGenerator generator_next
              ipv4ToString seed w)
    as [d [w1 [dbg [Hd [Hev1 [Hfs1 [Hwr1 [Htn1 [Hcld [_ [Hdbg Hrest]]]]]]]]]]].
  assert (Hacc1 : forallb (cache_access cfg) (dbg ++ start_trace seed)
                  = true).
  { apply forallb_app_true; [| reflexivity].
    revert Hcld. apply no_fs_access; reflexivity. }
  assert (Hsave1 : existsb (from [SavePhase]) (dbg ++ start_trace seed)
                   = false).
  { rewrite existsb_app,
      (class_excludes [DebugPhase; Connection] [SavePhase] dbg
         ltac:(disjoint) Hcld). reflexivity. }
  assert (Hfound1 : existsb is_found (dbg ++ start_trace seed) = false).
  { rewrite existsb_app,
      (class_without_found [DebugPhase; Connection] dbg eq_refl Hcld).
    reflexivity. }
  assert (Hfb1 : ~ In (Log FallbackToDHT) (dbg ++ start_trace seed)).
  { intros Hin. apply in_app_or in Hin as [Hin | Hin];
      [other_origin Hcld Hin | in_cases Hin; discriminate Hin]. }
  destruct d as [[peer |] | message].
  { destruct Hdbg as [address [_ [_ [_ [-> ->]]]]].
    exists (Ok (found cfg address)), w1,
      (debug_trace cfg address true ++ start_trace seed).
    split; [exact Hrest |]. split; [rewrite Hev1, app_assoc; reflexivity |].
    split; [exact Hacc1 |].
    split; [intros p _; rewrite Hfs1; reflexivity |].
    split; [intros _; exact Hfs1 |].
    split; [split; [intros Hin; destruct (Hfb1 Hin) | discriminate] |].
    right. reflexivity. }
  2:{ destruct Hdbg as [_ [address Hdbg]].
    exists (Throw message), w1, (dbg ++ start_trace seed).
    split; [exact Hrest |]. split; [rewrite Hev1, app_assoc; reflexivity |].
    split; [exact Hacc1 |].
    split; [intros p _; rewrite Hfs1; reflexivity |].
    split; [intros _; exact Hfs1 |].
    split; [split; [intros Hin; destruct (Hfb1 Hin) | discriminate] |].
    split; [exact Hfs1 |]. split; [subst dbg; reflexivity | exact Hsave1]. }
  destruct Hrest
    as [c [w2 [cch [Hc [Hev2 [Hfs2 [Hwr2 [Htn2 [Hclc [Hacc2
         [Hsc Hrest]]]]]]]]]]].
  assert (Hns1 : existsb is_success (dbg ++ start_trace seed) = false).
  { destruct Hdbg as [-> | [address ->]]; reflexivity. }
  set (base := cch ++ dbg ++ start_trace seed).
  assert (Hbase : events w2 = base ++ events w).
  { unfold base. rewrite Hev2, Hev1, <- !app_assoc. reflexivity. }
  assert (Hacc : forallb (cache_access cfg) base = true)
    by (apply forallb_app_true; assumption).
  assert (Hsave : existsb (from [SavePhase]) base = false).
  { unfold base. rewrite existsb_app, Hsave1,
      (class_excludes [CachePhase; Connection] [SavePhase] cch
         ltac:(disjoint) Hclc). reflexivity. }
  assert (Hfound : existsb is_found base = false).
  { unfold base. rewrite existsb_app, Hfound1,
      (class_without_found [CachePhase; Connection] cch eq_refl Hclc).
    reflexivity. }
  assert (Hfb : ~ In (Log FallbackToDHT) base).
  { intros Hin. apply in_app_or in Hin as [Hin | Hin];
      [other_origin Hclc Hin | exact (Hfb1 Hin)]. }
  destruct c as [c | message].
  2:{ exists (Throw message), w2, base.
    split; [exact Hrest |]. split; [exact Hbase |]. split; [exact Hacc |].
    split; [intros p _; rewrite Hfs2; reflexivity |].
    split; [intros _; exact Hfs2 |].
    split; [split; [intros Hin; destruct (Hfb Hin) | discriminate] |].
    split; [exact Hfs2 |]. split; [| exact Hsave].
    unfold base. rewrite existsb_app, Hsc, Hns1. reflexivity. }
  destruct (truthy c) eqn:Htc.
  { exists (Ok c), (snd (emit (Log (UsingCached (prop c "ip"))) w2)),
      (Log (UsingCached (prop c "ip")) :: base).
    split; [exact Hrest |].
    split; [cbn; rewrite Hbase; reflexivity |].
    split; [cbn [forallb cache_access]; exact Hacc |].
    split; [intros p _; cbn [emit snd fs]; rewrite Hfs2; reflexivity |].
    split; [intros _; exact Hfs2 |].
    split; [| right; exact Htc].
    split.
    - intros [E | Hin]; [discriminate E | destruct (Hfb Hin)].
    - intros E. injection E as ->. discriminate Htc. }
  destruct Hrest
    as [-> [s [w3 [scn [Hs [Hev3 [Hfs3 [Hwr3 [Htn3 [Hcls [_
         Hrest]]]]]]]]]]].
  assert (Hnsb : existsb is_success base = false).
  { unfold base. rewrite existsb_app, Hns1, orb_false_r.
    destruct (existsb is_success cch) eqn:E; [| reflexivity].
    apply existsb_exists in E as [e [Hin He]].
    destruct e; try discriminate He. cbn in He. subst.
    destruct (Hsc _ _ _ Hin) as [Ht _]. discriminate Ht. }
  assert (Hacc3 : forallb (cache_access cfg) scn = true).
  { revert Hcls. apply no_fs_access; reflexivity. }
  assert (Hsave3 : existsb (from [SavePhase]) scn = false).
  { exact (class_excludes [ScanPhase; Connection] [SavePhase] scn
             ltac:(disjoint) Hcls). }
  assert (Hfb3 : ~ In (Log FallbackToDHT) scn).
  { intros Hin. other_origin Hcls Hin. }
  assert (Hscn : events w3 = (scn ++ base) ++ events w).
  { rewrite Hev3, Hbase, app_assoc. reflexivity. }
  destruct s as [s | message].
  2:{ destruct Hrest as [_ [Hnf [Hns Hboot]]].
    exists (Throw message), w3, (scn ++ base).
    split; [exact Hboot |]. split; [exact Hscn |].
    split; [apply forallb_app_true; assumption |].
    split; [intros p _; rewrite Hfs3; reflexivity |].
    split; [intros _; exact Hfs3 |].
    split.
    { split; [| discriminate].
      intros Hin. apply in_app_or in Hin as [Hin | Hin];
        [destruct (Hfb3 Hin) | destruct (Hfb Hin)]. }
    split; [exact Hfs3 |].
    rewrite !existsb_app, Hns, Hnsb, Hsave3, Hsave. split; reflexivity. }
  destruct Hrest as [[-> [Hnf [Hns Hboot]]] | [ip [n [w4 [sv H]]]]].
  { exists (Ok JNull), (snd (emit (Log FallbackToDHT) w3)),
      (Log FallbackToDHT :: scn ++ base).
    split; [exact Hboot |].
    split; [cbn; rewrite Hscn; reflexivity |].
    split; [cbn [forallb cache_access]; apply forallb_app_true;
            assumption |].
    split; [intros p _; cbn [emit snd fs]; rewrite Hfs3; reflexivity |].
    split; [intros _; exact Hfs3 |].
    split; [split; [reflexivity | intros _; now left] |].
    left. split; [reflexivity |].
    cbn [existsb]. rewrite !existsb_app, Hnf, Hns, Hnsb, Hfound, Hsave3,
      Hsave.
    repeat split. exact Hfs3. }
  cbv zeta in H.
  destruct H as [-> [_ [_ [_ [_ [Hev4 [Hclv [Haccv [_ [Hoth [Hoff
                  [_ Hboot]]]]]]]]]]]].
  eexists (Ok _), (snd (emit (Log FoundViaScan) w4)),
    (Log FoundViaScan :: sv ++ scn ++ base).
  split; [exact Hboot |].
  split; [cbn; rewrite Hev4, Hscn, <- !app_assoc; reflexivity |].
  split; [cbn [forallb cache_access];
          apply forallb_app_true;
          [exact Haccv | apply forallb_app_true; assumption] |].
  split; [exact Hoth |]. split; [exact Hoff |].
  split; [| right; reflexivity].
  split; [| discriminate].
  intros [E | Hin]; [discriminate E |].
  apply in_app_or in Hin as [Hin | Hin]; [other_origin Hclv Hin |].
  apply in_app_or in Hin as [Hin | Hin];
    [destruct (Hfb3 Hin) | destruct (Hfb Hin)].
Qed.

(** X11.  [scanIPv4Space] makes a connection for at most one in a
    hundred of the candidates it takes from the generator, hence at most
    1000 connections in a scan, and the oracle of connections advances
    by exactly that number.  Every connection goes to an address
    [shouldSkipAddress] lets through, on [SCAN_PORT], with a timeout of
    500 ms.  The scan returns when [SCAN_PORT] is a port; it throws only
    when [SCAN_PORT] is none, with the first attempt, and then no
    connection has succeeded. *)
Theorem scan_probes_one_in_a_hundred seed timeout w :
  exists o w' new,
    scanIPv4Space seed timeout w = (o, w')
    /\ events w' = new ++ events w
    /\ forallb (is_scan_probe rt cfg) new = true
    /\ 100 * connects new <= gen_calls new
    /\ connects new <= 1000
    /\ Z.of_nat (connections w') = Z.of_nat (connections w) + connects new
    /\ (valid_port (SCAN_PORT cfg) -> exists r, o = Ok r)
    /\ (forall message,
          o = Throw message ->
          ~ valid_port (SCAN_PORT cfg)
          /\ existsb is_success new = false).
Proof.
  destruct (scan_cases rt cfg gen createFeistelGenerator generator_next
              ipv4ToString seed timeout w)
    as [o [w' [new [Hrun [Hev [_ [_ [_ [Hcn [_ [Hpr [Hg [Hc [_ [_
         [Ho _]]]]]]]]]]]]]]]].
  exists o, w', new. unfold maxAttempts in Hg.
  split; [exact Hrun |]. split; [exact Hev |]. split; [exact Hpr |].
  split; [exact Hc |]. split; [lia |]. split; [exact Hcn |].
  split.
  - intros Hv. destruct o as [r | message]; [exists r; reflexivity |].
    destruct (proj1 Ho Hv).
  - intros message ->. split; [exact (proj1 Ho) | exact (proj2 (proj2 Ho))].
Qed.

(** X12.  When [scanIPv4Space] logs that the deadline has passed it
    returns [null], the count it logs is the number of candidates it has
    taken from the generator, and that number is below 100000.  When the
    clock is past the deadline at the first turn of the loop, the scan
    returns [null] having taken no candidate and attempted no
    connection, whatever [SCAN_PORT] is. *)
Theorem scan_stops_at_the_deadline seed timeout w :
  exists o w' new,
    scanIPv4Space seed timeout w = (o, w')
    /\ events w' = new ++ events w
    /\ (forall n, In (Log (ScanTimeout n)) new ->
          o = Ok JNull /\ n = gen_calls new /\ n < 100000)
    /\ (clock rt (S (clock_reads w)) - clock rt (clock_reads w) > timeout ->
        o = Ok JNull /\ gen_calls new = 0 /\ connects new = 0
        /\ In (Log (ScanTimeout 0)) new).
Proof.
  destruct (scan_cases rt cfg gen createFeistelGenerator generator_next
              ipv4ToString seed timeout w)
    as [o [w' [new [Hrun [Hev [_ [_ [_ [_ [_ [_ [_ [_ [Hto
         [Hdl _]]]]]]]]]]]]]]].
  exists o, w', new. unfold maxAttempts in Hto.
  split; [exact Hrun |]. split; [exact Hev |].
  split; [exact Hto | exact Hdl].
Qed.


(** X14.  [loadPeerCache] returns without changing a file, also when it
    prunes stale entries: it writes nothing, connects to nothing, takes
    nothing from the generator and reads the clock at most once.  The
    only file it looks at is the cache file, and with the cache disabled
    it looks at none. *)
Theorem loadPeerCache_only_reads w :
  exists peers w' new,
    loadPeerCache rt cfg w = (Ok peers, w')
    /\ events w' = new ++ events w
    /\ fs w' = fs w /\ fs_writable w' = fs_writable w
    /\ connections w' = connections w
    /\ connects new = 0 /\ gen_calls new = 0
    /\ forallb (cache_access cfg) new = true
    /\ (forall path t, ~ In (FsWrite path t) new)
    /\ (clock_reads w' <= S (clock_reads w))%nat
    /\ (PEER_CACHE_ENABLED cfg = false ->
        peers = [] /\ new = [Call CallLoadPeerCache]).
Proof.
  destruct (load_cases rt cfg w)
    as [peers [w' [new [Hrun [Hev [Hfs [Hwr [_ [Hcn [Hcl [Hacc [Hck [_
         [Hoff Hcase]]]]]]]]]]]]]].
  destruct (cache_phase_quiet new Hcl) as [Hc [Hg Hnw]].
  exists peers, w', new.
  do 8 (split; [assumption |]). split; [exact Hnw |].
  split; [exact Hck |].
  intros Hen. split; [| exact (Hoff Hen)].
  rewrite Hen in Hcase. exact (proj1 Hcase).
Qed.


(** X16.  [savePeerCache] never throws and never touches another file
    than the cache file.  When the write succeeds, what is written is
    the document with the format tag, the time and the peers, and with
    it goes a line that reports the number of peers it was given.  It
    logs a warning exactly when the cache is enabled and the write
    fails.  A write that fails before the file is opened leaves the
    files as they were, as does a call with the cache disabled; a write
    that fails after the file was opened and truncated leaves the cache
    file with the part that was written, which is no document. *)
Theorem savePeerCache_never_throws peers w :
  exists w' new,
    savePeerCache rt cfg peers w = (Ok tt, w')
    /\ events w' = new ++ events w
    /\ connections w' = connections w
    /\ (forall p, p <> PEER_CACHE_PATH cfg -> fs w' p = fs w p)
    /\ (forall path t,
          In (FsWrite path t) new ->
          path = PEER_CACHE_PATH cfg /\ fs w' path = Content t
          /\ (existsb is_warning new = false ->
              t = Json (snapshot (clock rt (clock_reads w)) peers)
              /\ In (Log (SavedPeers (len peers))) new)
          /\ (existsb is_warning new = true ->
              exists part, fs_torn w path = Some part /\ t = Raw part))
    /\ (existsb is_warning new = true
        <-> PEER_CACHE_ENABLED cfg = true
            /\ fs_writable w (PEER_CACHE_PATH cfg) = false)
    /\ (existsb is_fs_event new = false -> fs w' = fs w)
    /\ (PEER_CACHE_ENABLED cfg = true ->
        fs_writable w (PEER_CACHE_PATH cfg) = true ->
        In (FsWrite (PEER_CACHE_PATH cfg)
              (Json (snapshot (clock rt (clock_reads w)) peers))) new)
    /\ (PEER_CACHE_ENABLED cfg = true ->
        fs_writable w (PEER_CACHE_PATH cfg) = false ->
        match fs_torn w (PEER_CACHE_PATH cfg) with
        | None => fs w' = fs w
        | Some part => fs w' (PEER_CACHE_PATH cfg) = Content (Raw part)
        end).
Proof.
  destruct (save_cases rt cfg peers w)
    as [w' [new [Hrun [Hev [_ [_ [Hcn [_ [_ [_ [Hfs Hcase]]]]]]]]]]].
  exists w', new. do 4 (split; [assumption |]).
  destruct (PEER_CACHE_ENABLED cfg);
    [destruct (fs_writable w (PEER_CACHE_PATH cfg));
       [| destruct (fs_torn w (PEER_CACHE_PATH cfg)) as [part |] eqn:Htorn] |];
    destruct Hcase as [Hf ->].
  - split.
    { intros path t [E | [E | [E | []]]]; try discriminate E.
      injection E as <- <-. split; [reflexivity |].
      split; [rewrite Hf; apply write_file_same |].
      split; [intros _; split; [reflexivity | now left] |].
      intros H; discriminate H. }
    split; [split; [cbn; discriminate | intros [_ H]; discriminate H] |].
    split; [cbn; discriminate |].
    split; [intros _ _; right; now left | intros _ H; discriminate H].
  - split.
    { intros path t [E | [E | [E | []]]]; try discriminate E.
      injection E as <- <-. split; [reflexivity |].
      split; [rewrite Hf; apply write_file_same |].
      split; [intros H; discriminate H |].
      intros _. exists part. split; [exact Htorn | reflexivity]. }
    split; [split; [intros _; split; reflexivity | reflexivity] |].
    split; [cbn; discriminate |].
    split; [intros _ H; discriminate H |].
    intros _ _. rewrite Hf. apply write_file_same.
  - split; [intros path t [E | [E | []]]; discriminate E |].
    split; [split; [intros _; split; reflexivity | reflexivity] |].
    split; [intros _; exact Hf |].
    split; [intros _ H; discriminate H | intros _ _; exact Hf].
  - split; [intros path t [E | []]; discriminate E |].
    split; [split; [cbn; discriminate | intros [H _]; discriminate H] |].
    split; [intros _; exact Hf |].
    split; intros H; discriminate H.
Qed.



(** X19.  [bootstrapPeers] returns [null] exactly in the runs that log
    the fallback to DHT discovery.  In those runs no peer was found, no
    connection succeeded, [savePeerCache] was not called and the files
    are as they were.  A result that is not [null] is truthy.  A run
    that throws returns nothing and logs no fallback. *)
Theorem null_result_means_fallback seed w :
  exists o w' new,
    bootstrapPeers seed w = (o, w')
    /\ events w' = new ++ events w
    /\ (o = Ok JNull <-> In (Log FallbackToDHT) new)
    /\ (o = Ok JNull ->
        existsb is_found new = false
        /\ existsb is_success new = false
        /\ existsb (from [SavePhase]) new = false
        /\ fs w' = fs w)
    /\ (forall r, o = Ok r -> r <> JNull -> truthy r = true)
    /\ (forall message,
          o = Throw message ->
          ~ In (Log FallbackToDHT) new
          /\ existsb (from [SavePhase]) new = false).
Proof.
  destruct (bootstrap_summary seed w)
    as [o [w' [new [Hrun [Hev [_ [_ [_ [Hfb Ho]]]]]]]]].
  exists o, w', new.
  split; [exact Hrun |]. split; [exact Hev |].
  split; [split; apply Hfb |].
  split; [| split].
  - intros ->. destruct Ho as [[_ H] | H]; [exact H | discriminate H].
  - intros r -> Hr. destruct Ho as [[E _] | H]; [destruct (Hr E) | exact H].
  - intros message ->. destruct Ho as [_ [_ H]]. split; [| exact H].
    intros Hin. apply Hfb in Hin. discriminate Hin.
Qed.

End Program.

(** ** The statements on concrete runs *)

Lemma shouldSkipAddress_ranges_witness :
  shouldSkipAddress Samples.offline "192.168.1.1"%string = true
  /\ shouldSkipAddress Samples.offline "192.169.1.1"%string = false.
Proof.
  destruct (shouldSkipAddress_ranges Samples.offline "192"%string "168"%string "1.1"%string
              192 168 eq_refl eq_refl eq_refl eq_refl) as [[_ H1] _].
  destruct (shouldSkipAddress_ranges Samples.offline "192"%string "169"%string "1.1"%string
              192 169 eq_refl eq_refl eq_refl eq_refl) as [[H2 _] _].
  split.
  - apply H1. unfold reserved_range. lia.
  - destruct (shouldSkipAddress Samples.offline "192.169.1.1"%string) eqn:E;
      [| reflexivity].
    specialize (H2 E). unfold reserved_range in H2. lia.
Defined.

Lemma scan_probes_one_in_a_hundred_witness :
  exists r w',
    Samples.scanIPv4Space Samples.online Samples.caching 7 10000
      (Samples.disk Missing) = (Ok r, w')
    /\ 100 * connects (events w') <= gen_calls (events w').
Proof.
  destruct (scan_probes_one_in_a_hundred Samples.online Samples.caching
              Feistel.generator Feistel.createFeistelGenerator
              Samples.next Samples.render 7 10000 (Samples.disk Missing))
    as [o [w' [new [Hrun [Hev [_ [Hc [_ [_ [Hret _]]]]]]]]]].
  cbn [events Samples.disk] in Hev. rewrite app_nil_r in Hev.
  destruct Hret as [r ->]; [unfold valid_port; cbn; lia |].
  exists r, w'. rewrite Hev. split; [exact Hrun | exact Hc].
Defined.

Lemma scan_stops_at_the_deadline_witness :
  exists w',
    Samples.scanIPv4Space Samples.offline Samples.caching 7 0
      (Samples.disk Missing) = (Ok JNull, w')
    /\ gen_calls (events w') = 0
    /\ connects (events w') = 0.
Proof.
  destruct (scan_stops_at_the_deadline Samples.offline Samples.caching
              Feistel.generator Feistel.createFeistelGenerator
              Samples.next Samples.render 7 0 (Samples.disk Missing))
    as [o [w' [new [Hrun [Hev [_ Hlate]]]]]].
  cbn [events Samples.disk] in Hev. rewrite app_nil_r in Hev.
  destruct Hlate as [-> [Hg [Hc _]]]; [cbn; lia |].
  exists w'. rewrite Hev. auto.
Defined.



(** A run with a cached entry that has no port: the replay throws, and
    so does [bootstrapPeers]. *)
Example replay_without_port_throws :
  let run := Samples.bootstrapPeers Samples.online Samples.caching 7
               (Samples.disk (Content (Json Samples.portless))) in
  fst run = Throw "ERR_MISSING_ARGS"
  /\ existsb is_success (events (snd run)) = false
  /\ fs (snd run) = fs (Samples.disk (Content (Json Samples.portless))).
Proof. vm_compute. repeat split. Qed.

(** A write that fails after the file was truncated: [savePeerCache]
    warns, and the cache file holds what was written of the document. *)
Example torn_write_is_kept :
  let run := savePeerCache Samples.offline Samples.caching [Samples.p1]
               (Samples.full_disk (Content (Json Samples.version1))) in
  fst run = Ok tt
  /\ existsb is_warning (events (snd run)) = true
  /\ fs (snd run) "./peers.json" = Content (Raw "").
Proof. vm_compute. repeat split. Qed.

End BootstrapMore.
